(* ===== verification/_CoqProject ===== *)
-Q . S2P
Prelude.v
Mongo.v
JSNumber.v
Float64.v
Random.v
JSDate.v
Route.v
Telemetry.v
Batch.v
Main.v
Machine.v
Scenarios.v
