(* ===== verification/Prelude.v ===== *)
(** * Verification of the train-telemetry data generator

    The program (src/dataGenerator.js, src/mongoConnection.js) synthesises
    position telemetry for a fleet of simulated trains and stores it in a
    MongoDB collection.  For every train it draws two random coordinates in
    the Sri Lanka bounding box, cuts the straight line between them into a
    random number of equal segments ([generatePathSegments]), produces one
    record per minute for ninety days whose position sweeps the segments in
    order ([generateLocationData]), and writes the records in batches of
    one thousand ([insertDataInBatches]), from a [main] that opens and
    closes the database connection ([connectToMongoDB]).

    ** Files of the development, in dependency order

    - [Prelude] (this file): the development's tactics and hint database,
      JavaScript completions ([completion]: a normal value or a thrown
      error), the state-and-exception monad [M] in which effectful
      functions are written, and the counted [for] loops of the program
      ([for_lt], [foldM_lt]) with the theorem that the guarded loop of the
      source needs exactly [trip_count] iterations to leave through its
      guard ([for_guarded_terminates], [foldM_guarded_terminates]).
    - [Mongo]: the handles of the MongoDB driver that the program holds:
      the client of [new MongoClient(uri, options)] with its options
      (mongoConnection.js lines 6-10), the database of [client.db(name)]
      and the collection of [db.collection(name)] (dataGenerator.js lines
      86-87), as values with decidable equality.
    - [JSNumber]: the arithmetic of JavaScript numbers the program uses
      ([+ - * / %], [Math.floor], array indexing by a number) as the class
      [JSNum]; the class [ExactNum] of models whose arithmetic on finite
      values is that of the rationals; the instance on [Q].
    - [Float64]: the instance of [JSNum] on IEEE 754 binary64 (Rocq's
      primitive floats), by which the definitions run on the very numbers
      Node.js computes with.
    - [JSDate]: the time value of a [Date] and the built-ins the program
      calls on it ([getMinutes], [setMinutes], [TimeClip]), after
      ECMA-262, under a fixed local-time offset.
    - [Random]: the sources of nondeterminism ([faker.number.int],
      [faker.number.float], [uuidv4]) as the class [Entropy] of state
      transformers with the laws [EntropyLaws] (ranges of the integers,
      freshness of identifiers; they hold in every number model) and
      [FloatLaws] (range of the floating-point draws, in exact
      arithmetic), and a counter-based instance.
    - [Route]: [GeoPoint], [Segment], [getRandomSriLankanCoordinates] and
      [generatePathSegments] (dataGenerator.js lines 11-44).
    - [Telemetry]: the record [Location] and [generateLocationData]
      (dataGenerator.js lines 46-70), with the constants of lines 6-9.
    - [Batch]: [insertDataInBatches] (dataGenerator.js lines 72-82)
      against the interface [Sink] of the server and the console
      ([insertMany] on a collection handle, [console.log] and
      [console.error] on their streams), with an executable sink whose
      failures are scripted ([store]), a sink that records the calls of
      [insertMany] ([journal]) and the reference definition [chunks] of
      cutting a list, by well-founded recursion.
    - [Main]: [main] and the call of line 111 (dataGenerator.js lines
      84-111) and [connectToMongoDB] (mongoConnection.js lines 5-20), on
      the state [World] of the program: random source, sink, clock and
      client.  [connectToMongoDB] makes the client with the options of
      the source and returns it; [main] takes the handle of the
      collection [locations] of the database [trainData] from it and is
      composed of the blocks [train_data] (lines 91-97), [train] (lines
      90-101), [generation] (the [try] with its handler) and
      [finalization] (the [finally]).
    - [Machine]: the control of the program as a state machine: the
      control points [control] with the local variables that are live
      there, the transition relation [step] between them, whose blocks
      are the functions of [Main] and [Batch], and the function [next]
      that computes it.  The machine is not in the source: it is the
      small-step reading of [main], and the refinement theorem ties it to
      [program].
    - [Scenarios]: the program in binary64: the segment index on the
      parameters of [main], binary64 as an implementation of the
      interface [Generator] that [main] is proved against, the start of a
      route, and runs on fixed inputs as examples.

    ** How the model corresponds to the code

    Every definition is generic in the number type ([Context `{JSNum num}])
    and follows the source statement by statement: a [const] is a [let], a
    [for] loop is [for_lt] or [foldM_lt] applied to the loop body, an array
    that is pushed to is a list extended at its end, a call that draws
    randomness is a step of the monad [M R] over the entropy state [R].
    Loop counters ([i], [numSegments], [numEntries], [train_id]) are
    integers ([Z]); the program only ever passes integers below 2^53 there,
    for which the counter and its image [of_int i] in the number type
    agree.  A property access on [undefined] is [Throw TypeError].
    [try]/[catch]/[finally] are the combinators [try_catch] and
    [try_finally]; [process.exit] is the completion [ProcessExit], which
    they let through.  An [await] is a plain call: the program awaits
    every promise it creates, one at a time, so that no two of its
    effects interleave.  A function of a collaborator (random source,
    sink) is run on its part of the state of the program by [zoom].

    Components meet at interfaces, each a class with the laws its clients
    rely on: [JSNum]/[ExactNum] (numbers), [Entropy]/[EntropyLaws]/
    [FloatLaws] (random source), [Sink]/[SinkLaws] (collections and
    console) and [Generator] (what [main] needs of the synthesizer).
    Each has an executable instance: [Q] and binary64, [lcg], [store].
    The theorems of [Main] name their assumptions in their sections:
    those of section [Run] hold for every lawful random source
    ([EntropyLaws]), every lawful sink ([SinkLaws]) and every number
    model in which the series of [main]'s size are returned whole
    ([Generator]: exact arithmetic and binary64 are instances); those of
    section [Robust] need the laws of the sink only.

    Three small logics of the monad carry the proofs: [returns] (total
    correctness: the function returns and the result satisfies a
    postcondition), [catchable] and [total] (what a function may throw),
    and [preserves] (the part of the state a function leaves alone).

    ** What the theorems show

    Theorems come in three strengths.  Those of the sections [Generic]
    hold in every number model, binary64 included.  Those of the sections
    [Exact] hold in the models of [ExactNum], where arithmetic on the
    values the program computes is that of the rationals: they say what
    the algorithm computes, rounding apart.  Those of [Scenarios] are
    about binary64 itself, on the parameters of [main].

    - Route: the number of segments (also for counts that are zero or
      negative, where the code returns the empty array and raises nothing),
      that consecutive segments share their end point in every number
      model, that the guarded loop terminates, and, in exact arithmetic,
      the refinement of the abstract route [buildRoute] (segment [k] runs
      from fraction [k / n] to [(k + 1) / n] of the line) and the end
      points; that a random point lies in the bounding box.
    - Telemetry: the number of records, the arithmetic form of the segment
      index ([i * k / n] in integer division) and of the progress within a
      segment, that no index is out of range for a non-empty route, that
      the entries read the segments in order and leave none out
      ([segmentIndex_sweep]), the [TypeError] for an empty route, the
      time stamps (one interval apart, strictly increasing), the type of
      a record ([well_formed]: train, speed and direction within their
      ranges) and the uniqueness of identifiers in every number model
      under [EntropyLaws], and the refinement theorem: composed with
      [generatePathSegments], record [i] of [n] lies at
      [start + (end - start) * i / n] whatever the number of segments.
    - Batch: the slices of the loop partition the series; the batches
      handed to [insertMany] are the chunks of the reference definition
      (equivalence); the function never throws, whatever [insertMany]
      does; what it adds to the collection is the series with some
      records left out, in order, and nothing is left out unless a line
      of error was written; on the executable sink, for every series and
      every script of failures, exactly which records are stored and
      which are lost ([insertDataInBatches_script]): a failing batch is
      neither retried nor fatal.
    - Main: a server out of reach ends the process with code 1 before
      anything else happens; otherwise, when the client can be closed,
      [main] returns with the client closed, no error reaches its
      handler, every train gets its line of success (also when its
      batches failed), the collection grows by at most 396 * 129600
      records, exactly so without a batch error, the identifiers of
      all the records added are pairwise distinct, and the records of
      train [id] are stamped from the reading of the clock taken at the
      head of its iteration ([main_timestamps]); when the client
      cannot be closed the error leaves [main] from its [finally] block
      and the handler of line 111 writes it; in every world the program
      ends by itself, with no error left uncaught, and leaves every
      collection other than [locations] as it was.
    - Machine: the machine refines [program] (its run from [Connecting]
      ends in the completion of [program] and in no other); every run
      from every configuration ends (liveness); an invariant of the
      reachable configurations, by induction on the run (the loops run
      with the client connected and on the handles of [main], the batch
      counter is a multiple of [BATCH_SIZE], the only exit code is 1).
    - Scenarios: that with the 129600 entries and the 5 to 15 segments
      of [main] the index computed in binary64 is the exact one for every
      entry, so that no run started by [main] throws; the theorems of
      [main] for binary64; that a route starts at its start point, and
      a series at the start of its first segment, bit for bit (from the
      specification of the IEEE 754 operations, for all finite
      coordinates other than zero).  As examples, not theorems of the
      program: the two scenarios of the specification, the bucket policy
      of line 51 on four entries, and a route that misses its end point
      by one rounding error.

    ** Bounds and fuel

    No definition of the program takes fuel: every loop is counted, and
    the model runs it [trip_count lo hi step] times.  The guarded forms
    ([for_guarded], [foldM_guarded], [generatePathSegments_guarded],
    [generateLocationData_guarded], [insertDataInBatches_guarded]) take
    fuel only to state that [trip_count] iterations are what the guard of
    the source loop allows: with that much fuel they return the result of
    the counted form, with less they return [None].  Counters are unbounded integers;
    the program's own values (at most 129600 records, 15 segments, 396
    trains) are far below 2^53, where binary64 counts exactly.  The time
    stamps are stated for series that stay within the representable time
    values (8.64e15 ms either side of the epoch); ninety days are 7.8e9
    ms.  The binary64 theorem on [main]'s parameters compares all
    11 * 129600 indices by evaluation on machine integers, which are exact
    below 2^31 for the products involved ([uint63_bucket]).  [chunks]
    recurses on the length of the list ([Equations], by well-founded
    recursion); the machine needs no fuel for its theorems: the runs of
    [Machine] are built by induction on the trip counts of the two loops,
    and [run] takes fuel only to evaluate a run on an example.

    ** Not modelled

    The MongoDB driver, the server and the network are not modelled: of
    [insertMany] only the contract [SinkLaws] is assumed (an ordered
    insert stores the batch in the collection of its handle or, failing,
    a prefix of it, touches no other collection and does not end the
    process), of [client.connect()] and [client.close()] only whether
    they succeed, as fields of the world.  The options of the client are
    part of the client, but nothing is derived from them; the connection
    string is a secret of the deployment and is left out.  The two streams
    of the console are told apart where a line is written; what is
    observed of a sink is the lines of both in the order written.  The
    scheduling of promises is not modelled; the program awaits each call
    in turn, and a step of the machine runs from one control point to the
    next without interleaving.  The modules that the program only loads
    ([cors], which it never calls) are not modelled.  The clock is a
    sequence of readings, about which the model assumes nothing; the
    theorem on the time stamps of [main] asks that the readings taken
    leave room for a series within the representable time values.
    The local time zone is a constant offset: daylight-saving transitions
    are not modelled.  The formatting of a UUID as text and the
    distribution of random draws are not modelled: only their ranges and
    freshness are assumed, as laws of [Entropy].  Non-finite numbers
    ([Infinity], [NaN]) exist in the binary64 instance only; the laws of
    [ExactNum] are stated of finite values and of non-zero divisors, which
    is all the program meets on the inputs the theorems cover. *)

From Stdlib Require Import List ZArith Lia Bool.
Import ListNotations.

Set Implicit Arguments.

(** ** Tactics *)

(** Invert a hypothesis and clean up. *)
Ltac inv H := inversion H; subst; clear H.

(** Case analysis on the scrutinee of the first [match] or [if] of the goal. *)
Ltac case_scrutinee :=
  match goal with
  | |- context [match ?x with _ => _ end] => destruct x eqn:?
  end.

(** The databases of the development: [js] holds the lemmas [eauto] may
    apply, [js_rw] the equations that compute lengths and trip counts of
    the lists the loops build. *)
Create HintDb js discriminated.
Create Rewrite HintDb js_rw.

Ltac js_rw := autorewrite with js_rw in *.

(** ** Completions

    A JavaScript call either returns or throws.  The only error the core
    can raise is the [TypeError] of a property access on [undefined]; the
    database driver raises [MongoError].  [ProcessExit] is the end of the
    process by [process.exit]: it leaves every enclosing function as a
    throw does, but no [catch] intercepts it and no [finally] runs. *)

Inductive js_error : Type :=
| TypeError
| MongoError
| ProcessExit (code : Z).

Definition is_exit (e : js_error) : bool :=
  match e with ProcessExit _ => true | _ => false end.

Inductive completion (A : Type) : Type :=
| Normal (a : A)
| Throw (e : js_error).

Arguments Normal {A} a.
Arguments Throw {A} e.

Definition is_normal {A} (c : completion A) : bool :=
  match c with Normal _ => true | Throw _ => false end.

(** ** The monad of effectful functions

    A state transformer that may throw; the state survives the throw, as
    the heap of a JavaScript program does. *)

Definition M (St A : Type) : Type := St -> completion A * St.

Definition ret {St A} (a : A) : M St A := fun s => (Normal a, s).

Definition throw {St A} (e : js_error) : M St A := fun s => (Throw e, s).

Definition bind {St A B} (c : M St A) (k : A -> M St B) : M St B :=
  fun s =>
    match c s with
    | (Normal a, s') => k a s'
    | (Throw e, s') => (Throw e, s')
    end.

(** A pure step on the state that returns a value. *)
Definition draw {St A} (f : St -> A * St) : M St A :=
  fun s => let (a, s') := f s in (Normal a, s').

(** Reading a property of a value that may be [undefined]. *)
Definition defined {St A} (o : option A) : M St A :=
  match o with
  | Some a => ret a
  | None => throw TypeError
  end.

(** [try { c } catch (err) { handler err }] *)
Definition try_catch {St A} (c : M St A) (handler : js_error -> M St A) : M St A :=
  fun s =>
    match c s with
    | (Normal a, s') => (Normal a, s')
    | (Throw e, s') => if is_exit e then (Throw e, s') else handler e s'
    end.

(** [try { c } finally { final }]: [final] runs after [c] however [c]
    completes; a throw of [final] replaces the completion of [c]. *)
Definition try_finally {St A} (c : M St A) (final : M St unit) : M St A :=
  fun s =>
    match c s with
    | (Throw (ProcessExit code), s') => (Throw (ProcessExit code), s')
    | (r, s') =>
        match final s' with
        | (Normal _, s'') => (r, s'')
        | (Throw e, s'') => (Throw e, s'')
        end
    end.

(** A function of a collaborator, run on the collaborator's part [get w]
    of the state of the program. *)
Definition zoom {W St A} (get : W -> St) (set : St -> W -> W) (c : M St A) : M W A :=
  fun w => let (r, s') := c (get w) in (r, set s' w).

Declare Scope js_scope.
Delimit Scope js_scope with js.

Notation "x <- c1 ;; c2" := (bind c1 (fun x => c2))
  (at level 61, c1 at next level, right associativity) : js_scope.
Notation "' pat <- c1 ;; c2" := (bind c1 (fun x => match x with pat => c2 end))
  (at level 61, pat pattern, c1 at next level, right associativity) : js_scope.

Local Open Scope js_scope.
Local Open Scope Z_scope.

(** ** Counted loops

    [zrange lo step n] is the sequence of values the counter of
    [for (let i = lo; ...; i += step)] takes in [n] iterations. *)

Fixpoint zrange (lo step : Z) (n : nat) : list Z :=
  match n with
  | O => []
  | S n' => lo :: zrange (lo + step) step n'
  end.

(** The number of iterations of [for (let i = lo; i < hi; i += step)]. *)
Definition trip_count (lo hi step : Z) : nat :=
  Z.to_nat ((hi - lo + step - 1) / step).

(** [for (let i = lo; i < hi; i += step) st = body i st], pure body. *)
Definition for_lt {St} (lo hi step : Z) (body : Z -> St -> St) (st : St) : St :=
  fold_left (fun st i => body i st) (zrange lo step (trip_count lo hi step)) st.

(** The same loop as the source writes it, guard first, under fuel:
    [None] when the fuel runs out before the guard fails. *)
Fixpoint for_guarded {St} (fuel : nat) (hi step : Z) (body : Z -> St -> St)
    (i : Z) (st : St) : option St :=
  if i <? hi then
    match fuel with
    | O => None
    | S fuel' => for_guarded fuel' hi step body (i + step) (body i st)
    end
  else Some st.

(** A loop in the monad that carries the values of its local variables
    ([a]) from one iteration to the next and stops at the first throw. *)
Fixpoint foldM {St A} (body : Z -> A -> M St A) (range : list Z) (a : A) : M St A :=
  match range with
  | [] => ret a
  | i :: range' => a' <- body i a ;; foldM body range' a'
  end.

Definition foldM_lt {St A} (lo hi step : Z) (body : Z -> A -> M St A) (a : A) : M St A :=
  foldM body (zrange lo step (trip_count lo hi step)) a.

Fixpoint foldM_guarded {St A} (fuel : nat) (hi step : Z) (body : Z -> A -> M St A)
    (i : Z) (a : A) : M St (option A) :=
  if i <? hi then
    match fuel with
    | O => ret None
    | S fuel' => a' <- body i a ;; foldM_guarded fuel' hi step body (i + step) a'
    end
  else ret (Some a).

(** ** Lemmas on the monad *)

Lemma bind_ret_l {St A B} (a : A) (k : A -> M St B) s :
  bind (ret a) k s = k a s.
Proof. reflexivity. Qed.

Lemma bind_ret_r {St A} (c : M St A) s :
  bind c ret s = c s.
Proof. unfold bind, ret. destruct (c s) as [[a|e] s']; reflexivity. Qed.

Lemma bind_assoc {St A B C} (c : M St A) (k : A -> M St B) (h : B -> M St C) s :
  bind (bind c k) h s = bind c (fun a => bind (k a) h) s.
Proof. unfold bind. destruct (c s) as [[a|e] s']; reflexivity. Qed.

Lemma bind_ext {St A B} (c : M St A) (k1 k2 : A -> M St B) s :
  (forall a s', k1 a s' = k2 a s') -> bind c k1 s = bind c k2 s.
Proof. intros E. unfold bind. destruct (c s) as [[a|e] s']; auto. Qed.

Lemma bind_head {St A B} (c1 c2 : M St A) (k : A -> M St B) s :
  c1 s = c2 s -> bind c1 k s = bind c2 k s.
Proof. intros Ec. unfold bind. now rewrite Ec. Qed.

Lemma bind_normal {St A B} (c : M St A) (k : A -> M St B) s a s' :
  c s = (Normal a, s') -> bind c k s = k a s'.
Proof. intros E. unfold bind. now rewrite E. Qed.

Lemma bind_throw {St A B} (c : M St A) (k : A -> M St B) s e s' :
  c s = (Throw e, s') -> bind c k s = (Throw e, s').
Proof. intros E. unfold bind. now rewrite E. Qed.

Lemma bind_normal_inv {St A B} (c : M St A) (k : A -> M St B) s b s2 :
  bind c k s = (Normal b, s2) ->
  exists a s1, c s = (Normal a, s1) /\ k a s1 = (Normal b, s2).
Proof.
  unfold bind. destruct (c s) as [[a|e] s1]; intros E.
  - now exists a, s1.
  - discriminate.
Qed.

Lemma draw_run {St A} (f : St -> A * St) s :
  draw f s = (Normal (fst (f s)), snd (f s)).
Proof. unfold draw. now destruct (f s). Qed.

Lemma draw_normal_inv {St A} (f : St -> A * St) s a s' :
  draw f s = (Normal a, s') -> a = fst (f s) /\ s' = snd (f s).
Proof. rewrite draw_run. intros E. now inv E. Qed.

Lemma defined_normal_inv {St A} (o : option A) (s : St) a s' :
  defined o s = (Normal a, s') -> o = Some a /\ s' = s.
Proof. destruct o; intros E; now inv E. Qed.

(** ** Lemmas on ranges and trip counts *)

Lemma length_zrange lo step n : length (zrange lo step n) = n.
Proof. revert lo. induction n; intros; simpl; [|rewrite IHn]; reflexivity. Qed.

Lemma zrange_snoc lo step n :
  zrange lo step (S n) = zrange lo step n ++ [lo + Z.of_nat n * step].
Proof.
  revert lo. induction n as [|n IH]; intros lo.
  - simpl. f_equal. lia.
  - change (zrange lo step (S (S n))) with (lo :: zrange (lo + step) step (S n)).
    rewrite IH. cbn [zrange app]. do 3 f_equal. lia.
Qed.

Lemma nth_error_zrange lo step n k :
  (k < n)%nat -> nth_error (zrange lo step n) k = Some (lo + Z.of_nat k * step).
Proof.
  revert lo k. induction n as [|n IH]; intros lo k Hk; [lia|].
  destruct k as [|k]; cbn [zrange nth_error].
  - f_equal. lia.
  - rewrite IH by lia. f_equal. lia.
Qed.

Lemma in_zrange lo step n i :
  In i (zrange lo step n) <-> exists k, (k < n)%nat /\ i = lo + Z.of_nat k * step.
Proof.
  revert lo. induction n as [|n IH]; intros lo; simpl.
  - split; [tauto | intros (k & Hk & _); lia].
  - rewrite IH. split.
    + intros [<- | (k & Hk & ->)]; [exists 0%nat | exists (S k)]; split; lia.
    + intros ([|k] & Hk & ->); [left; lia | right; exists k; split; lia].
Qed.

Lemma zrange_unit_map lo n :
  zrange lo 1 n = map (fun k => lo + Z.of_nat k) (seq 0 n).
Proof.
  revert lo. induction n as [|n IH]; intros lo; simpl; [reflexivity|].
  f_equal; [lia|]. rewrite IH, <- seq_shift, map_map.
  apply map_ext. intros; lia.
Qed.

Lemma trip_count_unit lo hi : trip_count lo hi 1 = Z.to_nat (hi - lo).
Proof. unfold trip_count. rewrite Z.div_1_r. f_equal. lia. Qed.

Lemma trip_count_done lo hi step : 0 < step -> hi <= lo -> trip_count lo hi step = 0%nat.
Proof.
  intros Hs Hle. unfold trip_count.
  assert ((hi - lo + step - 1) / step <= 0); [|lia].
  apply Z.lt_succ_r, Z.div_lt_upper_bound; lia.
Qed.

Lemma trip_count_step lo hi step :
  0 < step -> lo < hi -> trip_count lo hi step = S (trip_count (lo + step) hi step).
Proof.
  intros Hs Hlt. unfold trip_count.
  replace (hi - lo + step - 1) with ((hi - (lo + step) + step - 1) + 1 * step) by lia.
  rewrite Z.div_add by lia.
  assert (0 <= (hi - (lo + step) + step - 1) / step) by (apply Z.div_pos; lia).
  lia.
Qed.

Lemma trip_count_shift lo hi step : trip_count lo hi step = trip_count 0 (hi - lo) step.
Proof. unfold trip_count. now rewrite Z.sub_0_r. Qed.

Lemma zrange_shift lo step n d :
  zrange (lo + d) step n = map (fun i => i + d) (zrange lo step n).
Proof.
  revert lo. induction n as [|n IH]; intros lo; [reflexivity|].
  cbn [zrange map]. f_equal. rewrite <- IH. f_equal. lia.
Qed.

Lemma zrange_nonneg lo step n i : 0 <= lo -> 0 <= step -> In i (zrange lo step n) -> 0 <= i.
Proof. intros Hlo Hs (k & _ & ->)%in_zrange. nia. Qed.

(** ** Termination of the loops of the source *)

(** The guarded loop leaves through its guard as soon as the fuel covers
    the trip count, and then computes what the counted loop computes. *)
Theorem for_guarded_terminates {St} (body : Z -> St -> St) hi step fuel :
  0 < step ->
  forall lo st, (trip_count lo hi step <= fuel)%nat ->
  for_guarded fuel hi step body lo st = Some (for_lt lo hi step body st).
Proof.
  intros Hs. induction fuel as [|fuel IH]; intros lo st Hf;
    destruct (Z.ltb_spec lo hi) as [Hlt|Hge]; simpl;
    destruct (Z.ltb_spec lo hi); try lia; unfold for_lt.
  - rewrite trip_count_step in Hf by lia. lia.
  - now rewrite trip_count_done by lia.
  - rewrite IH by (rewrite trip_count_step in Hf by lia; lia).
    unfold for_lt. now rewrite (trip_count_step (lo:=lo)) by lia.
  - now rewrite trip_count_done by lia.
Qed.

(** Too little fuel is reported, never mistaken for a result. *)
Lemma for_guarded_out_of_fuel {St} (body : Z -> St -> St) hi step fuel :
  0 < step ->
  forall lo st, (fuel < trip_count lo hi step)%nat ->
  for_guarded fuel hi step body lo st = None.
Proof.
  intros Hs. induction fuel as [|fuel IH]; intros lo st Hf;
    destruct (Z.ltb_spec lo hi) as [Hlt|Hge]; simpl;
    destruct (Z.ltb_spec lo hi); try lia; try reflexivity.
  - rewrite trip_count_done in Hf by lia. lia.
  - apply IH. rewrite trip_count_step in Hf by lia. lia.
  - rewrite trip_count_done in Hf by lia. lia.
Qed.

Theorem foldM_guarded_terminates {St A} (body : Z -> A -> M St A) hi step fuel :
  0 < step ->
  forall lo a s, (trip_count lo hi step <= fuel)%nat ->
  foldM_guarded fuel hi step body lo a s =
  bind (foldM_lt lo hi step body a) (fun r => ret (Some r)) s.
Proof.
  intros Hs. induction fuel as [|fuel IH]; intros lo a s Hf;
    destruct (Z.ltb_spec lo hi) as [Hlt|Hge]; simpl;
    destruct (Z.ltb_spec lo hi); try lia; unfold foldM_lt.
  - rewrite trip_count_step in Hf by lia. lia.
  - now rewrite trip_count_done by lia.
  - rewrite (trip_count_step (lo:=lo)) by lia. cbn [zrange foldM].
    rewrite bind_assoc. apply bind_ext. intros a' s'.
    apply IH. rewrite trip_count_step in Hf by lia. lia.
  - now rewrite trip_count_done by lia.
Qed.

(** The counted loop unrolled at its head: the guard, the body, the
    increment. *)
Lemma foldM_lt_done {St A} (body : Z -> A -> M St A) lo hi step a :
  0 < step -> hi <= lo -> foldM_lt lo hi step body a = ret a.
Proof. intros Hs Hle. unfold foldM_lt. now rewrite trip_count_done. Qed.

Lemma foldM_lt_step {St A} (body : Z -> A -> M St A) lo hi step a :
  0 < step -> lo < hi ->
  foldM_lt lo hi step body a = bind (body lo a) (foldM_lt (lo + step) hi step body).
Proof. intros Hs Hlt. unfold foldM_lt. now rewrite trip_count_step. Qed.

(** ** The counted loops as folds *)

Lemma for_lt_unit {St} lo hi (body : Z -> St -> St) st :
  for_lt lo hi 1 body st =
  fold_left (fun st i => body i st) (zrange lo 1 (Z.to_nat (hi - lo))) st.
Proof. unfold for_lt. now rewrite trip_count_unit. Qed.

(** A loop that only pushes to an array builds the image of its range. *)
Lemma fold_left_push {A B} (f : A -> B) (l : list A) (acc : list B) :
  fold_left (fun acc i => acc ++ [f i]) l acc = acc ++ map f l.
Proof.
  revert acc. induction l as [|x l IH]; intros acc; simpl.
  - now rewrite app_nil_r.
  - rewrite IH, <- app_assoc. reflexivity.
Qed.

Lemma for_lt_push {B} lo hi step (f : Z -> B) (acc : list B) :
  for_lt lo hi step (fun i acc => acc ++ [f i]) acc =
  acc ++ map f (zrange lo step (trip_count lo hi step)).
Proof. apply fold_left_push. Qed.

(** ** Reasoning on effectful functions

    [returns c s Q]: run from the state [s], [c] returns normally, with a
    value and a final state that satisfy [Q] (total correctness). *)

Definition returns {St A} (c : M St A) (s : St) (Q : A -> St -> Prop) : Prop :=
  exists a s', c s = (Normal a, s') /\ Q a s'.

Lemma returns_ret {St A} (a : A) (s : St) (Q : A -> St -> Prop) :
  Q a s -> returns (ret a) s Q.
Proof. intros HQ. now exists a, s. Qed.

Lemma returns_bind {St A B} (c : M St A) (k : A -> M St B) s (Q : B -> St -> Prop) :
  returns c s (fun a s' => returns (k a) s' Q) -> returns (bind c k) s Q.
Proof.
  intros (a & s' & Ec & b & s'' & Ek & HQ). exists b, s''.
  split; [|assumption]. now erewrite bind_normal by eassumption.
Qed.

Lemma returns_draw {St A} (f : St -> A * St) s (Q : A -> St -> Prop) :
  Q (fst (f s)) (snd (f s)) -> returns (draw f) s Q.
Proof. intros HQ. eexists _, _. split; [apply draw_run | exact HQ]. Qed.

Lemma returns_defined {St A} (o : option A) a (s : St) (Q : A -> St -> Prop) :
  o = Some a -> Q a s -> returns (defined o) s Q.
Proof. intros -> HQ. now exists a, s. Qed.

Lemma returns_weaken {St A} (c : M St A) s (P Q : A -> St -> Prop) :
  returns c s P -> (forall a s', P a s' -> Q a s') -> returns c s Q.
Proof. intros (a & s' & E & HP) HPQ. exists a, s'. auto. Qed.

(** What holds of every normal return holds of the return. *)
Lemma returns_and {St A} (c : M St A) s (P Q : A -> St -> Prop) :
  returns c s P -> (forall a s', c s = (Normal a, s') -> Q a s') ->
  returns c s (fun a s' => P a s' /\ Q a s').
Proof. intros (a & s' & E & HP) HQ. exists a, s'. auto. Qed.

Lemma returns_inv {St A} (c : M St A) s (Q : A -> St -> Prop) a s' :
  returns c s Q -> c s = (Normal a, s') -> Q a s'.
Proof. intros (a0 & s0 & E & HQ) E'. rewrite E in E'. now inv E'. Qed.

(** The rule of the counted loop: an invariant indexed by the number of
    iterations done, which every iteration re-establishes. *)
Lemma returns_foldM {St A} (Inv : nat -> A -> St -> Prop) (body : Z -> A -> M St A)
    step n :
  forall lo a s,
  Inv 0%nat a s ->
  (forall k a s, (k < n)%nat -> Inv k a s ->
     returns (body (lo + Z.of_nat k * step) a) s (Inv (S k))) ->
  returns (foldM body (zrange lo step n) a) s (Inv n).
Proof.
  revert Inv. induction n as [|n IH]; intros Inv lo a s H0 Hstep.
  - now apply returns_ret.
  - cbn [zrange foldM]. apply returns_bind.
    eapply returns_weaken.
    + replace lo with (lo + Z.of_nat 0 * step) at 1 by lia. apply Hstep; [lia | exact H0].
    + intros a' s' H1. apply (IH (fun k => Inv (S k))); [exact H1|].
      intros k a2 s2 Hk Hinv.
      replace (lo + step + Z.of_nat k * step) with (lo + Z.of_nat (S k) * step) by lia.
      apply Hstep; [lia | exact Hinv].
Qed.

(** The same rule for what holds if the loop returns (partial
    correctness), which needs no proof that the body returns. *)
Lemma foldM_partial {St A} (Inv : nat -> A -> St -> Prop) (body : Z -> A -> M St A)
    step n :
  forall lo a s a' s',
  Inv 0%nat a s ->
  (forall k a s a' s', (k < n)%nat -> Inv k a s ->
     body (lo + Z.of_nat k * step) a s = (Normal a', s') -> Inv (S k) a' s') ->
  foldM body (zrange lo step n) a s = (Normal a', s') ->
  Inv n a' s'.
Proof.
  revert Inv. induction n as [|n IH]; intros Inv lo a s a' s' H0 Hstep E.
  - now inv E.
  - cbn [zrange foldM] in E. apply bind_normal_inv in E as (a1 & s1 & E1 & E2).
    apply (IH (fun k => Inv (S k)) (lo + step) a1 s1); [| |exact E2].
    + apply (Hstep 0%nat a s); [lia | exact H0 |].
      now replace (lo + Z.of_nat 0 * step) with lo by lia.
    + intros k a2 s2 a3 s3 Hk Hinv Eb. apply (Hstep (S k) a2 s2); [lia | exact Hinv |].
      now replace (lo + Z.of_nat (S k) * step) with (lo + step + Z.of_nat k * step) by lia.
Qed.

(** A loop whose first iteration throws, throws. *)
Lemma foldM_throws_first {St A} (body : Z -> A -> M St A) lo step n a s e s' :
  body lo a s = (Throw e, s') ->
  foldM body (zrange lo step (S n)) a s = (Throw e, s').
Proof. intros E. cbn [zrange foldM]. now apply bind_throw. Qed.

(** A sequence throws in its first part or, that returning, in its
    second. *)
Lemma bind_throw_inv {St A B} (c : M St A) (k : A -> M St B) s e s' :
  bind c k s = (Throw e, s') ->
  c s = (Throw e, s') \/ exists a s1, c s = (Normal a, s1) /\ k a s1 = (Throw e, s').
Proof.
  unfold bind. destruct (c s) as [[a|e0] s1]; intros E; [right; eauto | left; now inv E].
Qed.

(** ** Rules for [try] and for collaborators *)

Lemma try_catch_normal {St A} (c : M St A) handler s a s' :
  c s = (Normal a, s') -> try_catch c handler s = (Normal a, s').
Proof. intros E. unfold try_catch. now rewrite E. Qed.

Lemma try_catch_throw {St A} (c : M St A) handler s e s' :
  c s = (Throw e, s') -> is_exit e = false -> try_catch c handler s = handler e s'.
Proof. intros E He. unfold try_catch. now rewrite E, He. Qed.

(** A [try] returns when its body returns, and when its body throws an
    error that its handler turns into a return. *)
Lemma returns_try_catch {St A} (c : M St A) handler s (Q : A -> St -> Prop) :
  (forall a s', c s = (Normal a, s') -> Q a s') ->
  (forall e s', c s = (Throw e, s') -> is_exit e = false /\ returns (handler e) s' Q) ->
  returns (try_catch c handler) s Q.
Proof.
  intros Hn Ht. destruct (c s) as [[a|e] s'] eqn:E.
  - exists a, s'. split; [now apply try_catch_normal | now apply Hn].
  - destruct (Ht e s' eq_refl) as (He & b & s'' & Eh & HQ).
    exists b, s''. split; [|assumption]. unfold try_catch. now rewrite E, He.
Qed.

Lemma returns_try_body {St A} (c : M St A) handler s (Q : A -> St -> Prop) :
  returns c s Q -> returns (try_catch c handler) s Q.
Proof. intros (a & s' & E & HQ). exists a, s'. split; [now apply try_catch_normal | exact HQ]. Qed.

Lemma returns_try_finally {St A} (c : M St A) final s (Q : A -> St -> Prop) :
  returns c s (fun a s' => returns final s' (fun _ s'' => Q a s'')) ->
  returns (try_finally c final) s Q.
Proof.
  intros (a & s' & E & u & s'' & Ef & HQ). exists a, s''.
  split; [|assumption]. unfold try_finally. now rewrite E, Ef.
Qed.

Lemma returns_zoom {W St A} (get : W -> St) (set : St -> W -> W) (c : M St A) w
    (Q : A -> W -> Prop) :
  returns c (get w) (fun a s' => Q a (set s' w)) -> returns (zoom get set c) w Q.
Proof.
  intros (a & s' & E & HQ). exists a, (set s' w).
  split; [|assumption]. unfold zoom. now rewrite E.
Qed.

(** ** Errors that a handler can catch

    [catchable c]: whatever [c] throws is an error, never the end of the
    process, so that an enclosing [catch] intercepts it.  [total c]: [c]
    returns from every state. *)

Definition catchable {St A} (c : M St A) : Prop :=
  forall s e s', c s = (Throw e, s') -> is_exit e = false.

Definition total {St A} (c : M St A) : Prop :=
  forall s, returns c s (fun _ _ => True).

Lemma total_catchable {St A} (c : M St A) : total c -> catchable c.
Proof. intros Ht s e s' E. destruct (Ht s) as (a & s1 & E1 & _). congruence. Qed.

Lemma catchable_ret {St A} (a : A) : catchable (ret (St:=St) a).
Proof. intros s e s' E. discriminate. Qed.

Lemma catchable_draw {St A} (f : St -> A * St) : catchable (draw f).
Proof. intros s e s' E. rewrite draw_run in E. discriminate. Qed.

Lemma catchable_defined {St A} (o : option A) : catchable (defined (St:=St) o).
Proof. intros s e s' E. destruct o; inv E. reflexivity. Qed.

Lemma catchable_bind {St A B} (c : M St A) (k : A -> M St B) :
  catchable c -> (forall a, catchable (k a)) -> catchable (bind c k).
Proof.
  intros Hc Hk s e s' [E|(a & s1 & _ & E)]%bind_throw_inv; [apply (Hc _ _ _ E)|].
  apply (Hk _ _ _ _ E).
Qed.

Lemma catchable_foldM {St A} (body : Z -> A -> M St A) range :
  (forall i a, catchable (body i a)) -> forall a, catchable (foldM body range a).
Proof.
  intros Hb. induction range as [|i range IH]; intros a; cbn [foldM].
  - apply catchable_ret.
  - apply catchable_bind; [apply Hb | exact IH].
Qed.

Lemma catchable_zoom {W St A} (get : W -> St) (set : St -> W -> W) (c : M St A) :
  catchable c -> catchable (zoom get set c).
Proof.
  intros Hc w e w' E. unfold zoom in E.
  destruct (c (get w)) as [r s'] eqn:Ec. inv E. apply (Hc _ _ _ Ec).
Qed.

Lemma total_ret {St A} (a : A) : total (ret (St:=St) a).
Proof. intros s. now apply returns_ret. Qed.

Lemma total_bind {St A B} (c : M St A) (k : A -> M St B) :
  total c -> (forall a, total (k a)) -> total (bind c k).
Proof.
  intros Hc Hk s. apply returns_bind. eapply returns_weaken; [apply Hc|].
  intros a s' _. apply Hk.
Qed.

Lemma total_zoom {W St A} (get : W -> St) (set : St -> W -> W) (c : M St A) :
  total c -> total (zoom get set c).
Proof.
  intros Hc w. apply returns_zoom. eapply returns_weaken; [apply Hc | trivial].
Qed.

(** A [try] whose body throws only what its handler catches, and whose
    handler returns, returns. *)
Lemma total_try_catch {St A} (c : M St A) handler :
  catchable c -> (forall e, total (handler e)) -> total (try_catch c handler).
Proof.
  intros Hc Hh s. apply returns_try_catch; [trivial|].
  intros e s' E. split; [apply (Hc _ _ _ E) | apply Hh].
Qed.

(** ** Parts of the state that a function leaves alone

    [preserves f c]: however [c] completes, the part [f] of the state is
    as it was. *)

Definition preserves {St A X} (f : St -> X) (c : M St A) : Prop :=
  forall s r s', c s = (r, s') -> f s' = f s.

Lemma preserves_ret {St A X} (f : St -> X) (a : A) : preserves f (ret a).
Proof. intros s r s' Ec. now inv Ec. Qed.

Lemma preserves_draw {St A X} (f : St -> X) (g : St -> A * St) :
  (forall s, f (snd (g s)) = f s) -> preserves f (draw g).
Proof. intros Hg s r s' Ec. rewrite draw_run in Ec. inv Ec. apply Hg. Qed.

Lemma preserves_bind {St A B X} (f : St -> X) (c : M St A) (k : A -> M St B) :
  preserves f c -> (forall a, preserves f (k a)) -> preserves f (bind c k).
Proof.
  intros Hc Hk s r s' Ec. unfold bind in Ec. destruct (c s) as [[a|e] s1] eqn:E1.
  - rewrite (Hk _ _ _ _ Ec). apply (Hc _ _ _ E1).
  - inv Ec. apply (Hc _ _ _ E1).
Qed.

Lemma preserves_zoom {W St A X} (f : W -> X) (get : W -> St) (set : St -> W -> W)
    (c : M St A) :
  (forall s w, f (set s w) = f w) -> preserves f (zoom get set c).
Proof.
  intros Hset w r w' Ec. unfold zoom in Ec. destruct (c (get w)) as [r1 s1].
  inv Ec. apply Hset.
Qed.

(** A part of the collaborator's state that the collaborator's function
    leaves alone is left alone in the state of the program. *)
Lemma preserves_zoom_in {W St A X} (f : St -> X) (get : W -> St) (set : St -> W -> W)
    (c : M St A) :
  (forall s w, get (set s w) = s) -> preserves f c ->
  preserves (fun w => f (get w)) (zoom get set c).
Proof.
  intros Hget Hc w r w' Ec. unfold zoom in Ec. destruct (c (get w)) as [r1 s1] eqn:E1.
  inv Ec. rewrite Hget. apply (Hc _ _ _ E1).
Qed.

Lemma preserves_throw {St A X} (f : St -> X) e : preserves f (throw (A:=A) e).
Proof. intros s r s' Ec. now inv Ec. Qed.

Lemma preserves_foldM {St A X} (f : St -> X) (body : Z -> A -> M St A) range :
  (forall i a, preserves f (body i a)) -> forall a, preserves f (foldM body range a).
Proof.
  intros Hb. induction range as [|i range IH]; intros a; cbn [foldM].
  - apply preserves_ret.
  - apply preserves_bind; [apply Hb | exact IH].
Qed.

Lemma preserves_try_catch {St A X} (f : St -> X) (c : M St A) handler :
  preserves f c -> (forall e, preserves f (handler e)) -> preserves f (try_catch c handler).
Proof.
  intros Hc Hh s r s' Ec. unfold try_catch in Ec. destruct (c s) as [[a|e] s1] eqn:E1.
  - inv Ec. apply (Hc _ _ _ E1).
  - rewrite <- (Hc _ _ _ E1). destruct (is_exit e); [now inv Ec | apply (Hh _ _ _ _ Ec)].
Qed.

Lemma preserves_try_finally {St A X} (f : St -> X) (c : M St A) final :
  preserves f c -> preserves f final -> preserves f (try_finally c final).
Proof.
  intros Hc Hf s r s' Ec. unfold try_finally in Ec.
  destruct (c s) as [r1 s1] eqn:E1. rewrite <- (Hc _ _ _ E1).
  assert (forall r2, match final s1 with
                     | (Normal _, s2) => (r2, s2)
                     | (Throw e, s2) => (Throw e, s2)
                     end = (r, s') -> f s' = f s1) as Hrun.
  { intros r2 E2. destruct (final s1) as [[u|e] s2] eqn:Ef; inv E2; apply (Hf _ _ _ Ef). }
  destruct r1 as [a|[| |code]]; try apply (Hrun _ Ec). now inv Ec.
Qed.

(** ** Lists *)

Lemma nth_error_map_some {A B} (f : A -> B) l k a :
  nth_error l k = Some a -> nth_error (map f l) k = Some (f a).
Proof. intros E. now rewrite nth_error_map, E. Qed.

(** Two images of one list are related element by element when the two
    functions are related on its elements. *)
Lemma Forall2_map_same {A B C} (P : B -> C -> Prop) (f : A -> B) (g : A -> C) l :
  (forall x, In x l -> P (f x) (g x)) -> Forall2 P (map f l) (map g l).
Proof.
  induction l as [|x l IH]; intros Hl; simpl; constructor.
  - apply Hl. now left.
  - apply IH. intros y Hy. apply Hl. now right.
Qed.

Lemma last_snoc {A} (l : list A) (x d : A) : last (l ++ [x]) d = x.
Proof. apply last_last. Qed.

(** An element of an array after a push is an old element or the new one. *)
Lemma nth_error_snoc {A} (l : list A) (x y : A) j :
  nth_error (l ++ [x]) j = Some y ->
  ((j < length l)%nat /\ nth_error l j = Some y) \/ (j = length l /\ y = x).
Proof.
  intros E. destruct (Nat.lt_ge_cases j (length l)) as [Hj|Hj].
  - left. now rewrite nth_error_app1 in E.
  - right. rewrite nth_error_app2 in E by assumption.
    destruct (j - length l)%nat as [|m] eqn:Ej; [|destruct m; discriminate].
    inv E. split; [lia | reflexivity].
Qed.

(** Pushing a key that no element has keeps the keys distinct. *)
Lemma NoDup_map_snoc {A B} (f : A -> B) (l : list A) (x : A) :
  NoDup (map f l) -> (forall y, In y l -> f y <> f x) -> NoDup (map f (l ++ [x])).
Proof.
  intros Hl Hx. rewrite map_app. apply NoDup_app; [assumption | repeat constructor; easy|].
  intros b (y & <- & Hy)%in_map_iff [Eq|[]]. now apply (Hx y).
Qed.

Lemma nth_error_snoc_last {A} (l : list A) (x : A) :
  nth_error (l ++ [x]) (length l) = Some x.
Proof. now rewrite nth_error_app2, Nat.sub_diag by lia. Qed.

Lemma nth_error_snoc_old {A} (l : list A) (x : A) j :
  (j < length l)%nat -> nth_error (l ++ [x]) j = nth_error l j.
Proof. intros Hj. now rewrite nth_error_app1. Qed.

#[export] Hint Rewrite length_zrange @length_map @length_app @length_seq : js_rw.
#[export] Hint Rewrite trip_count_unit : js_rw.
