(* ===== verification/Mongo.v ===== *)
(** * Mongo: the handles of the MongoDB driver

    The program holds three objects of the driver: the client made by
    [new MongoClient(uri, options)] (mongoConnection.js line 6), the
    database handle of [client.db(name)] and the collection handle of
    [db.collection(name)] (dataGenerator.js lines 86-87).  The handles are
    values: a database handle is its client and its name, a collection
    handle its database and its name, and neither call talks to the
    server.  The connection string of the client is a secret of the
    deployment and is not part of the model: a client is told apart by its
    options.

    What a client does when it connects and closes is in Main.v, what a
    collection does when documents are inserted is in Batch.v. *)

From Stdlib Require Import String ZArith Bool.

Local Open Scope Z_scope.

(** The options that mongoConnection.js passes (lines 7-9). *)
Record ClientOptions : Type := {
  tlsAllowInvalidCertificates : bool;
  tlsAllowInvalidHostnames : bool;
  serverSelectionTimeoutMS : Z
}.

Record MongoClient : Type := {
  options : ClientOptions
}.

Record Db : Type := {
  db_client : MongoClient;
  databaseName : string
}.

Record Collection : Type := {
  collection_db : Db;
  collectionName : string
}.

(** [new MongoClient(uri, options)] *)
Definition new_MongoClient (opts : ClientOptions) : MongoClient :=
  {| options := opts |}.

(** [client.db(dbName)] *)
Definition client_db (client : MongoClient) (dbName : string) : Db :=
  {| db_client := client; databaseName := dbName |}.

(** [db.collection(name)] *)
Definition db_collection (db : Db) (name : string) : Collection :=
  {| collection_db := db; collectionName := name |}.

(** ** Equality of handles is decidable *)

Lemma ClientOptions_eq_dec (x y : ClientOptions) : {x = y} + {x <> y}.
Proof. decide equality; auto using bool_dec, Z.eq_dec. Defined.

Lemma MongoClient_eq_dec (x y : MongoClient) : {x = y} + {x <> y}.
Proof. decide equality; auto using ClientOptions_eq_dec. Defined.

Lemma Db_eq_dec (x y : Db) : {x = y} + {x <> y}.
Proof. decide equality; auto using string_dec, MongoClient_eq_dec. Defined.

Lemma Collection_eq_dec (x y : Collection) : {x = y} + {x <> y}.
Proof. decide equality; auto using string_dec, Db_eq_dec. Defined.

(** Whether two handles name the same collection. *)
Definition same_collection (x y : Collection) : bool :=
  if Collection_eq_dec x y then true else false.

Lemma same_collection_refl x : same_collection x x = true.
Proof. unfold same_collection. now destruct (Collection_eq_dec x x). Qed.

Lemma same_collection_neq x y : x <> y -> same_collection x y = false.
Proof. intros H. unfold same_collection. now destruct (Collection_eq_dec x y). Qed.

(** Two collections of a database are the same when their names are. *)
Lemma db_collection_inj db name name' :
  db_collection db name = db_collection db name' -> name = name'.
Proof. now intros [= ->]. Qed.
