(* ===== verification/JSNumber.v ===== *)
(** * JSNumber: the arithmetic of JavaScript numbers used by the generator

    The program computes on numbers with [+], [-], [*], [/], [%],
    [Math.floor], and indexes an array by a number.  [JSNum] is the
    interface of these operations; the generator is written once against
    it.  [ExactNum] adds the laws of a model in which the finite numbers
    are the rationals and arithmetic on them is exact; division and
    remainder are specified for a non-zero divisor only, so that the laws
    say nothing of [Infinity] and [NaN] and every theorem proved from them
    holds whatever a model does there.  [Q] is such a model.  The relation
    [exactly x q] ("the number [x] is the rational [q]") turns the laws
    into compositional rules, applied by the tactic [exact_num]. *)

From Stdlib Require Import List ZArith QArith Qround Lqa Lia Morphisms Setoid.
From S2P Require Import Prelude.

(** ** The operations *)

Class JSNum (num : Type) : Type := {
  (** the equality of the model (coarser than [=] when a number has several
      representations) *)
  num_eq : num -> num -> Prop;
  (** an integer literal, a loop counter or an array length as a number *)
  of_int : Z -> num;
  nadd : num -> num -> num;
  nsub : num -> num -> num;
  nmul : num -> num -> num;
  ndiv : num -> num -> num;
  (** [x % y]: the remainder of the division truncated toward zero *)
  nrem : num -> num -> num;
  (** [Math.floor] *)
  nfloor : num -> num;
  (** the position [a[x]] reads in an array: [x] when it is a non-negative
      integer, none otherwise (the access then yields [undefined]) *)
  to_index : num -> option nat
}.

Declare Scope num_scope.
Delimit Scope num_scope with num.
Infix "+" := nadd : num_scope.
Infix "-" := nsub : num_scope.
Infix "*" := nmul : num_scope.
Infix "/" := ndiv : num_scope.
Infix "%%" := nrem (at level 40, left associativity) : num_scope.
Infix "==" := num_eq (at level 70, no associativity) : num_scope.

(** [a[x]] for an array [a] and a number [x]. *)
Definition array_get {num} `{JSNum num} {A} (a : list A) (x : num) : option A :=
  match to_index x with
  | Some k => nth_error a k
  | None => None
  end.

(** The length of an array, as a number. *)
Definition array_length {num} `{JSNum num} {A} (a : list A) : num :=
  of_int (Z.of_nat (length a)).

(** A decimal literal [m / 10^e], as the nearest number of the model. *)
Definition decimal {num} `{JSNum num} (m : Z) (e : nat) : num :=
  ndiv (of_int m) (of_int (10 ^ Z.of_nat e)).

(** ** Rational remainder

    [x % y] keeps the sign of the dividend: [x - y * trunc (x / y)]. *)

Definition Qtrunc (x : Q) : Z :=
  if Qle_bool 0 x then Qfloor x else Qceiling x.

Definition Qrem (x y : Q) : Q := x - y * inject_Z (Qtrunc (x / y)).

(** ** Exact models *)

Class ExactNum (num : Type) {N : JSNum num} : Type := {
  (** the finite number with a rational value *)
  of_Q : Q -> num;
  num_eq_equiv :: Equivalence num_eq;
  of_Q_proper :: Proper (Qeq ==> num_eq) of_Q;
  of_Q_inj : forall p q, num_eq (of_Q p) (of_Q q) -> p == q;
  nadd_proper :: Proper (num_eq ==> num_eq ==> num_eq) nadd;
  nsub_proper :: Proper (num_eq ==> num_eq ==> num_eq) nsub;
  nmul_proper :: Proper (num_eq ==> num_eq ==> num_eq) nmul;
  ndiv_proper :: Proper (num_eq ==> num_eq ==> num_eq) ndiv;
  nrem_proper :: Proper (num_eq ==> num_eq ==> num_eq) nrem;
  nfloor_proper :: Proper (num_eq ==> num_eq) nfloor;
  to_index_proper :: Proper (num_eq ==> eq) to_index;
  of_int_exact : forall z, num_eq (of_int z) (of_Q (inject_Z z));
  nadd_exact : forall p q, num_eq (nadd (of_Q p) (of_Q q)) (of_Q (p + q));
  nsub_exact : forall p q, num_eq (nsub (of_Q p) (of_Q q)) (of_Q (p - q));
  nmul_exact : forall p q, num_eq (nmul (of_Q p) (of_Q q)) (of_Q (p * q));
  ndiv_exact : forall p q, ~ q == 0 ->
    num_eq (ndiv (of_Q p) (of_Q q)) (of_Q (p / q));
  nrem_exact : forall p q, ~ q == 0 ->
    num_eq (nrem (of_Q p) (of_Q q)) (of_Q (Qrem p q));
  nfloor_exact : forall p,
    num_eq (nfloor (of_Q p)) (of_Q (inject_Z (Qfloor p)));
  to_index_exact : forall z, (0 <= z)%Z ->
    to_index (of_Q (inject_Z z)) = Some (Z.to_nat z)
}.

Set Implicit Arguments.

(** ** The rationals as a model *)

Definition Q_to_index (x : Q) : option nat :=
  if Qeq_bool x (inject_Z (Qfloor x)) && (0 <=? Qfloor x)%Z
  then Some (Z.to_nat (Qfloor x))
  else None.

#[export] Instance Q_JSNum : JSNum Q := {
  num_eq := Qeq;
  of_int := inject_Z;
  nadd := Qplus;
  nsub := Qminus;
  nmul := Qmult;
  ndiv := Qdiv;
  nrem := Qrem;
  nfloor := fun x => inject_Z (Qfloor x);
  to_index := Q_to_index
}.

(** ** Facts on rationals *)

#[export] Instance Qtrunc_proper : Proper (Qeq ==> eq) Qtrunc.
Proof.
  intros x y E. unfold Qtrunc.
  now rewrite (Qleb_comp 0 0 (Qeq_refl 0) x y E), (Qfloor_comp _ _ E), (Qceiling_comp _ _ E).
Qed.

#[export] Instance Qrem_proper : Proper (Qeq ==> Qeq ==> Qeq) Qrem.
Proof.
  intros x x' Ex y y' Ey. unfold Qrem, Qminus.
  apply Qplus_comp; [assumption|]. apply Qopp_comp, Qmult_comp; [assumption|].
  now rewrite (Qtrunc_proper (Qdiv_comp _ _ Ex _ _ Ey)).
Qed.

#[export] Instance Q_to_index_proper : Proper (Qeq ==> eq) Q_to_index.
Proof.
  intros x y E. unfold Q_to_index.
  rewrite (Qfloor_comp _ _ E).
  now rewrite (Qeqb_comp x y E _ _ (Qeq_refl (inject_Z (Qfloor y)))).
Qed.

Lemma Qtrunc_nonneg x : 0 <= x -> Qtrunc x = Qfloor x.
Proof. intros H. unfold Qtrunc. now rewrite (proj2 (Qle_bool_iff 0 x) H). Qed.

Lemma inject_Z_nonzero z : z <> 0%Z -> ~ inject_Z z == 0.
Proof. intros Hz E. apply Hz. now apply (inject_Z_injective z 0). Qed.

Lemma inject_Z_pos z : (0 < z)%Z -> 0 < inject_Z z.
Proof. intros H. now rewrite (Zlt_Qlt 0 z) in H. Qed.

Lemma inject_Z_nonneg z : (0 <= z)%Z -> 0 <= inject_Z z.
Proof. intros H. now rewrite (Zle_Qle 0 z) in H. Qed.

Lemma Qfloor_div_Z a b : Qfloor (inject_Z a / inject_Z b) = (a / b)%Z.
Proof. symmetry. apply Zdiv_Qdiv. Qed.

Lemma Qdiv_pos a b : 0 < a -> 0 < b -> 0 < a / b.
Proof. intros Ha Hb. apply Qlt_shift_div_l; [assumption | lra]. Qed.

Lemma Qdiv_nonneg a b : 0 <= a -> 0 < b -> 0 <= a / b.
Proof. intros Ha Hb. apply Qle_shift_div_l; [assumption | lra]. Qed.

(** The fraction of a quotient of integers, as the remainder of the
    integer division. *)
Lemma Qfrac_div_Z a b : (0 < b)%Z ->
  inject_Z a / inject_Z b - inject_Z (a / b) == inject_Z (a mod b) / inject_Z b.
Proof.
  intros Hb. rewrite (Z.mod_eq a b) by lia.
  unfold Z.sub. rewrite inject_Z_plus, inject_Z_opp, inject_Z_mult.
  field. apply inject_Z_nonzero. lia.
Qed.

(** ** The instance *)

Lemma Q_floor_proper : Proper (Qeq ==> Qeq) (fun x => inject_Z (Qfloor x)).
Proof. intros x y E. now rewrite (Qfloor_comp _ _ E). Qed.

Lemma Q_to_index_exact z : (0 <= z)%Z -> Q_to_index (inject_Z z) = Some (Z.to_nat z).
Proof.
  intros Hz. unfold Q_to_index.
  now rewrite Qfloor_Z, Qeq_bool_refl, (proj2 (Z.leb_le 0 z) Hz).
Qed.

#[export] Instance Q_ExactNum : ExactNum Q := {
  of_Q := fun q => q;
  num_eq_equiv := Q_Setoid;
  of_Q_proper := fun p q E => E;
  of_Q_inj := fun p q E => E;
  nadd_proper := Qplus_comp;
  nsub_proper := Qminus_comp;
  nmul_proper := Qmult_comp;
  ndiv_proper := Qdiv_comp;
  nrem_proper := Qrem_proper;
  nfloor_proper := Q_floor_proper;
  to_index_proper := Q_to_index_proper;
  of_int_exact := fun z => Qeq_refl _;
  nadd_exact := fun p q => Qeq_refl _;
  nsub_exact := fun p q => Qeq_refl _;
  nmul_exact := fun p q => Qeq_refl _;
  ndiv_exact := fun p q _ => Qeq_refl _;
  nrem_exact := fun p q _ => Qeq_refl _;
  nfloor_exact := fun p => Qeq_refl _;
  to_index_exact := Q_to_index_exact
}.

(** ** Numbers with a rational value *)

Section Exactly.
Context {num : Type} `{ExactNum num}.

(** [exactly x q]: the number [x] is the finite number of value [q]. *)
Definition exactly (x : num) (q : Q) : Prop := num_eq x (of_Q q).

#[export] Instance exactly_proper : Proper (num_eq ==> Qeq ==> iff) exactly.
Proof. intros x y E p q F. unfold exactly. now rewrite E, F. Qed.

Lemma exactly_of_Q q : exactly (of_Q q) q.
Proof. unfold exactly. reflexivity. Qed.

Lemma exactly_of_int z : exactly (of_int z) (inject_Z z).
Proof. apply of_int_exact. Qed.

Lemma exactly_eq x p q : exactly x p -> p == q -> exactly x q.
Proof. intros Hx E. now rewrite <- E. Qed.

Lemma exactly_inj x p q : exactly x p -> exactly x q -> p == q.
Proof. unfold exactly. intros Hp Hq. apply of_Q_inj. now rewrite <- Hp, <- Hq. Qed.

Lemma exactly_same x y q : exactly x q -> exactly y q -> num_eq x y.
Proof. unfold exactly. intros Hx Hy. now rewrite Hx, Hy. Qed.

Lemma exactly_add x y p q : exactly x p -> exactly y q -> exactly (nadd x y) (p + q).
Proof. unfold exactly. intros -> ->. apply nadd_exact. Qed.

Lemma exactly_sub x y p q : exactly x p -> exactly y q -> exactly (nsub x y) (p - q).
Proof. unfold exactly. intros -> ->. apply nsub_exact. Qed.

Lemma exactly_mul x y p q : exactly x p -> exactly y q -> exactly (nmul x y) (p * q).
Proof. unfold exactly. intros -> ->. apply nmul_exact. Qed.

Lemma exactly_div x y p q :
  exactly x p -> exactly y q -> ~ q == 0 -> exactly (ndiv x y) (p / q).
Proof. unfold exactly. intros -> -> Hq. now apply ndiv_exact. Qed.

Lemma exactly_rem x y p q :
  exactly x p -> exactly y q -> ~ q == 0 -> exactly (nrem x y) (Qrem p q).
Proof. unfold exactly. intros -> -> Hq. now apply nrem_exact. Qed.

Lemma exactly_floor x p : exactly x p -> exactly (nfloor x) (inject_Z (Qfloor p)).
Proof. unfold exactly. intros ->. apply nfloor_exact. Qed.

Lemma exactly_to_index x z :
  exactly x (inject_Z z) -> (0 <= z)%Z -> to_index x = Some (Z.to_nat z).
Proof. unfold exactly. intros -> Hz. now apply to_index_exact. Qed.

Lemma exactly_array_get {A} (a : list A) x z :
  exactly x (inject_Z z) -> (0 <= z)%Z ->
  array_get a x = nth_error a (Z.to_nat z).
Proof. intros Hx Hz. unfold array_get. now erewrite exactly_to_index by eassumption. Qed.

Lemma exactly_array_length {A} (a : list A) :
  exactly (array_length a) (inject_Z (Z.of_nat (length a))).
Proof. apply exactly_of_int. Qed.

Lemma exactly_decimal m e :
  exactly (decimal m e) (inject_Z m / inject_Z (10 ^ Z.of_nat e)).
Proof.
  apply exactly_div; try apply exactly_of_int.
  apply inject_Z_nonzero, Z.pow_nonzero; lia.
Qed.

End Exactly.

#[export] Hint Resolve exactly_of_Q exactly_of_int exactly_add exactly_sub
  exactly_mul exactly_floor exactly_array_length exactly_decimal : js.

(** [exact_num] finds the rational value of an arithmetic expression whose
    leaves have known values; divisors are left as side conditions. *)
Ltac exact_num :=
  repeat first
    [ eassumption
    | apply exactly_of_int
    | apply exactly_of_Q
    | apply exactly_array_length
    | apply exactly_decimal
    | apply exactly_add
    | apply exactly_sub
    | apply exactly_mul
    | apply exactly_floor
    | apply exactly_div
    | apply exactly_rem ].

(** ** The remainder and the index the generator computes, in rationals *)

(** [Math.floor (i / (n / k))] is the integer quotient [i * k / n]. *)
Lemma Qfloor_bucket (i n k : Z) : (0 < n)%Z -> (0 < k)%Z ->
  Qfloor (inject_Z i / (inject_Z n / inject_Z k)) = (i * k / n)%Z.
Proof.
  intros Hn Hk. rewrite <- Qfloor_div_Z, inject_Z_mult.
  apply Qfloor_comp. field.
  split; apply inject_Z_nonzero; lia.
Qed.

(** [(i % (n / k)) / (n / k)] is the fraction of [i * k / n]. *)
Lemma Qrem_bucket (i n k : Z) : (0 <= i)%Z -> (0 < n)%Z -> (0 < k)%Z ->
  Qrem (inject_Z i) (inject_Z n / inject_Z k) / (inject_Z n / inject_Z k)
  == inject_Z ((i * k) mod n) / inject_Z n.
Proof.
  intros Hi Hn Hk.
  pose proof (inject_Z_pos Hn) as Hn'. pose proof (inject_Z_pos Hk) as Hk'.
  pose proof (inject_Z_nonneg Hi) as Hi'.
  unfold Qrem.
  rewrite Qtrunc_nonneg by (apply Qdiv_nonneg; [assumption | now apply Qdiv_pos]).
  rewrite Qfloor_bucket by lia.
  rewrite <- Qfrac_div_Z by lia. rewrite inject_Z_mult.
  field. split; lra.
Qed.
