(* ===== verification/Float64.v ===== *)
(** * Float64: JavaScript numbers as IEEE 754 binary64

    The instance of [JSNum] on Rocq's primitive floats, which are the
    binary64 numbers of the machine.  Addition, subtraction,
    multiplication and division are the primitive operations (round to
    nearest, ties to even, as ECMA-262 prescribes).  [Math.floor], [%] and
    the conversion of a number to an array index have no primitive; they
    are computed here from the primitive ones and from the decomposition
    of a float into sign, mantissa and exponent ([Prim2SF]).

    With this instance the definitions of [Route] and [Telemetry] evaluate
    on the numbers Node.js would compute.  The laws of [ExactNum] do not
    hold of it (sums and quotients are rounded); what is stated here is
    stated of concrete inputs, by evaluation, or follows from the
    specification of the primitive operations ([FloatAxioms]). *)

From Stdlib Require Import List ZArith Bool Lia.
From Stdlib Require Import PrimFloat FloatOps FloatAxioms SpecFloat Uint63.
From S2P Require Import Prelude JSNumber.
Import ListNotations.
Local Open Scope bool_scope.

(** ** Operations *)

(** An integer below 2^63 in magnitude, as the nearest float. *)
Definition f64_of_int (z : Z) : float :=
  match z with
  | Z0 => zero
  | Zpos _ => of_uint63 (Uint63.of_Z z)
  | Zneg p => PrimFloat.opp (of_uint63 (Uint63.of_Z (Zpos p)))
  end.

(** 2^52: from there on every float is an integer. *)
Definition two52 : float := Eval cbv in f64_of_int (2 ^ 52).

(** [Math.floor]: below 2^52, adding and subtracting 2^52 rounds to the
    nearest integer, which is the floor or one above it. *)
Definition f64_floor (x : float) : float :=
  if PrimFloat.ltb (abs x) two52 then
    if PrimFloat.eqb x zero then x
    else
      let r := if PrimFloat.leb zero x
               then PrimFloat.sub (PrimFloat.add x two52) two52
               else PrimFloat.add (PrimFloat.sub x two52) two52 in
      if PrimFloat.ltb x r then PrimFloat.sub r one else r
  else x.

(** [x % y]: exact, computed on mantissas scaled to a common exponent. *)
Definition f64_rem (x y : float) : float :=
  match Prim2SF x, Prim2SF y with
  | S754_nan, _ | _, S754_nan => nan
  | S754_infinity _, _ => nan
  | _, S754_zero _ => nan
  | S754_zero _, _ => x
  | S754_finite _ _ _, S754_infinity _ => x
  | S754_finite sx mx ex, S754_finite _ my ey =>
      let e := Z.min ex ey in
      let r := ((Zpos mx * 2 ^ (ex - e)) mod (Zpos my * 2 ^ (ey - e)))%Z in
      match r with
      | Zpos p => SF2Prim (S754_finite sx p e)
      | _ => if sx then neg_zero else zero
      end
  end.

(** The largest array index, 2^32 - 2. *)
Definition max_index : Z := 4294967294.

(** The array index a number denotes: a non-negative integer up to
    [max_index]; [-0] denotes index 0. *)
Definition f64_to_index (x : float) : option nat :=
  match Prim2SF x with
  | S754_zero _ => Some 0%nat
  | S754_finite false m e =>
      if (0 <=? e)%Z then
        if (e <=? 32)%Z && (Zpos m * 2 ^ e <=? max_index)%Z
        then Some (Z.to_nat (Zpos m * 2 ^ e)) else None
      else
        if ((Zpos m) mod 2 ^ (- e) =? 0)%Z && (Zpos m / 2 ^ (- e) <=? max_index)%Z
        then Some (Z.to_nat (Zpos m / 2 ^ (- e))) else None
  | _ => None
  end.

(** A number that is neither [NaN] nor an infinity. *)
Definition f64_finite (x : float) : bool :=
  match Prim2SF x with
  | S754_zero _ | S754_finite _ _ _ => true
  | _ => false
  end.

(** A finite number other than the two zeros. *)
Definition f64_nonzero (x : float) : bool :=
  match Prim2SF x with
  | S754_finite _ _ _ => true
  | _ => false
  end.

#[export] Instance f64_JSNum : JSNum float := {
  num_eq := @eq float;
  of_int := f64_of_int;
  nadd := PrimFloat.add;
  nsub := PrimFloat.sub;
  nmul := PrimFloat.mul;
  ndiv := PrimFloat.div;
  nrem := f64_rem;
  nfloor := f64_floor;
  to_index := f64_to_index
}.

(** ** The operations on sample values *)

Local Open Scope float_scope.

Example f64_floor_samples :
  map f64_floor [2.5; 2.75; -0.5; -2.25; 0.25; 3; -3; 129599.5; 4503599627370497]
  = [2; 2; -1; -3; 0; 3; -3; 129599; 4503599627370497].
Proof. vm_compute. reflexivity. Qed.

Example f64_floor_special :
  map (fun x => Prim2SF (f64_floor x)) [nan; infinity; neg_infinity; neg_zero]
  = [S754_nan; S754_infinity false; S754_infinity true; S754_zero true].
Proof. vm_compute. reflexivity. Qed.

Example f64_rem_samples :
  map (fun p => f64_rem (fst p) (snd p))
    [(5.5, 2); (-5.5, 2); (5.5, -2); (1, 0.25); (3, 1.5); (0.5, 3); (7, infinity)]
  = [1.5; -1.5; 1.5; 0; 0; 0.5; 7].
Proof. vm_compute. reflexivity. Qed.

Example f64_rem_special :
  map (fun p => Prim2SF (f64_rem (fst p) (snd p)))
    [(1, 0); (infinity, 2); (nan, 2); (2, nan)]
  = [S754_nan; S754_nan; S754_nan; S754_nan].
Proof. vm_compute. reflexivity. Qed.

Example f64_to_index_samples :
  map f64_to_index [0; neg_zero; 1; 14; 1.5; -1; 4294967295; 1e22; nan; infinity]
  = [Some 0; Some 0; Some 1; Some 14; None; None; None; None; None; None]%nat.
Proof. vm_compute. reflexivity. Qed.

(** Integers up to 2^53 are floats: the loop counters of the program are
    represented exactly. *)
Example f64_of_int_exact_samples :
  map f64_of_int [0; 1; 129600; 9007199254740992; -396]%Z
  = [0; 1; 129600; 9007199254740992; -396].
Proof. vm_compute. reflexivity. Qed.

(** ** Facts used by the evaluations on production parameters *)

Lemma f64_of_int_nonneg z :
  (0 <= z)%Z -> f64_of_int z = of_uint63 (Uint63.of_Z z).
Proof. destruct z; [reflexivity | reflexivity | lia]. Qed.

(** Numbers that compare equal ([==] of JavaScript) denote the same array
    index: the two zeros both denote index 0. *)
Lemma f64_eqb_to_index x y :
  PrimFloat.eqb x y = true -> f64_to_index x = f64_to_index y.
Proof.
  rewrite FloatAxioms.eqb_spec. unfold f64_to_index, SFeqb. intros Hc.
  destruct (Prim2SF x) as [sx|sx| |sx mx ex], (Prim2SF y) as [sy|sy| |sy my ey];
    cbn [SFcompare] in Hc;
    repeat match type of Hc with
           | context [if ?s then _ else _] => is_var s; destruct s; cbn iota in Hc
           end;
    try discriminate; try reflexivity.
  destruct (Z.compare_spec ex ey) as [->| |]; try discriminate.
  destruct (Pos.compare_cont Eq mx my) eqn:Em; try discriminate.
  apply Pos.compare_eq in Em. now subst.
Qed.

(** The index denoted by a small integer. *)
Lemma f64_to_index_small z :
  (0 <= z < 16)%Z -> f64_to_index (f64_of_int z) = Some (Z.to_nat z).
Proof.
  intros Hz. destruct z as [|p|p]; [reflexivity| |lia].
  destruct p as [[[[p|p|]|[p|p|]|]|[[p|p|]|[p|p|]|]|]|[[[p|p|]|[p|p|]|]|[[p|p|]|[p|p|]|]|]|];
    try lia; reflexivity.
Qed.

(** ** Sums and products with zero *)

(** A finite number times a zero is a zero. *)
Lemma f64_mul_zero x z s :
  f64_finite x = true -> Prim2SF z = S754_zero s ->
  exists s', Prim2SF (PrimFloat.mul x z) = S754_zero s'.
Proof.
  unfold f64_finite. intros Hx Hz. rewrite FloatAxioms.mul_spec, Hz.
  destruct (Prim2SF x); try discriminate; eexists; reflexivity.
Qed.

(** Zero over a finite number other than zero is a zero. *)
Lemma f64_zero_div d :
  f64_nonzero d = true -> exists s, Prim2SF (PrimFloat.div zero d) = S754_zero s.
Proof.
  unfold f64_nonzero. intros Hd. rewrite FloatAxioms.div_spec.
  change (Prim2SF zero) with (S754_zero false).
  destruct (Prim2SF d); try discriminate; eexists; reflexivity.
Qed.

(** The remainder of zero by a finite number other than zero is zero. *)
Lemma f64_zero_rem d : f64_nonzero d = true -> f64_rem zero d = zero.
Proof.
  unfold f64_nonzero, f64_rem. change (Prim2SF zero) with (S754_zero false).
  now destruct (Prim2SF d).
Qed.

(** Adding a zero of either sign to a finite number other than zero
    leaves the number as it is, bit for bit. *)
Lemma f64_add_zero x z s :
  f64_nonzero x = true -> Prim2SF z = S754_zero s -> PrimFloat.add x z = x.
Proof.
  unfold f64_nonzero. intros Hx Hz. apply Prim2SF_inj.
  rewrite FloatAxioms.add_spec, Hz. now destruct (Prim2SF x).
Qed.

(** A number between a positive number and a finite one is finite and not
    zero. *)
Lemma f64_between_nonzero lo hi x :
  PrimFloat.ltb zero lo = true -> PrimFloat.leb lo x = true ->
  PrimFloat.leb x hi = true -> f64_finite hi = true -> f64_nonzero x = true.
Proof.
  rewrite FloatAxioms.ltb_spec, !FloatAxioms.leb_spec. unfold f64_finite, f64_nonzero.
  change (Prim2SF zero) with (S754_zero false). unfold SFltb, SFleb.
  destruct (Prim2SF x) as [[]|[]| |sx mx ex]; [| | | | |reflexivity];
    destruct (Prim2SF lo) as [[]|[]| |[] ml el], (Prim2SF hi) as [[]|[]| |[] mh eh];
    cbn; congruence.
Qed.
