(* ===== verification/Random.v ===== *)
(** * Random: the sources of nondeterminism

    The generator draws integers and floating-point numbers from
    [faker.number] and identifiers from [uuidv4].  [Entropy] is the
    interface of these calls as transformers of an entropy state [R];
    [EntropyLaws] and [FloatLaws] state what the generator relies on: a
    draw lies between its bounds, and an identifier has never been issued
    before.  A real
    [uuidv4] meets the second law only with overwhelming probability; the
    law is the idealisation under which identifiers are called unique.
    [lcg] is an executable instance: a linear congruential generator for
    the numbers and a serial number for the identifiers. *)

From Stdlib Require Import List ZArith NArith QArith Lqa Lia Morphisms.
From S2P Require Import Prelude JSNumber.

(** A version-4 UUID, as the number its 128 bits spell. *)
Definition uuid : Type := N.

Class Entropy (num R : Type) : Type := {
  (** [faker.number.int({ min, max })] *)
  faker_number_int : Z -> Z -> R -> Z * R;
  (** [faker.number.float({ min, max })] *)
  faker_number_float : num -> num -> R -> num * R;
  (** [uuidv4()] *)
  uuidv4 : R -> uuid * R
}.

(** The laws of the integers and of the identifiers, which hold in every
    number model. *)
Class EntropyLaws (num R : Type) {E : Entropy num R} : Type := {
  (** the identifiers handed out so far *)
  issued : R -> uuid -> Prop;
  int_range : forall lo hi r, (lo <= hi)%Z ->
    (lo <= fst (faker_number_int lo hi r) <= hi)%Z;
  uuid_fresh : forall r, ~ issued r (fst (uuidv4 r));
  uuid_issued : forall r, issued (snd (uuidv4 r)) (fst (uuidv4 r));
  uuid_keeps : forall r u, issued r u -> issued (snd (uuidv4 r)) u;
  int_keeps : forall lo hi r u,
    issued r u -> issued (snd (faker_number_int lo hi r)) u;
  float_keeps : forall lo hi r u,
    issued r u -> issued (snd (faker_number_float lo hi r)) u
}.

(** The law of the floating-point draws, stated where numbers denote
    rationals. *)
Class FloatLaws (num R : Type) {N : JSNum num} {X : ExactNum num}
    {E : Entropy num R} : Prop := {
  float_range : forall lo hi qlo qhi r,
    exactly lo qlo -> exactly hi qhi -> qlo <= qhi ->
    exists q, exactly (fst (faker_number_float lo hi r)) q /\ qlo <= q <= qhi
}.

Set Implicit Arguments.

(** ** An executable source *)

Record lcg : Type := { lcg_state : Z; lcg_serial : N }.

Definition lcg_modulus : Z := 2 ^ 31.

Definition lcg_step (r : lcg) : Z * lcg :=
  let s := ((1103515245 * lcg_state r + 12345) mod lcg_modulus)%Z in
  (s, {| lcg_state := s; lcg_serial := lcg_serial r |}).

Definition lcg_int (lo hi : Z) (r : lcg) : Z * lcg :=
  let (s, r') := lcg_step r in
  ((lo + s mod (hi - lo + 1))%Z, r').

Definition lcg_float {num} `{JSNum num} (lo hi : num) (r : lcg) : num * lcg :=
  let (s, r') := lcg_step r in
  (nadd lo (nmul (nsub hi lo) (ndiv (of_int s) (of_int lcg_modulus))), r').

Definition lcg_uuid (r : lcg) : uuid * lcg :=
  (lcg_serial r, {| lcg_state := lcg_state r; lcg_serial := N.succ (lcg_serial r) |}).

#[export] Instance lcg_Entropy {num} `{JSNum num} : Entropy num lcg := {
  faker_number_int := lcg_int;
  faker_number_float := lcg_float;
  uuidv4 := lcg_uuid
}.

(** ** Its laws *)

Lemma lcg_step_range r : (0 <= fst (lcg_step r) < lcg_modulus)%Z.
Proof. simpl. apply Z.mod_pos_bound. reflexivity. Qed.

Lemma lcg_step_serial r : lcg_serial (snd (lcg_step r)) = lcg_serial r.
Proof. reflexivity. Qed.

Lemma lcg_int_range lo hi r : (lo <= hi)%Z -> (lo <= fst (lcg_int lo hi r) <= hi)%Z.
Proof.
  intros Hle. unfold lcg_int. destruct (lcg_step r) as [s r']. simpl.
  pose proof (Z.mod_pos_bound s (hi - lo + 1)). lia.
Qed.

Section LcgFloat.
Context {num : Type} `{ExactNum num}.

Lemma lcg_float_range lo hi qlo qhi r :
  exactly lo qlo -> exactly hi qhi -> qlo <= qhi ->
  exists q, exactly (fst (lcg_float lo hi r)) q /\ qlo <= q <= qhi.
Proof.
  intros Hlo Hhi Hle. unfold lcg_float.
  pose proof (lcg_step_range r) as Hs. destruct (lcg_step r) as [s r']. simpl in *.
  exists (qlo + (qhi - qlo) * (inject_Z s / inject_Z lcg_modulus)). split.
  - exact_num. now apply inject_Z_nonzero.
  - assert (0 <= inject_Z s / inject_Z lcg_modulus <= 1) as [H0 H1].
    { split; [apply Qdiv_nonneg | apply Qle_shift_div_r];
        try apply inject_Z_pos; try apply inject_Z_nonneg; try lia.
      rewrite Qmult_1_l, <- Zle_Qle. lia. }
    split; nra.
Qed.

End LcgFloat.

#[export] Instance lcg_EntropyLaws {num} `{JSNum num} : EntropyLaws num lcg := {
  issued := fun r u => (u < lcg_serial r)%N;
  int_range := lcg_int_range;
  uuid_fresh := fun r => N.lt_irrefl _;
  uuid_issued := fun r => N.lt_succ_diag_r _;
  uuid_keeps := fun r u Hu => N.lt_lt_succ_r _ _ Hu;
  int_keeps := fun lo hi r u Hu => Hu;
  float_keeps := fun lo hi r u Hu => Hu
}.

#[export] Instance lcg_FloatLaws {num} `{ExactNum num} : FloatLaws num lcg := {
  float_range := lcg_float_range
}.
