(* ===== verification/JSDate.v ===== *)
(** * JSDate: the [Date] built-ins the generator calls

    A [Date] holds a time value: the milliseconds since the epoch, or NaN
    for an invalid date.  The generator copies dates ([new Date(d)]) and
    advances one by [d.setMinutes(d.getMinutes() + k)].  The definitions
    follow the abstract operations of ECMA-262 (section "Date Objects":
    [Day], [HourFromTime], [MakeTime], [MakeDate], [TimeClip],
    [LocalTime], [UTC]) under a local time zone adjustment [tza] that is
    constant; daylight saving transitions are not modelled (Sri Lanka, for
    which the data is generated, has none).

    The theorem [setMinutes_getMinutes] shows that the idiom of
    dataGenerator.js line 66 adds exactly [k] minutes to the time value,
    through every rollover of hour, day, month and year, for every time
    zone offset. *)

From Stdlib Require Import ZArith Lia.
From S2P Require Import Prelude.

Local Open Scope Z_scope.

(** The time value of a [Date]; [None] is NaN. *)
Definition Date : Type := option Z.

Definition msPerSecond : Z := 1000.
Definition msPerMinute : Z := 60000.
Definition msPerHour : Z := 3600000.
Definition msPerDay : Z := 86400000.

Definition Day (t : Z) : Z := t / msPerDay.
Definition HourFromTime (t : Z) : Z := (t / msPerHour) mod 24.
Definition MinFromTime (t : Z) : Z := (t / msPerMinute) mod 60.
Definition SecFromTime (t : Z) : Z := (t / msPerSecond) mod 60.
Definition msFromTime (t : Z) : Z := t mod msPerSecond.

Definition MakeTime (hour min sec ms : Z) : Z :=
  hour * msPerHour + min * msPerMinute + sec * msPerSecond + ms.

Definition MakeDate (day time : Z) : Z := day * msPerDay + time.

(** The largest magnitude of a time value: 100,000,000 days. *)
Definition maxTime : Z := 8640000000000000.

Definition TimeClip (t : Z) : Date :=
  if Z.abs t >? maxTime then None else Some t.

Section LocalTime.

(** The local time zone adjustment, in milliseconds. *)
Variable tza : Z.

Definition LocalTime (t : Z) : Z := t + tza.
Definition UTC (t : Z) : Z := t - tza.

(** [new Date(d)] for a [Date] object [d]. *)
Definition newDate (d : Date) : Date :=
  match d with
  | Some t => TimeClip t
  | None => None
  end.

(** [d.getMinutes()]: a number, NaN for an invalid date. *)
Definition getMinutes (d : Date) : option Z :=
  match d with
  | Some t => Some (MinFromTime (LocalTime t))
  | None => None
  end.

(** [d.setMinutes(min)]: the new time value of [d]. *)
Definition setMinutes (d : Date) (min : option Z) : Date :=
  match d, min with
  | Some t, Some m =>
      let t' := LocalTime t in
      let date :=
        MakeDate (Day t') (MakeTime (HourFromTime t') m (SecFromTime t') (msFromTime t')) in
      TimeClip (UTC date)
  | _, _ => None
  end.

(** [x + k] for a number [x] that may be NaN and an integer [k]. *)
Definition plus_minutes (x : option Z) (k : Z) : option Z :=
  match x with
  | Some m => Some (m + k)
  | None => None
  end.

(** ** Properties *)

(** A local time is its day, hour, minute, second and millisecond. *)
Lemma time_decompose t :
  t = MakeDate (Day t) (MakeTime (HourFromTime t) (MinFromTime t) (SecFromTime t) (msFromTime t)).
Proof.
  unfold MakeDate, MakeTime, Day, HourFromTime, MinFromTime, SecFromTime, msFromTime,
    msPerDay, msPerHour, msPerMinute, msPerSecond.
  Z.div_mod_to_equations. lia.
Qed.

Lemma MakeTime_add_minutes h m s ms k :
  MakeTime h (m + k) s ms = MakeTime h m s ms + k * msPerMinute.
Proof. unfold MakeTime. lia. Qed.

Lemma MinFromTime_range t : 0 <= MinFromTime t < 60.
Proof. unfold MinFromTime. apply Z.mod_pos_bound. lia. Qed.

Lemma TimeClip_valid t : Z.abs t <= maxTime -> TimeClip t = Some t.
Proof.
  intros Ht. unfold TimeClip.
  destruct (Z.gtb_spec (Z.abs t) maxTime); [lia | reflexivity].
Qed.

Lemma TimeClip_some t u : TimeClip t = Some u -> u = t /\ Z.abs t <= maxTime.
Proof.
  unfold TimeClip. destruct (Z.gtb_spec (Z.abs t) maxTime); [discriminate|].
  intros [= <-]. split; [reflexivity | lia].
Qed.

Lemma newDate_valid t : Z.abs t <= maxTime -> newDate (Some t) = Some t.
Proof. apply TimeClip_valid. Qed.

(** Setting the minutes to the current minutes plus [k] adds [k]
    minutes to the time value. *)
Theorem setMinutes_getMinutes t k :
  setMinutes (Some t) (plus_minutes (getMinutes (Some t)) k)
  = TimeClip (t + k * msPerMinute).
Proof.
  unfold setMinutes, getMinutes, plus_minutes. cbv zeta. f_equal.
  rewrite MakeTime_add_minutes. unfold UTC.
  pose proof (time_decompose (LocalTime t)) as E. unfold MakeDate in *.
  unfold LocalTime in *. lia.
Qed.

(** An invalid date stays invalid. *)
Lemma setMinutes_invalid m : setMinutes None m = None.
Proof. reflexivity. Qed.

End LocalTime.
