(* ===== verification/Route.v ===== *)
(** * Route: random end points and the segments between them

    Models dataGenerator.js lines 11-44: the bounding box
    [SRI_LANKA_BOUNDS], [getRandomSriLankanCoordinates] and
    [generatePathSegments].  The definitions are generic in the number
    model; the theorems of section [Generic] hold in every model (binary64
    included), those of section [Exact] in the models of [ExactNum]. *)

From Stdlib Require Import List ZArith QArith Qminmax Lqa Lia Morphisms.
From S2P Require Import Prelude JSNumber Random.
Import ListNotations.

Local Open Scope js_scope.

(** ** Data *)

(** [{ latitude, longitude }] *)
Record GeoPoint (num : Type) : Type := {
  latitude : num;
  longitude : num
}.

(** [{ start, end }] *)
Record Segment (num : Type) : Type := {
  start : GeoPoint num;
  end_ : GeoPoint num
}.

(** [{ minLat, maxLat, minLng, maxLng }] *)
Record Bounds (num : Type) : Type := {
  minLat : num;
  maxLat : num;
  minLng : num;
  maxLng : num
}.

Arguments latitude {num} _.
Arguments longitude {num} _.
Arguments start {num} _.
Arguments end_ {num} _.
Arguments minLat {num} _.
Arguments maxLat {num} _.
Arguments minLng {num} _.
Arguments maxLng {num} _.

(** ** Operations *)

Section Definitions.
Context {num : Type} `{JSNum num}.
Local Open Scope num_scope.

Definition SRI_LANKA_BOUNDS : Bounds num := {|
  minLat := decimal 5912 3;
  maxLat := decimal 9842 3;
  minLng := decimal 79695 3;
  maxLng := decimal 81787 3
|}.

Definition getRandomSriLankanCoordinates {R} `{Entropy num R} : M R (GeoPoint num) :=
  lat <- draw (faker_number_float (minLat SRI_LANKA_BOUNDS) (maxLat SRI_LANKA_BOUNDS)) ;;
  lng <- draw (faker_number_float (minLng SRI_LANKA_BOUNDS) (maxLng SRI_LANKA_BOUNDS)) ;;
  ret {| latitude := lat; longitude := lng |}.

(** The segment pushed by iteration [i] of the loop. *)
Definition segment_at (startCoords : GeoPoint num) (latIncrement lngIncrement : num)
    (i : Z) : Segment num :=
  let segmentStart := {|
    latitude := latitude startCoords + latIncrement * of_int i;
    longitude := longitude startCoords + lngIncrement * of_int i
  |} in
  let segmentEnd := {|
    latitude := latitude startCoords + latIncrement * of_int (i + 1);
    longitude := longitude startCoords + lngIncrement * of_int (i + 1)
  |} in
  {| start := segmentStart; end_ := segmentEnd |}.

Definition generatePathSegments (startCoords endCoords : GeoPoint num)
    (numSegments : Z) : list (Segment num) :=
  let segments := [] in
  let latIncrement := (latitude endCoords - latitude startCoords) / of_int numSegments in
  let lngIncrement := (longitude endCoords - longitude startCoords) / of_int numSegments in
  for_lt 0 numSegments 1
    (fun i segments => segments ++ [segment_at startCoords latIncrement lngIncrement i])
    segments.

(** The source loop, guard first, under fuel. *)
Definition generatePathSegments_guarded (fuel : nat) (startCoords endCoords : GeoPoint num)
    (numSegments : Z) : option (list (Segment num)) :=
  let latIncrement := (latitude endCoords - latitude startCoords) / of_int numSegments in
  let lngIncrement := (longitude endCoords - longitude startCoords) / of_int numSegments in
  for_guarded fuel numSegments 1
    (fun i segments => segments ++ [segment_at startCoords latIncrement lngIncrement i])
    0%Z [].

(** Consecutive segments share their end point. *)
Fixpoint contiguous (segments : list (Segment num)) : Prop :=
  match segments with
  | a :: (b :: _) as rest => end_ a = start b /\ contiguous rest
  | _ => True
  end.

End Definitions.

(** ** Abstract specification: points of the straight line *)

(** The point at fraction [t] of the way from [a] to [b]. *)
Definition lerp (a b t : Q) : Q := a + (b - a) * t.

(** Segment [k] of [n] of the line from [(slat, slng)] to [(elat, elng)]:
    its start and its end. *)
Definition line_segment (slat slng elat elng : Q) (n k : Z) : (Q * Q) * (Q * Q) :=
  ((lerp slat elat (inject_Z k / inject_Z n), lerp slng elng (inject_Z k / inject_Z n)),
   (lerp slat elat (inject_Z (k + 1) / inject_Z n),
    lerp slng elng (inject_Z (k + 1) / inject_Z n))).

(** The route the specification asks of [buildRoute]: the [n] segments of
    the line, in order; none for a count that is not positive. *)
Definition buildRoute (slat slng elat elng : Q) (n : Z) : list ((Q * Q) * (Q * Q)) :=
  map (line_segment slat slng elat elng n) (zrange 0 1 (Z.to_nat n)).

Section Generic.
Context {num : Type} `{JSNum num}.
Local Open Scope num_scope.

Implicit Types (startCoords endCoords : GeoPoint num) (numSegments : Z).

(** The route is the image of the counter's range under [segment_at]. *)
Lemma generatePathSegments_map startCoords endCoords numSegments :
  generatePathSegments startCoords endCoords numSegments =
  map (segment_at startCoords
         ((latitude endCoords - latitude startCoords) / of_int numSegments)
         ((longitude endCoords - longitude startCoords) / of_int numSegments))
      (zrange 0 1 (Z.to_nat numSegments)).
Proof.
  unfold generatePathSegments. cbv zeta.
  rewrite for_lt_push, trip_count_unit, Z.sub_0_r. reflexivity.
Qed.

(** The value of [segments.length] for a positive count. *)
Lemma route_size startCoords endCoords numSegments :
  (0 < numSegments)%Z ->
  Z.of_nat (length (generatePathSegments startCoords endCoords numSegments)) = numSegments.
Proof. intros Hn. rewrite generatePathSegments_map. js_rw. lia. Qed.

Lemma route_nonempty startCoords endCoords numSegments :
  (0 < numSegments)%Z -> generatePathSegments startCoords endCoords numSegments <> [].
Proof.
  intros Hn E0. pose proof (route_size startCoords endCoords numSegments Hn) as Hs.
  rewrite E0 in Hs. simpl in Hs. lia.
Qed.

(** C22. The route has [numSegments] segments; for a count that is zero or
    negative it is empty, and nothing is raised. *)
Theorem generatePathSegments_length startCoords endCoords numSegments :
  length (generatePathSegments startCoords endCoords numSegments) = Z.to_nat numSegments.
Proof. rewrite generatePathSegments_map. now js_rw. Qed.

Lemma generatePathSegments_nth startCoords endCoords numSegments k :
  (k < Z.to_nat numSegments)%nat ->
  nth_error (generatePathSegments startCoords endCoords numSegments) k =
  Some (segment_at startCoords
          ((latitude endCoords - latitude startCoords) / of_int numSegments)
          ((longitude endCoords - longitude startCoords) / of_int numSegments)
          (Z.of_nat k)).
Proof.
  intros Hk. rewrite generatePathSegments_map.
  erewrite nth_error_map_some by (now apply nth_error_zrange).
  do 2 f_equal. lia.
Qed.

Lemma contiguous_segment_at startCoords latInc lngInc lo n :
  contiguous (map (segment_at startCoords latInc lngInc) (zrange lo 1 n)).
Proof.
  revert lo. induction n as [|n IH]; intros lo; [exact I|].
  specialize (IH (lo + 1)%Z). destruct n; [exact I|].
  split; [reflexivity | exact IH].
Qed.

(** C23. Consecutive segments share their end point, bit for bit, in every
    number model: segment [i] ends where segment [i + 1] starts. *)
Theorem generatePathSegments_contiguous startCoords endCoords numSegments :
  contiguous (generatePathSegments startCoords endCoords numSegments).
Proof. rewrite generatePathSegments_map. apply contiguous_segment_at. Qed.

(** C38. The loop of the source leaves through its guard [i < numSegments]
    once the fuel reaches the number of segments, with the route as its
    result. *)
Theorem generatePathSegments_terminates fuel startCoords endCoords numSegments :
  (Z.to_nat numSegments <= fuel)%nat ->
  generatePathSegments_guarded fuel startCoords endCoords numSegments =
  Some (generatePathSegments startCoords endCoords numSegments).
Proof.
  intros Hf. unfold generatePathSegments_guarded, generatePathSegments.
  apply for_guarded_terminates; [lia|]. js_rw. lia.
Qed.

End Generic.

Section Exact.
Context {num : Type} `{ExactNum num}.

Implicit Types (startCoords endCoords : GeoPoint num) (numSegments : Z).

(** The coordinates of a point are the rationals [lat] and [lng]. *)
Definition at_point (p : GeoPoint num) (lat lng : Q) : Prop :=
  exactly (latitude p) lat /\ exactly (longitude p) lng.

#[export] Instance at_point_proper p : Proper (Qeq ==> Qeq ==> iff) (at_point p).
Proof. intros a a' Ea b b' Eb. unfold at_point. now rewrite Ea, Eb. Qed.

Lemma at_point_eq p lat lng lat' lng' :
  at_point p lat lng -> lat == lat' -> lng == lng' -> at_point p lat' lng'.
Proof. intros Hp Ea Eb. now rewrite <- Ea, <- Eb. Qed.

Lemma lerp_0 a b : lerp a b 0 == a.
Proof. unfold lerp. ring. Qed.

Lemma lerp_1 a b : lerp a b 1 == b.
Proof. unfold lerp. ring. Qed.

(** A point of the line lies between its end points. *)
Lemma lerp_between a b t : 0 <= t <= 1 ->
  Qmin a b <= lerp a b t <= Qmax a b.
Proof.
  intros [H0 H1]. unfold lerp.
  destruct (Qlt_le_dec a b) as [Hab|Hab].
  - rewrite (Q.min_l a b), (Q.max_r a b) by lra. split; nra.
  - rewrite (Q.min_r a b), (Q.max_l a b) by lra. split; nra.
Qed.

(** The point at fraction [p] of segment [b] of [k] is the point of the
    whole line at fraction [(b + p) / k]. *)
Lemma lerp_segment s e (b : Z) (k p t : Q) :
  ~ k == 0 -> (inject_Z b + p) / k == t ->
  lerp (lerp s e (inject_Z b / k)) (lerp s e (inject_Z (b + 1) / k)) p == lerp s e t.
Proof.
  intros Hk Ht. unfold lerp. rewrite <- Ht, inject_Z_plus. field. exact Hk.
Qed.

(** The increment [(b - a) / n] of one coordinate. *)
Lemma increment_exact (a b : num) qa qb n :
  exactly a qa -> exactly b qb -> (0 < n)%Z ->
  exactly (ndiv (nsub b a) (of_int n)) ((qb - qa) / inject_Z n).
Proof. intros Ha Hb Hn. exact_num. apply inject_Z_nonzero. lia. Qed.

(** The end points of the segment pushed by iteration [i]. *)
Lemma segment_at_exact startCoords latInc lngInc slat slng dlat dlng i :
  at_point startCoords slat slng -> exactly latInc dlat -> exactly lngInc dlng ->
  at_point (start (segment_at startCoords latInc lngInc i))
    (slat + dlat * inject_Z i) (slng + dlng * inject_Z i) /\
  at_point (end_ (segment_at startCoords latInc lngInc i))
    (slat + dlat * inject_Z (i + 1)) (slng + dlng * inject_Z (i + 1)).
Proof. intros [Hlat Hlng] Hdlat Hdlng. repeat split; simpl; exact_num. Qed.

(** A segment runs from the point [fst] to the point [snd] of a pair of
    rational points. *)
Definition runs (seg : Segment num) (ends : (Q * Q) * (Q * Q)) : Prop :=
  at_point (start seg) (fst (fst ends)) (snd (fst ends)) /\
  at_point (end_ seg) (fst (snd ends)) (snd (snd ends)).

(** The segment pushed by iteration [i] is segment [i] of the line. *)
Lemma segment_at_on_line startCoords endCoords slat slng elat elng numSegments i :
  at_point startCoords slat slng -> at_point endCoords elat elng ->
  (0 < numSegments)%Z ->
  runs (segment_at startCoords
          (ndiv (nsub (latitude endCoords) (latitude startCoords)) (of_int numSegments))
          (ndiv (nsub (longitude endCoords) (longitude startCoords)) (of_int numSegments))
          i)
       (line_segment slat slng elat elng numSegments i).
Proof.
  intros Hs He Hn.
  pose proof (inject_Z_nonzero (z:=numSegments) ltac:(lia)) as Hn0.
  destruct Hs as [Hslat Hslng], He as [Helat Helng].
  pose proof (increment_exact _ _ _ _ _ Hslat Helat Hn) as Dlat.
  pose proof (increment_exact _ _ _ _ _ Hslng Helng Hn) as Dlng.
  destruct (segment_at_exact _ _ _ _ _ _ _ i (conj Hslat Hslng) Dlat Dlng) as [S E].
  split; [eapply at_point_eq; [exact S|..] | eapply at_point_eq; [exact E|..]];
    cbn [line_segment fst snd]; unfold lerp; field; exact Hn0.
Qed.

(** Segment [k] of the route is segment [k] of the line. *)
Lemma segment_on_line startCoords endCoords slat slng elat elng numSegments k :
  at_point startCoords slat slng -> at_point endCoords elat elng ->
  (k < Z.to_nat numSegments)%nat ->
  exists seg,
    nth_error (generatePathSegments startCoords endCoords numSegments) k = Some seg /\
    runs seg (line_segment slat slng elat elng numSegments (Z.of_nat k)).
Proof.
  intros Hs He Hk. eexists. split; [now apply generatePathSegments_nth|].
  apply segment_at_on_line; (assumption || lia).
Qed.

(** C4. Refinement.  In exact arithmetic the route is [buildRoute]: as
    many segments, and segment [k] runs from fraction [k / n] to fraction
    [(k + 1) / n] of the straight line from the start point to the end
    point. *)
Theorem generatePathSegments_exact startCoords endCoords slat slng elat elng numSegments :
  at_point startCoords slat slng -> at_point endCoords elat elng ->
  Forall2 runs (generatePathSegments startCoords endCoords numSegments)
    (buildRoute slat slng elat elng numSegments).
Proof.
  intros Hs He. rewrite generatePathSegments_map. unfold buildRoute.
  apply Forall2_map_same. intros i (k & Hk & _)%in_zrange.
  apply segment_at_on_line; (assumption || lia).
Qed.

(** C24. In exact arithmetic the route starts at the start point and ends
    at the end point. *)
Theorem generatePathSegments_endpoints startCoords endCoords slat slng elat elng numSegments :
  at_point startCoords slat slng -> at_point endCoords elat elng ->
  (0 < numSegments)%Z ->
  exists first final,
    nth_error (generatePathSegments startCoords endCoords numSegments) 0 = Some first /\
    nth_error (generatePathSegments startCoords endCoords numSegments)
      (Z.to_nat numSegments - 1) = Some final /\
    at_point (start first) slat slng /\ at_point (end_ final) elat elng.
Proof.
  intros Hs He Hn.
  pose proof (inject_Z_nonzero (z:=numSegments) ltac:(lia)) as Hn0.
  destruct (segment_on_line _ _ _ _ _ _ numSegments 0 Hs He)
    as (first & E0 & S0 & _); [lia|].
  destruct (segment_on_line _ _ _ _ _ _ numSegments (Z.to_nat numSegments - 1) Hs He)
    as (final & E1 & _ & S1); [lia|].
  exists first, final. split; [assumption|]. split; [assumption|].
  cbn [line_segment fst snd] in S0, S1.
  replace (Z.of_nat (Z.to_nat numSegments - 1) + 1)%Z with numSegments in S1 by lia.
  split; [eapply at_point_eq; [exact S0|..] | eapply at_point_eq; [exact S1|..]];
    unfold lerp; simpl; field; exact Hn0.
Qed.

End Exact.

(** ** The random point, in every number model *)

Section Draws.
Context {num : Type} {N : JSNum num} {R : Type} {E : Entropy num R}.

(** The function returns, and what was issued stays issued. *)
Lemma getRandomSriLankanCoordinates_keeps {L : EntropyLaws num R} (r : R) :
  returns getRandomSriLankanCoordinates r (fun _ r' => forall u, issued r u -> issued r' u).
Proof.
  unfold getRandomSriLankanCoordinates.
  apply returns_bind, returns_draw, returns_bind, returns_draw, returns_ret.
  intros u Hu. now apply float_keeps, float_keeps.
Qed.

Lemma getRandomSriLankanCoordinates_total : total (getRandomSriLankanCoordinates (R:=R)).
Proof.
  intros r. unfold getRandomSriLankanCoordinates.
  now apply returns_bind, returns_draw, returns_bind, returns_draw, returns_ret.
Qed.

End Draws.

Section ExactRandom.
Context {num : Type} {N : JSNum num} {X : ExactNum num}.
Context {R : Type} {E : Entropy num R} {F : FloatLaws num R}.

(** The bounding box, in rationals. *)
Definition in_sri_lanka (lat lng : Q) : Prop :=
  5912 # 1000 <= lat <= 9842 # 1000 /\ 79695 # 1000 <= lng <= 81787 # 1000.

Lemma decimal3_exact m : exactly (decimal (num:=num) m 3) (m # 1000).
Proof.
  eapply exactly_eq; [apply exactly_decimal|].
  change (inject_Z (10 ^ Z.of_nat 3)) with (inject_Z 1000).
  rewrite (Qmake_Qdiv m 1000). reflexivity.
Qed.

(** C37. A random point lies in the bounding box, whenever the random source
    keeps to its bounds; latitude is drawn before longitude. *)
Theorem getRandomSriLankanCoordinates_within (r : R) :
  exists p r' lat lng,
    getRandomSriLankanCoordinates r = (Normal p, r') /\
    at_point p lat lng /\ in_sri_lanka lat lng.
Proof.
  unfold getRandomSriLankanCoordinates, bind, draw, ret.
  destruct (float_range (minLat SRI_LANKA_BOUNDS) (maxLat SRI_LANKA_BOUNDS) _ _ r
              (decimal3_exact 5912) (decimal3_exact 9842) ltac:(easy))
    as (lat & Hlat & Blat).
  destruct (faker_number_float (minLat SRI_LANKA_BOUNDS) (maxLat SRI_LANKA_BOUNDS) r)
    as [x r1].
  destruct (float_range (minLng SRI_LANKA_BOUNDS) (maxLng SRI_LANKA_BOUNDS) _ _ r1
              (decimal3_exact 79695) (decimal3_exact 81787) ltac:(easy))
    as (lng & Hlng & Blng).
  destruct (faker_number_float (minLng SRI_LANKA_BOUNDS) (maxLng SRI_LANKA_BOUNDS) r1)
    as [y r2].
  exists {| latitude := x; longitude := y |}, r2, lat, lng. simpl in *.
  repeat split; (assumption || apply Blat || apply Blng).
Qed.

End ExactRandom.

(** ** The scenario of the specification, in the rationals

    [buildRoute({lat: 6.0, lng: 80.0}, {lat: 7.0, lng: 81.0}, 2)]. *)

Definition scenario_start : GeoPoint Q := {| latitude := 6; longitude := 80 |}.
Definition scenario_end : GeoPoint Q := {| latitude := 7; longitude := 81 |}.

Lemma scenario_start_at : at_point scenario_start 6 80.
Proof. split; reflexivity. Qed.

Lemma scenario_end_at : at_point scenario_end 7 81.
Proof. split; reflexivity. Qed.

Lemma generatePathSegments_exact_witness :
  Forall2 runs (generatePathSegments scenario_start scenario_end 2)
    (buildRoute 6 80 7 81 2).
Proof.
  apply (generatePathSegments_exact scenario_start scenario_end 6 80 7 81 2
           scenario_start_at scenario_end_at).
Defined.

Lemma generatePathSegments_terminates_witness :
  generatePathSegments_guarded 2 scenario_start scenario_end 2 =
  Some (generatePathSegments scenario_start scenario_end 2).
Proof. apply generatePathSegments_terminates. simpl. lia. Defined.

Lemma generatePathSegments_endpoints_witness :
  exists first final,
    nth_error (generatePathSegments scenario_start scenario_end 2) 0 = Some first /\
    nth_error (generatePathSegments scenario_start scenario_end 2) (Z.to_nat 2 - 1)
      = Some final /\
    at_point (start first) 6 80 /\ at_point (end_ final) 7 81.
Proof.
  apply (generatePathSegments_endpoints scenario_start scenario_end 6 80 7 81 2
           scenario_start_at scenario_end_at).
  lia.
Defined.

Lemma getRandomSriLankanCoordinates_within_witness :
  exists (p : GeoPoint Q) r' lat lng,
    getRandomSriLankanCoordinates {| lcg_state := 2024; lcg_serial := 0 |}
      = (Normal p, r') /\
    at_point p lat lng /\ in_sri_lanka lat lng.
Proof. apply getRandomSriLankanCoordinates_within. Defined.
