(* ===== verification/Telemetry.v ===== *)
(** * Telemetry: the time series of one train

    Models dataGenerator.js lines 6-9 (the constants) and 46-70
    ([generateLocationData]).  One iteration of the loop is [location_at]
    (lines 51-63) followed by the push and the advance of [currentDate]
    (lines 65-66).  The calls are made in the order of the source: the
    identifier is drawn first, the copy of the date is taken, then the
    coordinates are read off the segment (where a missing segment raises
    the [TypeError]), then speed and direction are drawn.

    Section [Generic] holds in every number model and for every entropy
    source (errors, length, time stamps, and that every record
    interpolates the segment it read: [positioned]); section [Typed] in
    every number model under [EntropyLaws] (the type of a record, the
    uniqueness of identifiers); section [Exact] in the exact models
    (where the records lie, and how the entries sweep the segments of the
    route: [segmentIndex_sweep]). *)

From Stdlib Require Import List ZArith QArith Qminmax Qround Lqa Lia Bool Morphisms.
From S2P Require Import Prelude JSNumber Random JSDate Route.
Import ListNotations.

Local Open Scope js_scope.

(** ** Configuration (lines 6-9) *)

Definition NUM_TRAINS : Z := 396.
Definition NUM_DAYS : Z := 90.
Definition DATA_INTERVAL_MINUTES : Z := 1.
Definition BATCH_SIZE : Z := 1000.

(** ** Data *)

(** One telemetry record (lines 55-63).  [loc_latitude] and
    [loc_longitude] are the fields [latitude] and [longitude]. *)
Record Location (num : Type) : Type := {
  location_id : uuid;
  train_id : Z;
  timestamp : Date;
  loc_latitude : num;
  loc_longitude : num;
  speed : Z;
  direction : Z
}.

Arguments location_id {num} _.
Arguments train_id {num} _.
Arguments timestamp {num} _.
Arguments loc_latitude {num} _.
Arguments loc_longitude {num} _.
Arguments speed {num} _.
Arguments direction {num} _.

Set Implicit Arguments.

(** ** Operations *)

Section Definitions.
Context {num : Type} `{JSNum num} {R : Type} `{Entropy num R}.
Local Open Scope num_scope.

(** The local time zone adjustment of the process, in milliseconds. *)
Variable tza : Z.

(** [Math.floor(i / (numEntries / segments.length))] (line 51) *)
Definition segmentIndex (i numEntries : Z) (segments : list (Segment num)) : num :=
  nfloor (of_int i / (of_int numEntries / array_length segments)).

(** [(i % (numEntries / segments.length)) / (numEntries / segments.length)]
    (line 53) *)
Definition segmentProgress (i numEntries : Z) (segments : list (Segment num)) : num :=
  (of_int i %% (of_int numEntries / array_length segments))
  / (of_int numEntries / array_length segments).

(** A coordinate at [progress] of the way along a segment (lines 59-60). *)
Definition interpolate (a b progress : num) : num := a + (b - a) * progress.

(** The record of iteration [i] (lines 51-63). *)
Definition location_at (train_id : Z) (numEntries : Z) (segments : list (Segment num))
    (i : Z) (currentDate : Date) : M R (Location num) :=
  let segment := array_get segments (segmentIndex i numEntries segments) in
  let progress := segmentProgress i numEntries segments in
  location_id <- draw uuidv4 ;;
  let timestamp := newDate currentDate in
  segment <- defined segment ;;
  let latitude :=
    interpolate (latitude (start segment)) (latitude (end_ segment)) progress in
  let longitude :=
    interpolate (longitude (start segment)) (longitude (end_ segment)) progress in
  speed <- draw (faker_number_int 30 120) ;;
  direction <- draw (faker_number_int 0 360) ;;
  ret {| location_id := location_id;
         train_id := train_id;
         timestamp := timestamp;
         loc_latitude := latitude;
         loc_longitude := longitude;
         speed := speed;
         direction := direction |}.

(** [currentDate.setMinutes(currentDate.getMinutes() + DATA_INTERVAL_MINUTES)]
    (line 66) *)
Definition advance (currentDate : Date) : Date :=
  setMinutes tza currentDate
    (plus_minutes (getMinutes tza currentDate) DATA_INTERVAL_MINUTES).

(** One iteration of the loop on its local variables (lines 51-66). *)
Definition location_step (train_id numEntries : Z) (segments : list (Segment num))
    (i : Z) (vars : list (Location num) * Date) : M R (list (Location num) * Date) :=
  let (locationData, currentDate) := vars in
  location <- location_at train_id numEntries segments i currentDate ;;
  ret (locationData ++ [location], advance currentDate).

Definition generateLocationData (train_id : Z) (startDate : Date) (numEntries : Z)
    (segments : list (Segment num)) : M R (list (Location num)) :=
  let locationData := [] in
  let currentDate := newDate startDate in
  vars <- foldM_lt 0 numEntries 1 (location_step train_id numEntries segments)
            (locationData, currentDate) ;;
  ret (fst vars).

(** The source loop, guard first, under fuel: [None] when the fuel runs
    out before the guard [i < numEntries] fails. *)
Definition generateLocationData_guarded (fuel : nat) (train_id : Z) (startDate : Date)
    (numEntries : Z) (segments : list (Segment num)) : M R (option (list (Location num))) :=
  let locationData := [] in
  let currentDate := newDate startDate in
  vars <- foldM_guarded fuel numEntries 1 (location_step train_id numEntries segments)
            0%Z (locationData, currentDate) ;;
  ret (option_map fst vars).

End Definitions.

Section Generic.
Context {num : Type} `{JSNum num} {R : Type} `{Entropy num R}.
Variable tza : Z.

Implicit Types (segments : list (Segment num)) (r : R) (startDate : Date).

Lemma array_get_nil {A} (x : num) : array_get (@nil A) x = None.
Proof. unfold array_get. destruct (to_index x) as [[|k]|]; reflexivity. Qed.

(** With no segment to read, the record of an iteration is never built:
    the identifier is drawn, then the access throws. *)
Lemma location_at_empty id n i d r :
  location_at id n [] i d r = (Throw TypeError, snd (uuidv4 r)).
Proof.
  unfold location_at. cbv zeta. rewrite array_get_nil.
  unfold bind, draw, defined, throw. now destruct (uuidv4 r).
Qed.

(** C12. For an empty route and a positive number of entries the function
    throws a [TypeError] in its first iteration, after one identifier has
    been drawn; it does not report an invalid argument. *)
Theorem generateLocationData_empty_route id startDate numEntries r :
  (0 < numEntries)%Z ->
  generateLocationData tza id startDate numEntries [] r
  = (Throw TypeError, snd (uuidv4 r)).
Proof.
  intros Hn. unfold generateLocationData, foldM_lt. cbv zeta.
  rewrite trip_count_unit.
  destruct (Z.to_nat (numEntries - 0)) as [|n] eqn:E; [lia|].
  apply bind_throw, foldM_throws_first.
  unfold location_step. apply bind_throw, location_at_empty.
Qed.

(** C13. For a number of entries that is zero or negative the function
    returns the empty array, draws nothing and raises nothing. *)
Theorem generateLocationData_no_entries id startDate numEntries segments r :
  (numEntries <= 0)%Z ->
  generateLocationData tza id startDate numEntries segments r = (Normal [], r).
Proof.
  intros Hn. unfold generateLocationData, foldM_lt. cbv zeta.
  rewrite trip_count_unit. now replace (Z.to_nat (numEntries - 0)) with 0%nat by lia.
Qed.

(** C39. The loop of the source leaves through its guard [i < numEntries]
    once the fuel reaches the number of entries, and then the function
    completes as the counted loop does: with the same result, or the same
    error, in the same state. *)
Theorem generateLocationData_terminates fuel id startDate numEntries segments r :
  (Z.to_nat numEntries <= fuel)%nat ->
  generateLocationData_guarded tza fuel id startDate numEntries segments r =
  bind (generateLocationData tza id startDate numEntries segments)
    (fun data => ret (Some data)) r.
Proof.
  intros Hf. unfold generateLocationData_guarded, generateLocationData. cbv zeta.
  unfold bind at 1. rewrite foldM_guarded_terminates by (js_rw; lia).
  unfold bind, ret.
  destruct (foldM_lt 0 numEntries 1 (location_step tza id numEntries segments)
              ([], newDate startDate) r) as [[vars|e] r']; reflexivity.
Qed.

(** What the loop has built after [k] iterations, in every model. *)
Definition built (id : Z) (startDate : Date) (k : nat)
    (vars : list (Location num) * Date) : Prop :=
  length (fst vars) = k /\
  snd vars = Nat.iter k (advance tza) (newDate startDate) /\
  forall j loc, nth_error (fst vars) j = Some loc ->
    train_id loc = id /\
    timestamp loc = newDate (Nat.iter j (advance tza) (newDate startDate)).

Lemma location_at_fields id n segments i d r loc r' :
  location_at id n segments i d r = (Normal loc, r') ->
  train_id loc = id /\ timestamp loc = newDate d.
Proof.
  unfold location_at. cbv zeta. intros E.
  apply bind_normal_inv in E as (u & r1 & _ & E).
  apply bind_normal_inv in E as (seg & r2 & _ & E).
  apply bind_normal_inv in E as (sp & r3 & _ & E).
  apply bind_normal_inv in E as (dir & r4 & _ & E).
  inv E. split; reflexivity.
Qed.

Lemma location_step_built id startDate n segments k vars r vars' r' :
  built id startDate k vars ->
  location_step tza id n segments (0 + Z.of_nat k * 1) vars r = (Normal vars', r') ->
  built id startDate (S k) vars'.
Proof.
  destruct vars as [data d]. intros (Hlen & Hd & Hrec) E. simpl in *.
  apply bind_normal_inv in E as (loc & r1 & Eloc & E). inv E.
  apply location_at_fields in Eloc as [Hid Hts].
  split; [|split]; simpl.
  - rewrite length_app. simpl. lia.
  - reflexivity.
  - intros j loc' [[Hj E]|[-> ->]]%nth_error_snoc; [now apply Hrec | now split].
Qed.

(** What a normal return of the function has built. *)
Lemma generateLocationData_built id startDate numEntries segments r data r' :
  generateLocationData tza id startDate numEntries segments r = (Normal data, r') ->
  built id startDate (Z.to_nat numEntries) (data, Nat.iter (Z.to_nat numEntries) (advance tza) (newDate startDate)).
Proof.
  unfold generateLocationData, foldM_lt. cbv zeta. rewrite trip_count_unit, Z.sub_0_r.
  intros E. apply bind_normal_inv in E as ([data' d'] & r1 & E & Er). inv Er.
  assert (built id startDate (Z.to_nat numEntries) (data, d')) as B.
  { eapply (foldM_partial (fun k vars (_ : R) => built id startDate k vars)); [| |exact E].
    - split; [reflexivity | split; [reflexivity|]]. intros [|j] loc; discriminate.
    - intros k a s a' s' _ Hb Eb. eapply location_step_built; eassumption. }
  pose proof (proj1 (proj2 B)) as Hd. simpl in Hd. now subst d'.
Qed.

(** Where the loop has put its records after [k] iterations, in every
    model: record [j] interpolates the segment read at [segmentIndex j],
    at [segmentProgress j]. *)
Definition positioned (n : Z) (segments : list (Segment num)) (j : Z)
    (loc : Location num) : Prop :=
  exists seg,
    array_get segments (segmentIndex j n segments) = Some seg /\
    loc_latitude loc
    = interpolate (latitude (start seg)) (latitude (end_ seg))
        (segmentProgress j n segments) /\
    loc_longitude loc
    = interpolate (longitude (start seg)) (longitude (end_ seg))
        (segmentProgress j n segments).

Lemma location_at_positioned id n segments i d r loc r' :
  location_at id n segments i d r = (Normal loc, r') -> positioned n segments i loc.
Proof.
  unfold location_at. cbv zeta. intros Eloc.
  apply bind_normal_inv in Eloc as (u & r1 & _ & Eloc).
  apply bind_normal_inv in Eloc as (seg & r2 & Eseg & Eloc).
  apply defined_normal_inv in Eseg as [Eseg _].
  apply bind_normal_inv in Eloc as (sp & r3 & _ & Eloc).
  apply bind_normal_inv in Eloc as (dir & r4 & _ & Eloc).
  inv Eloc. exists seg. now split.
Qed.

(** What a normal return of the function has placed. *)
Lemma generateLocationData_positioned id startDate n segments r data r' j loc :
  generateLocationData tza id startDate n segments r = (Normal data, r') ->
  nth_error data j = Some loc -> positioned n segments (Z.of_nat j) loc.
Proof.
  unfold generateLocationData, foldM_lt. cbv zeta. rewrite trip_count_unit, Z.sub_0_r.
  intros Erun. apply bind_normal_inv in Erun as ([data' d'] & r1 & Erun & Er). inv Er.
  cbn [fst]. revert j loc.
  change (forall j loc, nth_error (fst (data, d')) j = Some loc ->
                        positioned n segments (Z.of_nat j) loc).
  eapply (foldM_partial
            (fun k vars (_ : R) =>
               length (fst vars) = k /\
               forall j loc, nth_error (fst vars) j = Some loc ->
                 positioned n segments (Z.of_nat j) loc)); [| |exact Erun].
  - split; [reflexivity | intros [|j] loc; discriminate].
  - intros k [acc d] s [acc' d2] s' _ [Hlen Hrec] Estep. cbn [fst] in *.
    apply bind_normal_inv in Estep as (loc & r2 & Eloc & Estep). inv Estep.
    split; [rewrite length_app; simpl; lia|].
    intros j loc' [[Hj Ej]|[-> ->]]%nth_error_snoc; [now apply Hrec|].
    apply location_at_positioned in Eloc.
    now replace (Z.of_nat (length acc)) with (0 + Z.of_nat (length acc) * 1)%Z by lia.
Qed.

(** C36. When the function returns, it returns one record per entry, in
    every number model. *)
Theorem generateLocationData_length id startDate numEntries segments r data r' :
  generateLocationData tza id startDate numEntries segments r = (Normal data, r') ->
  length data = Z.to_nat numEntries.
Proof. intros E. now apply generateLocationData_built in E as [Hlen _]. Qed.

(** An iteration whose segment exists builds its record. *)
Lemma location_at_defined id n segments i d r :
  array_get segments (segmentIndex i n segments) <> None ->
  returns (location_at id n segments i d) r (fun _ _ => True).
Proof.
  intros Hget.
  destruct (array_get segments (segmentIndex i n segments)) as [seg|] eqn:Eseg;
    [|congruence].
  unfold location_at. cbv zeta. rewrite Eseg.
  apply returns_bind, returns_draw, returns_bind.
  eapply returns_defined; [reflexivity|].
  apply returns_bind, returns_draw, returns_bind, returns_draw, returns_ret. exact I.
Qed.

(** In every number model the function returns, with one record per
    entry, when the segment index of every iteration is an index of the
    route. *)
Lemma generateLocationData_defined id startDate n segments r :
  (forall i, (0 <= i < n)%Z ->
     array_get segments (segmentIndex i n segments) <> None) ->
  returns (generateLocationData tza id startDate n segments) r
    (fun data _ => length data = Z.to_nat n).
Proof.
  intros Hget. unfold generateLocationData, foldM_lt. cbv zeta.
  rewrite trip_count_unit, Z.sub_0_r. apply returns_bind. eapply returns_weaken.
  - apply (returns_foldM (fun k vars (_ : R) => length (fst vars) = k)); [reflexivity|].
    intros k [data d] r1 Hk Hlen. unfold location_step. apply returns_bind.
    eapply returns_weaken; [apply location_at_defined, Hget; lia|].
    intros loc r2 _. apply returns_ret. cbn [fst] in *. rewrite length_app. simpl. lia.
  - intros [data d] r' Hlen. now apply returns_ret.
Qed.

(** What the function throws is an error that a handler catches: it never
    ends the process. *)
Lemma generateLocationData_catchable id startDate n segments :
  catchable (generateLocationData tza id startDate n segments).
Proof.
  unfold generateLocationData, foldM_lt. cbv zeta.
  apply catchable_bind; [|intros vars; apply catchable_ret].
  apply catchable_foldM. intros i [data d]. unfold location_step, location_at. cbv zeta.
  repeat (apply catchable_bind; [|intros ?]);
    auto using catchable_draw, catchable_defined, catchable_ret.
Qed.

(** The interval between two records, in milliseconds. *)
Definition interval_ms : Z := (DATA_INTERVAL_MINUTES * msPerMinute)%Z.

Lemma interval_ms_value : interval_ms = 60000%Z.
Proof. reflexivity. Qed.

(** C26. Line 66 moves the date forward by one interval of absolute time,
    in every time zone and across the boundaries of hours, days and
    months; a date pushed out of the representable range becomes invalid,
    and an invalid date stays invalid. *)
Theorem advance_spec d :
  advance tza d =
  match d with Some t => TimeClip (t + interval_ms) | None => None end.
Proof. destruct d as [t|]; [apply setMinutes_getMinutes | reflexivity]. Qed.

(** The date of iteration [j], while it stays representable. *)
Lemma advance_iter t0 j :
  (- maxTime <= t0)%Z -> (t0 + Z.of_nat j * interval_ms <= maxTime)%Z ->
  Nat.iter j (advance tza) (newDate (Some t0)) = Some (t0 + Z.of_nat j * interval_ms)%Z.
Proof.
  intros Hlo. induction j as [|j IH]; intros Hhi.
  - cbn. rewrite TimeClip_valid by lia. f_equal. lia.
  - rewrite Nat.iter_succ, IH by (rewrite interval_ms_value in *; lia).
    unfold advance. rewrite setMinutes_getMinutes.
    change (DATA_INTERVAL_MINUTES * msPerMinute)%Z with 60000%Z.
    rewrite interval_ms_value in *. rewrite TimeClip_valid by lia. f_equal. lia.
Qed.

(** Record [j] of a series that starts at a valid date and stays
    representable: its train and its time stamp. *)
Lemma generateLocationData_stamps id t0 numEntries segments r data r' j loc :
  generateLocationData tza id (Some t0) numEntries segments r = (Normal data, r') ->
  (- maxTime <= t0)%Z -> (t0 + numEntries * interval_ms <= maxTime)%Z ->
  nth_error data j = Some loc ->
  (Z.of_nat j < numEntries)%Z /\ train_id loc = id /\
  timestamp loc = Some (t0 + Z.of_nat j * interval_ms)%Z.
Proof.
  intros Erun Hlo Hhi Ej.
  apply generateLocationData_built in Erun as (Hlen & _ & Hrec). cbn [fst] in Hlen, Hrec.
  assert (j < Z.to_nat numEntries)%nat as Hj
    by (rewrite <- Hlen; apply nth_error_Some; congruence).
  assert (t0 + Z.of_nat j * interval_ms <= maxTime)%Z as Hjhi
    by (rewrite interval_ms_value in *; lia).
  destruct (Hrec _ _ Ej) as [Hid ->]. split; [lia|]. split; [exact Hid|].
  rewrite advance_iter by assumption. apply newDate_valid.
  rewrite interval_ms_value in *. lia.
Qed.

(** C6. When the function returns, record [j] is stamped [j] intervals
    after the start date: the time stamps increase strictly, one interval
    ([DATA_INTERVAL_MINUTES] minutes) apart, as long as the last one is a
    representable time value. *)
Theorem generateLocationData_timestamps id t0 numEntries segments r data r' j loc :
  generateLocationData tza id (Some t0) numEntries segments r = (Normal data, r') ->
  (- maxTime <= t0)%Z -> (t0 + numEntries * interval_ms <= maxTime)%Z ->
  nth_error data j = Some loc ->
  timestamp loc = Some (t0 + Z.of_nat j * interval_ms)%Z.
Proof.
  intros Erun Hlo Hhi Ej.
  edestruct generateLocationData_stamps as (_ & _ & Hts);
    [exact Erun | exact Hlo | exact Hhi | exact Ej | exact Hts].
Qed.

End Generic.

(** ** The type of a record

    What holds of every record in every number model, under the laws of
    the integers and of the identifiers ([EntropyLaws]). *)

(** The schema of a record of train [id]: it carries the train's
    identifier, a speed in [30, 120] and a direction in [0, 360]. *)
Definition well_formed {num} (id : Z) (loc : Location num) : bool :=
  ((train_id loc =? id) && (30 <=? speed loc) && (speed loc <=? 120)
   && (0 <=? direction loc) && (direction loc <=? 360))%Z.

Section Typed.
Context {num : Type} `{JSNum num} {R : Type} {E : Entropy num R} {L : EntropyLaws num R}.
Variable tza : Z.

Implicit Types (segments : list (Segment num)) (r : R) (startDate : Date).

Lemma well_formed_spec id (loc : Location num) :
  well_formed id loc = true <->
  train_id loc = id /\ (30 <= speed loc <= 120)%Z /\ (0 <= direction loc <= 360)%Z.
Proof. unfold well_formed. rewrite !andb_true_iff, Z.eqb_eq, !Z.leb_le. tauto. Qed.

(** What an iteration that returns has drawn: a well-formed record under
    an identifier never issued before, which is issued from then on. *)
Definition drawn (id : Z) r (loc : Location num) (r' : R) : Prop :=
  well_formed id loc = true /\
  ~ issued r (location_id loc) /\ issued r' (location_id loc) /\
  forall u, issued r u -> issued r' u.

Lemma location_at_drawn id n segments i d r loc r' :
  location_at id n segments i d r = (Normal loc, r') -> drawn id r loc r'.
Proof.
  unfold location_at. cbv zeta. intros Eb.
  apply bind_normal_inv in Eb as (u & r1 & [-> ->]%draw_normal_inv & Eb).
  apply bind_normal_inv in Eb as (seg & r2 & [_ ->]%defined_normal_inv & Eb).
  apply bind_normal_inv in Eb as (sp & r3 & [-> ->]%draw_normal_inv & Eb).
  apply bind_normal_inv in Eb as (dir & r4 & [-> ->]%draw_normal_inv & Eb).
  inv Eb. split; [|split; [|split]]; cbn [location_id].
  - apply well_formed_spec. cbn. repeat split; try apply int_range; lia.
  - apply uuid_fresh.
  - apply int_keeps, int_keeps, uuid_issued.
  - intros u Hu. now apply int_keeps, int_keeps, uuid_keeps.
Qed.

(** The invariant of the loop on the records built so far, started from
    the entropy state [r]. *)
Definition typed (id : Z) r (data : list (Location num)) (r' : R) : Prop :=
  (forall u, issued r u -> issued r' u) /\
  (forall loc, In loc data ->
     issued r' (location_id loc) /\ ~ issued r (location_id loc)) /\
  NoDup (map location_id data) /\
  forallb (well_formed id) data = true.

Lemma location_step_typed id n segments r i vars r1 vars' r2 :
  typed id r (fst vars) r1 ->
  location_step tza id n segments i vars r1 = (Normal vars', r2) ->
  typed id r (fst vars') r2.
Proof.
  destruct vars as [data d]. intros (Hmono & Hids & Hnd & Hwf) Eb.
  apply bind_normal_inv in Eb as (loc & r' & Eloc & Eb). inv Eb.
  apply location_at_drawn in Eloc as (Hloc & Hfresh & Hiss & Hkeep).
  unfold typed. cbn [fst] in *. split; [auto|]. split; [|split].
  - intros loc' [Hin|[<-|[]]]%in_app_or; [destruct (Hids _ Hin)|]; auto.
  - apply NoDup_map_snoc; [assumption|].
    intros y Hy Eq. apply Hfresh. rewrite <- Eq. now apply Hids.
  - rewrite forallb_app, Hwf. cbn. now rewrite Hloc.
Qed.

(** The invariant holds of every series the function returns. *)
Lemma generateLocationData_typed id startDate numEntries segments r data r' :
  generateLocationData tza id startDate numEntries segments r = (Normal data, r') ->
  typed id r data r'.
Proof.
  unfold generateLocationData, foldM_lt. cbv zeta. intros Eb.
  apply bind_normal_inv in Eb as ([data' d'] & r1 & Eb & Er). inv Er.
  change (typed id r (fst (data, d')) r').
  eapply (foldM_partial (fun _ vars r' => typed id r (fst vars) r')); [| |exact Eb].
  - split; [auto|]. split; [intros loc []|]. split; [constructor | reflexivity].
  - intros k vars r1' vars' r2 _. apply location_step_typed.
Qed.

(** C9. Type.  In every number model, binary64 included, every record
    the function returns is well formed: it carries the train's
    identifier, a speed in [30, 120] and a direction in [0, 360]. *)
Theorem generateLocationData_well_formed id startDate numEntries segments r data r' :
  generateLocationData tza id startDate numEntries segments r = (Normal data, r') ->
  forallb (well_formed id) data = true.
Proof. intros Erun. now apply generateLocationData_typed in Erun as (_ & _ & _ & Hwf). Qed.

(** C21. In every number model the identifiers of a series are pairwise
    distinct; none of them had been issued before the call and all of
    them are issued after it, whenever the source of identifiers never
    repeats one ([EntropyLaws]). *)
Theorem generateLocationData_unique_ids id startDate n segments r data r' :
  generateLocationData tza id startDate n segments r = (Normal data, r') ->
  NoDup (map location_id data) /\
  forall loc, In loc data ->
    ~ issued r (location_id loc) /\ issued r' (location_id loc).
Proof.
  intros Erun. apply generateLocationData_typed in Erun as (_ & Hids & Hnd & _).
  split; [assumption|]. intros loc Hin. now destruct (Hids _ Hin).
Qed.

End Typed.

(** ** Abstract specification: where record [i] of [n] lies

    With [k] segments, record [i] is placed on segment [bucket i n k] at
    the fraction [progress i n k] of its length. *)

Definition bucket (i n k : Z) : Z := (i * k / n)%Z.

Definition progress (i n k : Z) : Q := inject_Z ((i * k) mod n) / inject_Z n.

Lemma bucket_range i n k : (0 <= i < n)%Z -> (0 < k)%Z -> (0 <= bucket i n k < k)%Z.
Proof.
  intros Hi Hk. unfold bucket. split.
  - apply Z.div_pos; nia.
  - apply Z.div_lt_upper_bound; nia.
Qed.

Lemma progress_range i n k : (0 < n)%Z -> 0 <= progress i n k < 1.
Proof.
  intros Hn. unfold progress. pose proof (Z.mod_pos_bound (i * k) n Hn) as [H0 H1].
  pose proof (inject_Z_pos Hn). split.
  - apply Qdiv_nonneg; [now apply inject_Z_nonneg | assumption].
  - apply Qlt_shift_div_r; [assumption|]. rewrite Qmult_1_l. now rewrite <- Zlt_Qlt.
Qed.

(** Segment and fraction add up to the fraction [i / n] of the route. *)
Lemma bucket_progress i n k : (0 < n)%Z -> (0 < k)%Z ->
  (inject_Z (bucket i n k) + progress i n k) / inject_Z k == inject_Z i / inject_Z n.
Proof.
  intros Hn Hk. unfold bucket, progress.
  rewrite <- Qfrac_div_Z by assumption. rewrite inject_Z_mult.
  field. split; apply inject_Z_nonzero; lia.
Qed.

(** *** The buckets along the route

    For at least as many entries as segments the buckets go up the route
    in steps of at most one, from the first segment to the last. *)

Lemma bucket_first n k : bucket 0 n k = 0%Z.
Proof. reflexivity. Qed.

Lemma bucket_last n k : (0 < k <= n)%Z -> bucket (n - 1) n k = (k - 1)%Z.
Proof. intros Hk. unfold bucket. symmetry. apply Z.div_unique with (n - k)%Z; lia. Qed.

Lemma bucket_next i n k :
  (0 <= i)%Z -> (0 < k <= n)%Z ->
  (bucket i n k <= bucket (i + 1) n k <= bucket i n k + 1)%Z.
Proof.
  intros Hi Hk. unfold bucket. split.
  - apply Z.div_le_mono; nia.
  - rewrite <- (Z.div_add (i * k) 1 n) by lia. apply Z.div_le_mono; nia.
Qed.

(** Every bucket holds an entry: the first of bucket [j] is entry
    [j * n / k], rounded up. *)
Lemma bucket_onto j n k :
  (0 < k <= n)%Z -> (0 <= j < k)%Z ->
  exists i, (0 <= i < n)%Z /\ bucket i n k = j.
Proof.
  intros Hk Hj. exists ((j * n + k - 1) / k)%Z.
  pose proof (Z.div_mod (j * n + k - 1) k ltac:(lia)) as Hdm.
  pose proof (Z.mod_pos_bound (j * n + k - 1) k ltac:(lia)) as Hm.
  split; [split; [apply Z.div_pos; nia | apply Z.div_lt_upper_bound; nia]|].
  unfold bucket. symmetry. apply Z.div_unique with ((j * n + k - 1) / k * k - j * n)%Z; nia.
Qed.

Section Exact.
Context {num : Type} {N : JSNum num} {X : ExactNum num}.
Context {R : Type} {E : Entropy num R} {L : EntropyLaws num R}.
Variable tza : Z.

Implicit Types (segments : list (Segment num)) (r : R) (startDate : Date).

Lemma interpolate_exact (a b p : num) qa qb qp :
  exactly a qa -> exactly b qb -> exactly p qp ->
  exactly (interpolate a b p) (lerp qa qb qp).
Proof. intros Ha Hb Hp. unfold interpolate, lerp. exact_num. Qed.

Lemma bucket_divisor_nonzero n k : (0 < n)%Z -> (0 < k)%Z ->
  ~ inject_Z n / inject_Z k == 0.
Proof.
  intros Hn Hk E0.
  pose proof (Qdiv_pos (inject_Z_pos Hn) (inject_Z_pos Hk)). lra.
Qed.

(** The index of line 51 is [bucket]. *)
Lemma segmentIndex_exact i n segments :
  (0 < n)%Z -> segments <> [] ->
  exactly (segmentIndex i n segments)
    (inject_Z (bucket i n (Z.of_nat (length segments)))).
Proof.
  intros Hn Hne. assert (0 < Z.of_nat (length segments))%Z as Hk
    by (destruct segments; [congruence | simpl; lia]).
  eapply exactly_eq.
  - unfold segmentIndex. exact_num;
      [now apply inject_Z_nonzero, Z.neq_sym, Z.lt_neq | now apply bucket_divisor_nonzero].
  - now rewrite Qfloor_bucket.
Qed.

(** The progress of line 53 is [progress]. *)
Lemma segmentProgress_exact i n segments :
  (0 <= i)%Z -> (0 < n)%Z -> segments <> [] ->
  exactly (segmentProgress i n segments)
    (progress i n (Z.of_nat (length segments))).
Proof.
  intros Hi Hn Hne. assert (0 < Z.of_nat (length segments))%Z as Hk
    by (destruct segments; [congruence | simpl; lia]).
  pose proof (inject_Z_nonzero (Z.neq_sym _ _ (Z.lt_neq _ _ Hk))) as Hk0.
  pose proof (bucket_divisor_nonzero Hn Hk) as Hd.
  eapply exactly_eq.
  - unfold segmentProgress. exact_num; assumption.
  - now apply Qrem_bucket.
Qed.

(** The segment read in iteration [i] exists. *)
Lemma segment_lookup i n segments :
  (0 <= i < n)%Z -> segments <> [] ->
  exists seg,
    array_get segments (segmentIndex i n segments) = Some seg /\
    nth_error segments (Z.to_nat (bucket i n (Z.of_nat (length segments)))) = Some seg.
Proof.
  intros Hi Hne. assert (0 < Z.of_nat (length segments))%Z as Hk
    by (destruct segments; [congruence | simpl; lia]).
  pose proof (bucket_range Hi Hk) as Hb.
  destruct (nth_error segments (Z.to_nat (bucket i n (Z.of_nat (length segments)))))
    as [seg|] eqn:Eseg; [|apply nth_error_None in Eseg; lia].
  exists seg. split; [|reflexivity].
  erewrite exactly_array_get; [exact Eseg | apply segmentIndex_exact; [lia | assumption] | lia].
Qed.

(** The position that line 52 reads in iteration [i]. *)
Lemma segmentIndex_bucket i n segments :
  (0 <= i < n)%Z -> segments <> [] ->
  to_index (segmentIndex i n segments)
  = Some (Z.to_nat (bucket i n (Z.of_nat (length segments)))).
Proof.
  intros Hi Hne. assert (0 < Z.of_nat (length segments))%Z as Hk
    by (destruct segments; [congruence | simpl; lia]).
  apply exactly_to_index; [apply segmentIndex_exact; [lia | assumption]|].
  apply (bucket_range Hi Hk).
Qed.

(** C20. The bucket policy of line 51, in exact arithmetic, for a route
    of [k] segments and at least [k] entries: the entries read the
    segments of the route in order and leave none out.  Entry 0 reads the
    first segment, entry [n - 1] the last, every entry reads the segment
    of the entry before it or the next, and every segment is read by some
    entry. *)
Theorem segmentIndex_sweep n segments :
  (0 < Z.of_nat (length segments) <= n)%Z ->
  to_index (segmentIndex 0 n segments) = Some 0%nat /\
  to_index (segmentIndex (n - 1) n segments) = Some (length segments - 1)%nat /\
  (forall i, (0 <= i)%Z -> (i + 1 < n)%Z ->
     exists j, to_index (segmentIndex i n segments) = Some j /\
       (to_index (segmentIndex (i + 1) n segments) = Some j \/
        to_index (segmentIndex (i + 1) n segments) = Some (S j))) /\
  (forall j, (j < length segments)%nat ->
     exists i, (0 <= i < n)%Z /\ to_index (segmentIndex i n segments) = Some j).
Proof.
  intros Hk. assert (segments <> []) as Hne by (intros ->; simpl in Hk; lia).
  split; [now rewrite segmentIndex_bucket by (assumption || lia)|].
  split; [rewrite segmentIndex_bucket, bucket_last by (assumption || lia); f_equal; lia|].
  split.
  - intros i Hi Hlt. rewrite !segmentIndex_bucket by (assumption || lia).
    eexists. split; [reflexivity|].
    pose proof (bucket_next (i:=i) Hi Hk) as Hstep.
    pose proof (bucket_range (i:=i) (n:=n) (k:=Z.of_nat (length segments))
                  ltac:(lia) ltac:(lia)) as Hb.
    destruct (Z.eq_dec (bucket (i + 1) n (Z.of_nat (length segments)))
                (bucket i n (Z.of_nat (length segments)))) as [->|Hneq];
      [now left | right; f_equal; lia].
  - intros j Hj.
    destruct (bucket_onto (j:=Z.of_nat j) Hk ltac:(lia)) as (i & Hi & Eb).
    exists i. split; [exact Hi|].
    rewrite segmentIndex_bucket, Eb by assumption. f_equal. lia.
Qed.

(** Where a record lies: on the segment [bucket], at [progress]. *)
Definition placed segments (n i : Z) (loc : Location num) : Prop :=
  let k := Z.of_nat (length segments) in
  exists seg,
    nth_error segments (Z.to_nat (bucket i n k)) = Some seg /\
    forall a b c d, at_point (start seg) a b -> at_point (end_ seg) c d ->
      exactly (loc_latitude loc) (lerp a c (progress i n k)) /\
      exactly (loc_longitude loc) (lerp b d (progress i n k)).

(** In exact arithmetic an iteration over a non-empty route returns, and
    places its record. *)
Lemma location_at_placed id n segments i d r :
  (0 <= i < n)%Z -> segments <> [] ->
  returns (location_at id n segments i d) r (fun loc _ => placed segments n i loc).
Proof.
  intros Hi Hne. destruct (segment_lookup Hi Hne) as (seg & Eget & Enth).
  unfold location_at. cbv zeta.
  apply returns_bind, returns_draw, returns_bind.
  eapply returns_defined; [exact Eget|].
  apply returns_bind, returns_draw, returns_bind, returns_draw, returns_ret.
  exists seg. split; [exact Enth|]. intros a b c d0 [Ha Hb] [Hc Hd].
  cbn [loc_latitude loc_longitude].
  split; apply interpolate_exact; try assumption;
    apply segmentProgress_exact; (lia || assumption).
Qed.

(** The invariant of the loop after [k] iterations: every record built
    so far is placed. *)
Definition placed_all (n : Z) segments (k : nat) (data : list (Location num)) : Prop :=
  length data = k /\
  forall j loc, nth_error data j = Some loc -> placed segments n (Z.of_nat j) loc.

Lemma location_step_placed id n segments k vars r1 :
  (k < Z.to_nat n)%nat -> segments <> [] ->
  placed_all n segments k (fst vars) ->
  returns (location_step tza id n segments (0 + Z.of_nat k * 1) vars) r1
    (fun vars' _ => placed_all n segments (S k) (fst vars')).
Proof.
  intros Hk Hne [Hlen Hrec]. destruct vars as [data d]. cbn [fst] in *.
  unfold location_step. apply returns_bind.
  eapply returns_weaken; [apply location_at_placed; [lia | assumption]|].
  intros loc r2 Hpl. apply returns_ret. cbn [fst].
  split; [rewrite length_app; simpl; lia|].
  intros j loc' [[Hj Ej]|[-> ->]]%nth_error_snoc; [now apply Hrec|].
  now replace (Z.of_nat (length data)) with (0 + Z.of_nat k * 1)%Z by lia.
Qed.

(** In exact arithmetic, for a non-empty route and a positive number of
    entries, the function returns one record per entry, every one
    placed. *)
Lemma generateLocationData_returns id startDate n segments r :
  (0 < n)%Z -> segments <> [] ->
  returns (generateLocationData tza id startDate n segments) r
    (fun data _ => placed_all n segments (Z.to_nat n) data).
Proof.
  intros Hn Hne. unfold generateLocationData, foldM_lt. cbv zeta.
  rewrite trip_count_unit, Z.sub_0_r.
  apply returns_bind. eapply returns_weaken.
  - apply (returns_foldM (fun k vars (_ : R) => placed_all n segments k (fst vars))).
    + split; [reflexivity | intros [|j] loc; discriminate].
    + intros k vars r1 Hk Hinv. now apply location_step_placed.
  - intros [data d] r' Hinv. now apply returns_ret.
Qed.

(** C5. In exact arithmetic, for a non-empty route and a positive number
    of entries, the function returns one record per entry: no segment
    index is out of range.  Record [j] carries the train's identifier, a
    speed in [30, 120] and a direction in [0, 360], and lies on segment
    [bucket j n k] at the fraction [progress j n k] of its length. *)
Theorem generateLocationData_total id startDate n segments r :
  (0 < n)%Z -> segments <> [] ->
  exists data r',
    generateLocationData tza id startDate n segments r = (Normal data, r') /\
    length data = Z.to_nat n /\
    forall j loc, nth_error data j = Some loc ->
      train_id loc = id /\ (30 <= speed loc <= 120)%Z /\
      (0 <= direction loc <= 360)%Z /\ placed segments n (Z.of_nat j) loc.
Proof.
  intros Hn Hne.
  destruct (generateLocationData_returns id startDate r Hn Hne)
    as (data & r' & Erun & Hlen & Hrec).
  exists data, r'. split; [exact Erun|]. split; [exact Hlen|]. intros j loc Ej.
  pose proof Erun as Hwf. apply generateLocationData_typed in Hwf as (_ & _ & _ & Hwf).
  rewrite forallb_forall in Hwf.
  pose proof (nth_error_In _ _ Ej) as Hin.
  apply Hwf, well_formed_spec in Hin as (Hid & Hsp & Hdir). auto.
Qed.

(** A record placed on a route built by [generatePathSegments] lies on
    the straight line, at the fraction [j / n]. *)
Lemma placed_on_route startCoords endCoords slat slng elat elng numSegments n j loc :
  at_point startCoords slat slng -> at_point endCoords elat elng ->
  (0 < numSegments)%Z -> (0 <= j < n)%Z ->
  placed (generatePathSegments startCoords endCoords numSegments) n j loc ->
  exactly (loc_latitude loc) (lerp slat elat (inject_Z j / inject_Z n)) /\
  exactly (loc_longitude loc) (lerp slng elng (inject_Z j / inject_Z n)).
Proof.
  intros Hs He Hk Hj (seg & Eseg & Hpos). cbv zeta in Hpos.
  rewrite route_size in Eseg, Hpos by lia.
  pose proof (bucket_range (k:=numSegments) Hj Hk) as Hb.
  destruct (segment_on_line startCoords endCoords slat slng elat elng
              numSegments (Z.to_nat (bucket j n numSegments)) Hs He ltac:(lia))
    as (seg' & Eseg' & Hstart & Hend).
  rewrite Eseg in Eseg'. inv Eseg'. rewrite Z2Nat.id in Hstart, Hend by lia.
  cbn [line_segment fst snd] in Hstart, Hend.
  destruct (Hpos _ _ _ _ Hstart Hend) as [Hlat Hlng].
  pose proof (inject_Z_nonzero (Z.neq_sym _ _ (Z.lt_neq _ _ Hk))) as Hk0.
  split; (eapply exactly_eq; [eassumption|]);
    apply lerp_segment; try assumption; apply bucket_progress; lia.
Qed.

(** Record [j] of a series over a built route lies on the line. *)
Lemma record_on_route startCoords endCoords slat slng elat elng numSegments n
    (data : list (Location num)) j loc :
  at_point startCoords slat slng -> at_point endCoords elat elng ->
  (0 < numSegments)%Z ->
  length data = Z.to_nat n ->
  (forall j loc, nth_error data j = Some loc ->
     placed (generatePathSegments startCoords endCoords numSegments) n (Z.of_nat j) loc) ->
  nth_error data j = Some loc ->
  exactly (loc_latitude loc) (lerp slat elat (inject_Z (Z.of_nat j) / inject_Z n)) /\
  exactly (loc_longitude loc) (lerp slng elng (inject_Z (Z.of_nat j) / inject_Z n)).
Proof.
  intros Hs He Hk Hlen Hrec Ej.
  assert (j < length data)%nat as Hj by (apply nth_error_Some; congruence).
  pose proof (Hrec _ _ Ej) as Hpl.
  eapply placed_on_route in Hpl; [apply Hpl | eassumption.. | lia].
Qed.

(** C1. Refinement.  In exact arithmetic the route builder composed with
    the synthesizer is linear interpolation: record [j] of [n] lies at
    [start + (end - start) * j / n], whatever the number of segments. *)
Theorem generateLocationData_linear id startDate n startCoords endCoords
    slat slng elat elng numSegments r :
  at_point startCoords slat slng -> at_point endCoords elat elng ->
  (0 < numSegments)%Z -> (0 < n)%Z ->
  exists data r',
    generateLocationData tza id startDate n
      (generatePathSegments startCoords endCoords numSegments) r = (Normal data, r') /\
    length data = Z.to_nat n /\
    forall j loc, nth_error data j = Some loc ->
      exactly (loc_latitude loc) (lerp slat elat (inject_Z (Z.of_nat j) / inject_Z n)) /\
      exactly (loc_longitude loc) (lerp slng elng (inject_Z (Z.of_nat j) / inject_Z n)).
Proof.
  intros Hs He Hk Hn.
  destruct (generateLocationData_returns id startDate r Hn
              (route_nonempty startCoords endCoords numSegments Hk))
    as (data & r' & Erun & Hlen & Hrec).
  exists data, r'. split; [assumption|]. split; [assumption|].
  intros j loc Ej.
  eapply record_on_route; [exact Hs | exact He | exact Hk | exact Hlen | exact Hrec | exact Ej].
Qed.

(** C25. In exact arithmetic every record lies between the end points
    of the route, in latitude and in longitude. *)
Theorem generateLocationData_within id startDate n startCoords endCoords
    slat slng elat elng numSegments r data r' loc :
  at_point startCoords slat slng -> at_point endCoords elat elng ->
  (0 < numSegments)%Z -> (0 < n)%Z ->
  generateLocationData tza id startDate n
    (generatePathSegments startCoords endCoords numSegments) r = (Normal data, r') ->
  In loc data ->
  exists lat lng,
    exactly (loc_latitude loc) lat /\ exactly (loc_longitude loc) lng /\
    Qmin slat elat <= lat <= Qmax slat elat /\
    Qmin slng elng <= lng <= Qmax slng elng.
Proof.
  intros Hs He Hk Hn Erun (j & Ej)%In_nth_error.
  pose proof (returns_inv (generateLocationData_returns id startDate r Hn
                (route_nonempty startCoords endCoords numSegments Hk)) Erun)
    as (Hlen & Hrec).
  edestruct record_on_route as [Hlat Hlng];
    [exact Hs | exact He | exact Hk | exact Hlen | exact Hrec | exact Ej |].
  assert (j < length data)%nat as Hj by (apply nth_error_Some; congruence).
  assert (0 <= inject_Z (Z.of_nat j) / inject_Z n <= 1) as Ht.
  { pose proof (inject_Z_pos Hn). split.
    - apply Qdiv_nonneg; [apply inject_Z_nonneg; lia | assumption].
    - apply Qle_shift_div_r; [assumption|]. rewrite Qmult_1_l, <- Zle_Qle. lia. }
  eexists _, _. split; [exact Hlat|]. split; [exact Hlng|].
  split; now apply lerp_between.
Qed.

End Exact.

(** ** Concrete runs, in the rationals with the source [lcg] *)

Definition seed : lcg := {| lcg_state := 2024; lcg_serial := 0 |}.

(** The offset of Sri Lanka Standard Time, UTC+05:30. *)
Definition tza_colombo : Z := 19800000.

(** The route of the specification's scenario: two segments from (6, 80)
    to (7, 81). *)
Definition scenario_route : list (Segment Q) :=
  generatePathSegments scenario_start scenario_end 2.

(** [synthesize(vehicleId = 1, start = T0, sampleCount = 4, route)] with
    [T0] the epoch. *)
Definition scenario_run : completion (list (Location Q)) * lcg :=
  generateLocationData tza_colombo 1 (Some 0%Z) 4 scenario_route seed.

Definition scenario_data : list (Location Q) :=
  match fst scenario_run with
  | Normal data => data
  | Throw _ => []
  end.

Lemma scenario_run_normal : scenario_run = (Normal scenario_data, snd scenario_run).
Proof. vm_compute. reflexivity. Qed.

Lemma scenario_route_nonempty : scenario_route <> [].
Proof. discriminate. Qed.

Lemma generateLocationData_empty_route_witness :
  generateLocationData (num:=Q) tza_colombo 1 (Some 0%Z) 4 [] seed
  = (Throw TypeError, snd (uuidv4 seed)).
Proof. apply generateLocationData_empty_route. lia. Defined.

Lemma generateLocationData_no_entries_witness :
  generateLocationData tza_colombo 1 (Some 0%Z) 0 scenario_route seed = (Normal [], seed).
Proof. apply generateLocationData_no_entries. lia. Defined.

Lemma generateLocationData_terminates_witness :
  generateLocationData_guarded tza_colombo 4 1 (Some 0%Z) 4 scenario_route seed =
  bind (generateLocationData tza_colombo 1 (Some 0%Z) 4 scenario_route)
    (fun data => ret (Some data)) seed.
Proof. apply generateLocationData_terminates. simpl. lia. Defined.

Lemma generateLocationData_length_witness : length scenario_data = Z.to_nat 4.
Proof. eapply generateLocationData_length. exact scenario_run_normal. Defined.

Lemma scenario_last : exists loc, nth_error scenario_data 3 = Some loc.
Proof. vm_compute. eexists. reflexivity. Qed.

Lemma generateLocationData_timestamps_witness :
  exists loc, nth_error scenario_data 3 = Some loc /\
    timestamp loc = Some (0 + Z.of_nat 3 * interval_ms)%Z.
Proof.
  destruct scenario_last as [loc Hloc]. exists loc. split; [exact Hloc|].
  eapply generateLocationData_timestamps;
    [exact scenario_run_normal | unfold maxTime; lia | vm_compute; discriminate | exact Hloc].
Defined.

Lemma generateLocationData_total_witness :
  exists data r',
    generateLocationData tza_colombo 1 (Some 0%Z) 4 scenario_route seed
      = (Normal data, r') /\
    length data = Z.to_nat 4 /\
    forall j loc, nth_error data j = Some loc ->
      train_id loc = 1%Z /\ (30 <= speed loc <= 120)%Z /\
      (0 <= direction loc <= 360)%Z /\ placed scenario_route 4 (Z.of_nat j) loc.
Proof.
  apply (generateLocationData_total tza_colombo 1 (Some 0%Z) seed);
    [lia | exact scenario_route_nonempty].
Defined.

Lemma generateLocationData_unique_ids_witness :
  NoDup (map location_id scenario_data) /\
  forall loc, In loc scenario_data ->
    ~ issued seed (location_id loc) /\ issued (snd scenario_run) (location_id loc).
Proof. eapply generateLocationData_unique_ids. exact scenario_run_normal. Defined.

Lemma generateLocationData_well_formed_witness :
  forallb (well_formed 1) scenario_data = true.
Proof. eapply generateLocationData_well_formed. exact scenario_run_normal. Defined.

Lemma generateLocationData_linear_witness :
  exists data r',
    generateLocationData tza_colombo 1 (Some 0%Z) 4
      (generatePathSegments scenario_start scenario_end 2) seed = (Normal data, r') /\
    length data = Z.to_nat 4 /\
    forall j loc, nth_error data j = Some loc ->
      exactly (loc_latitude loc) (lerp 6 7 (inject_Z (Z.of_nat j) / inject_Z 4)) /\
      exactly (loc_longitude loc) (lerp 80 81 (inject_Z (Z.of_nat j) / inject_Z 4)).
Proof.
  apply (generateLocationData_linear tza_colombo 1 (Some 0%Z) seed
           scenario_start_at scenario_end_at); lia.
Defined.

Lemma generateLocationData_within_witness :
  exists loc, In loc scenario_data /\
  exists lat lng,
    exactly (loc_latitude loc) lat /\ exactly (loc_longitude loc) lng /\
    Qmin 6 7 <= lat <= Qmax 6 7 /\ Qmin 80 81 <= lng <= Qmax 80 81.
Proof.
  destruct scenario_last as [loc Hloc%nth_error_In]. exists loc. split; [exact Hloc|].
  eapply generateLocationData_within;
    [exact scenario_start_at | exact scenario_end_at | | | exact scenario_run_normal
    | exact Hloc]; lia.
Defined.

Lemma segmentIndex_sweep_witness :
  to_index (segmentIndex 0 4 scenario_route) = Some 0%nat /\
  to_index (segmentIndex (4 - 1) 4 scenario_route) = Some (length scenario_route - 1)%nat /\
  (forall i, (0 <= i)%Z -> (i + 1 < 4)%Z ->
     exists j, to_index (segmentIndex i 4 scenario_route) = Some j /\
       (to_index (segmentIndex (i + 1) 4 scenario_route) = Some j \/
        to_index (segmentIndex (i + 1) 4 scenario_route) = Some (S j))) /\
  (forall j, (j < length scenario_route)%nat ->
     exists i, (0 <= i < 4)%Z /\ to_index (segmentIndex i 4 scenario_route) = Some j).
Proof. apply segmentIndex_sweep. vm_compute. split; [reflexivity | discriminate]. Defined.
