(* ===== verification/Batch.v ===== *)
(** * Batch: writing a series to the collection in batches

    Models dataGenerator.js lines 72-82 ([insertDataInBatches]).  The
    server and the console are a collaborator of the program: the class
    [Sink] says what the program calls ([collection.insertMany],
    [console.log] and [console.error]) and what can be observed afterwards
    (the documents of each collection, the lines written), the class
    [SinkLaws] what the program may rely on.  [insertMany] inserts in
    order into the collection of its handle and stops at the first
    document it cannot insert: on success the whole batch is stored, on
    failure a prefix of it, and no other collection changes.

    [store] is an executable sink driven by a list of outcomes, one per
    call; [journal] is a sink that keeps the calls of [insertMany] apart,
    against which the batches of the loop are compared with the reference
    definition [chunks].  The theorems come in three groups: the loop
    against the reference ([insertDataInBatches_chunks]), the contract of
    the function over every lawful sink ([insertDataInBatches_returns],
    [insertDataInBatches_complete]), and what exactly is stored and lost
    on the executable sink under any script of failures
    ([insertDataInBatches_script]). *)

From Stdlib Require Import List ZArith Lia Bool.
From Stdlib Require String.
From Equations Require Import Equations.
From S2P Require Import Prelude Mongo Telemetry.
Import ListNotations String.StringSyntax.

Local Open Scope js_scope.
Local Open Scope Z_scope.

(** ** The console *)

(** The lines the program writes, by the statement that writes them. *)
Inductive message : Type :=
| ConnectedSuccessfully
| ErrorConnecting (err : js_error)
| InsertedBatch (n : Z)
| ErrorInsertingBatch (n : Z) (err : js_error)
| InsertedTrain (trainId : Z)
| ErrorDuringGeneration (err : js_error)
| Complete
| UncaughtError (err : js_error).

(** The two streams of the console: [console.log] writes to the first,
    [console.error] to the second. *)
Inductive stream : Type :=
| Stdout
| Stderr.

(** ** The sink *)

Class Sink (doc S : Type) : Type := {
  (** [collection.insertMany(batch)] *)
  insertMany : Collection -> list doc -> M S unit;
  (** a line of [console.log] or [console.error] on its stream *)
  write : stream -> message -> S -> S;
  (** the documents of a collection, in insertion order *)
  documents : Collection -> S -> list doc;
  (** the lines written so far, as a terminal shows them: of both streams,
      in the order in which they were written *)
  console : S -> list message
}.

Class SinkLaws (doc S : Type) {K : Sink doc S} : Prop := {
  insert_ok : forall coll batch s s',
    insertMany coll batch s = (Normal tt, s') ->
    documents coll s' = documents coll s ++ batch /\ console s' = console s;
  insert_fails : forall coll batch s err s',
    insertMany coll batch s = (Throw err, s') ->
    is_exit err = false /\ console s' = console s /\
    exists k, (k <= length batch)%nat /\
      documents coll s' = documents coll s ++ firstn k batch;
  insert_others : forall coll other batch s r s',
    insertMany coll batch s = (r, s') -> other <> coll ->
    documents other s' = documents other s;
  write_documents : forall out m coll s,
    documents coll (write out m s) = documents coll s;
  write_console : forall out m s, console (write out m s) = console s ++ [m]
}.

Set Implicit Arguments.

(** ** Operations *)

(** [a.slice(i, j)] for [0 <= i]: the elements from index [i] up to, not
    including, index [j]; fewer when the array ends before. *)
Definition slice {A} (a : list A) (i j : Z) : list A :=
  firstn (Z.to_nat (j - i)) (skipn (Z.to_nat i) a).

Section Definitions.
Context {doc S : Type} {K : Sink doc S}.

Definition console_log (m : message) : M S unit :=
  fun s => (Normal tt, write Stdout m s).

Definition console_error (m : message) : M S unit :=
  fun s => (Normal tt, write Stderr m s).

(** One iteration of the loop (lines 74-80).  [i / BATCH_SIZE] is the
    quotient of numbers; [i] is a multiple of [BATCH_SIZE], so that it is
    the quotient of integers. *)
Definition insert_batch (collection : Collection) (data : list doc) (i : Z) : M S unit :=
  let batch := slice data i (i + BATCH_SIZE) in
  try_catch
    (_ <- insertMany collection batch ;;
     console_log (InsertedBatch (i / BATCH_SIZE + 1)))
    (fun err => console_error (ErrorInsertingBatch (i / BATCH_SIZE + 1) err)).

Definition insertDataInBatches (collection : Collection) (data : list doc) : M S unit :=
  foldM_lt 0 (Z.of_nat (length data)) BATCH_SIZE
    (fun i _ => insert_batch collection data i) tt.

(** The source loop, guard first, under fuel: [None] when the fuel runs
    out before the guard [i < data.length] fails. *)
Definition insertDataInBatches_guarded (fuel : nat) (collection : Collection)
    (data : list doc) : M S (option unit) :=
  foldM_guarded fuel (Z.of_nat (length data)) BATCH_SIZE
    (fun i _ => insert_batch collection data i) 0 tt.

End Definitions.

(** ** Specification *)

(** The batches of a series: slice [j] starts at [j * BATCH_SIZE]. *)
Definition batches {A} (data : list A) : list (list A) :=
  map (fun i => slice data i (i + BATCH_SIZE))
    (zrange 0 BATCH_SIZE (trip_count 0 (Z.of_nat (length data)) BATCH_SIZE)).

(** Reference definition: a list cut into chunks of [n] elements, by
    taking [n] and cutting the rest. *)
Equations? chunks {A} (n : nat) (l : list A) : list (list A) by wf (length l) lt :=
  chunks 0 _ := [];
  chunks _ [] := [];
  chunks n l := firstn n l :: chunks n (skipn n l).
Proof. rewrite length_skipn. simpl. lia. Qed.

(** What batch number [n] leaves behind: all of it and the line of
    success, or a prefix of it and the line of the error. *)
Inductive batch_outcome {doc} (n : Z) (batch : list doc) : list doc * message -> Prop :=
| batch_inserted : batch_outcome n batch (batch, InsertedBatch n)
| batch_failed k err :
    (k <= length batch)%nat ->
    batch_outcome n batch (firstn k batch, ErrorInsertingBatch n err).

(** The outcome of the iteration at counter [i]. *)
Definition outcome_at {doc} (data : list doc) (i : Z) (r : list doc * message) : Prop :=
  batch_outcome (i / BATCH_SIZE + 1) (slice data i (i + BATCH_SIZE)) r.

(** [l] with some elements left out. *)
Inductive sublist {A} : list A -> list A -> Prop :=
| sublist_nil : sublist [] []
| sublist_keep x l l' : sublist l l' -> sublist (x :: l) (x :: l')
| sublist_drop x l l' : sublist l l' -> sublist l (x :: l').

(** ** An executable sink *)

(** The documents of the server in insertion order, each with the
    collection it is in.  [outcomes] says how the next calls of
    [insertMany] end: [None] for a success, [Some k] for a failure after
    [k] documents; when the list is used up every call succeeds. *)
Record store (doc : Type) : Type := {
  store_documents : list (Collection * doc);
  store_console : list (stream * message);
  outcomes : list (option nat)
}.

(** The documents of [coll] among tagged documents. *)
Definition select {doc} (coll : Collection) (tagged : list (Collection * doc)) : list doc :=
  map snd (filter (fun d => same_collection coll (fst d)) tagged).

Definition store_insertMany {doc} (coll : Collection) (batch : list doc) :
    M (store doc) unit :=
  fun s =>
    match outcomes s with
    | Some k :: rest =>
        (Throw MongoError,
         {| store_documents := store_documents s ++ map (pair coll) (firstn k batch);
            store_console := store_console s;
            outcomes := rest |})
    | _ =>
        (Normal tt,
         {| store_documents := store_documents s ++ map (pair coll) batch;
            store_console := store_console s;
            outcomes := tl (outcomes s) |})
    end.

Definition store_write {doc} (out : stream) (m : message) (s : store doc) : store doc :=
  {| store_documents := store_documents s;
     store_console := store_console s ++ [(out, m)];
     outcomes := outcomes s |}.

#[export] Instance store_Sink {doc} : Sink doc (store doc) := {
  insertMany := store_insertMany;
  write := store_write;
  documents := fun coll s => select coll (store_documents s);
  console := fun s => map snd (store_console s)
}.

(** A sink that accepts everything and keeps the calls of [insertMany]
    apart. *)
Record journal (doc : Type) : Type := {
  calls : list (Collection * list doc);
  journal_console : list message
}.

#[export] Instance journal_Sink {doc} : Sink doc (journal doc) := {
  insertMany := fun coll batch s =>
    (Normal tt,
     {| calls := calls s ++ [(coll, batch)]; journal_console := journal_console s |});
  write := fun _ m s =>
    {| calls := calls s; journal_console := journal_console s ++ [m] |};
  documents := fun coll s => concat (select coll (calls s));
  console := @journal_console doc
}.

(** ** Slices *)

Lemma firstn_plus {A} (l : list A) i m :
  firstn (i + m) l = firstn i l ++ firstn m (skipn i l).
Proof.
  revert l. induction i as [|i IH]; intros l; [reflexivity|].
  destruct l as [|x l]; simpl; [now rewrite firstn_nil | now rewrite IH].
Qed.

Lemma length_slice {A} (a : list A) i j :
  0 <= i -> length (slice a i j) = Nat.min (Z.to_nat (j - i)) (length a - Z.to_nat i).
Proof. intros Hi. unfold slice. now rewrite length_firstn, length_skipn. Qed.

(** The first [k] slices of width [w] are the first [k * w] elements. *)
Lemma concat_slices {A} (data : list A) w k :
  0 < w ->
  concat (map (fun i => slice data i (i + w)) (zrange 0 w k))
  = firstn (k * Z.to_nat w) data.
Proof.
  intros Hw. induction k as [|k IH]; [reflexivity|].
  rewrite zrange_snoc, map_app, concat_app, IH. cbn [map concat]. rewrite app_nil_r.
  unfold slice. replace (0 + Z.of_nat k * w + w - (0 + Z.of_nat k * w)) with w by lia.
  replace (Z.to_nat (0 + Z.of_nat k * w)) with (k * Z.to_nat w)%nat by nia.
  rewrite <- firstn_plus. f_equal. lia.
Qed.

(** The number of batches: the number of records over [BATCH_SIZE],
    rounded up. *)
Lemma length_batches {A} (data : list A) :
  Z.of_nat (length (batches data)) = (Z.of_nat (length data) + BATCH_SIZE - 1) / BATCH_SIZE.
Proof.
  unfold batches. rewrite length_map, length_zrange. unfold trip_count.
  rewrite Z2Nat.id; [f_equal; lia|]. apply Z.div_pos; unfold BATCH_SIZE; lia.
Qed.

Lemma sublist_refl {A} (l : list A) : sublist l l.
Proof. induction l; constructor; assumption. Qed.

Lemma sublist_firstn {A} (l : list A) k : sublist (firstn k l) l.
Proof.
  revert k. induction l as [|x l IH]; intros k.
  - rewrite firstn_nil. constructor.
  - destruct k as [|k]; simpl.
    + apply sublist_drop, (IH 0%nat).
    + apply sublist_keep, IH.
Qed.

Lemma sublist_app {A} (l1 l1' l2 l2' : list A) :
  sublist l1 l1' -> sublist l2 l2' -> sublist (l1 ++ l2) (l1' ++ l2').
Proof. induction 1; intros H2; simpl; try constructor; auto. Qed.

Lemma sublist_length {A} (l l' : list A) : sublist l l' -> (length l <= length l')%nat.
Proof. induction 1; simpl; lia. Qed.

(** A sublist as long as the list is the list. *)
Lemma sublist_full {A} (l l' : list A) :
  sublist l l' -> length l = length l' -> l = l'.
Proof.
  induction 1 as [|x l l' Hs IH|x l l' Hs IH]; simpl; intros Hlen; [reflexivity| |].
  - f_equal. apply IH. lia.
  - apply sublist_length in Hs. lia.
Qed.

Lemma sublist_In {A} (l l' : list A) x : sublist l l' -> In x l -> In x l'.
Proof. induction 1; simpl; intuition. Qed.

Lemma sublist_map {A B} (f : A -> B) (l l' : list A) :
  sublist l l' -> sublist (map f l) (map f l').
Proof. induction 1; simpl; constructor; assumption. Qed.

Lemma sublist_NoDup {A} (l l' : list A) : sublist l l' -> NoDup l' -> NoDup l.
Proof.
  induction 1 as [|x l l' Hs IH|x l l' Hs IH]; intros Hnd; [constructor| |]; inv Hnd; auto.
  constructor; [|auto]. intros Hin. eapply sublist_In in Hin; [|exact Hs]. contradiction.
Qed.

(** ** The slices of the loop and the chunks of the reference *)

Lemma slice_skipn {A} (l : list A) (w : nat) i j :
  0 <= i -> slice l (i + Z.of_nat w) (j + Z.of_nat w) = slice (skipn w l) i j.
Proof.
  intros Hi. unfold slice. rewrite skipn_skipn. f_equal; [f_equal; lia | f_equal; lia].
Qed.

Lemma trip_count_skipn {A} (l : list A) (w : nat) :
  (0 < w)%nat ->
  trip_count (0 + Z.of_nat w) (Z.of_nat (length l)) (Z.of_nat w)
  = trip_count 0 (Z.of_nat (length (skipn w l))) (Z.of_nat w).
Proof.
  intros Hw. rewrite trip_count_shift, length_skipn.
  destruct (Nat.le_gt_cases w (length l)) as [Hle|Hgt].
  - f_equal. lia.
  - rewrite !trip_count_done; lia.
Qed.

(** The slices of a loop that steps by [w] are the chunks of [w]. *)
Lemma slices_chunks {A} (w : nat) (l : list A) :
  (0 < w)%nat ->
  map (fun i => slice l i (i + Z.of_nat w))
    (zrange 0 (Z.of_nat w) (trip_count 0 (Z.of_nat (length l)) (Z.of_nat w)))
  = chunks w l.
Proof.
  funelim (chunks w l); intros Hw; [lia | now rewrite trip_count_done by (simpl; lia) |].
  rewrite trip_count_step by (simpl length; lia). cbn [zrange map]. f_equal.
  - unfold slice. f_equal. lia.
  - rewrite <- H by lia. rewrite trip_count_skipn, zrange_shift, map_map by lia.
    apply map_ext_in. intros i Hi%zrange_nonneg; [|lia..].
    now apply slice_skipn.
Qed.

Lemma batches_chunks {A} (data : list A) : batches data = chunks (Z.to_nat BATCH_SIZE) data.
Proof. rewrite <- slices_chunks by (vm_compute; lia). reflexivity. Qed.

(** ** The loop *)

Section Laws.
Context {doc S : Type} {K : Sink doc S} {L : SinkLaws doc S}.

Implicit Types (coll : Collection) (data : list doc) (s : S).

(** What the run has done after the iterations at the counters [range],
    started in state [s]: the documents kept and the line written by each
    iteration. *)
Definition ran coll data (range : list Z) s (s' : S) : Prop :=
  exists results,
    Forall2 (outcome_at data) range results /\
    documents coll s' = documents coll s ++ concat (map fst results) /\
    console s' = console s ++ map snd results.

(** One iteration returns, whatever [insertMany] does. *)
Lemma insert_batch_returns coll data i s :
  returns (insert_batch coll data i) s
    (fun _ s' => exists r, outcome_at data i r /\
       documents coll s' = documents coll s ++ fst r /\ console s' = console s ++ [snd r]).
Proof.
  unfold insert_batch. cbv zeta. apply returns_try_catch.
  - intros u s' E. apply bind_normal_inv in E as ([] & s1 & Ei & El).
    unfold console_log in El. inv El. destruct (insert_ok _ _ _ _ Ei) as [Hd Hc].
    eexists (_, _). split; [apply batch_inserted|]. cbn [fst snd].
    now rewrite write_documents, write_console, Hd, Hc.
  - intros err s' [E|([] & s1 & _ & El)]%bind_throw_inv; [|discriminate].
    destruct (insert_fails _ _ _ _ _ E) as (Hx & Hc & k & Hk & Hd).
    split; [exact Hx|]. apply returns_ret.
    eexists (_, _). split; [apply (batch_failed _ _ err Hk)|]. cbn [fst snd].
    now rewrite write_documents, write_console, Hd, Hc.
Qed.

Lemma insert_batch_total coll data i : total (insert_batch coll data i).
Proof. intros s. eapply returns_weaken; [apply insert_batch_returns | trivial]. Qed.

Lemma preserves_write (other : Collection) out m :
  preserves (documents other) (fun s => (Normal tt, write out m s)).
Proof. intros s r s' E. inv E. apply write_documents. Qed.

(** One iteration leaves the other collections as they are. *)
Lemma insert_batch_others coll other data i :
  other <> coll -> preserves (documents other) (insert_batch coll data i).
Proof.
  intros Hne. unfold insert_batch. cbv zeta. apply preserves_try_catch.
  - apply preserves_bind; [|intros _; apply preserves_write].
    intros s r s' E. eapply insert_others; eassumption.
  - intros e. apply preserves_write.
Qed.

Lemma insertDataInBatches_others coll other data :
  other <> coll -> preserves (documents other) (insertDataInBatches coll data).
Proof. intros Hne. apply preserves_foldM. intros i _. now apply insert_batch_others. Qed.

Lemma ran_snoc coll data range i s s1 s2 r :
  ran coll data range s s1 -> outcome_at data i r ->
  documents coll s2 = documents coll s1 ++ fst r -> console s2 = console s1 ++ [snd r] ->
  ran coll data (range ++ [i]) s s2.
Proof.
  intros (results & Hall & Hd & Hc) Hr Hd2 Hc2. exists (results ++ [r]).
  split; [apply Forall2_app; [assumption | now repeat constructor]|].
  rewrite !map_app, concat_app, Hd2, Hc2, Hd, Hc. cbn [map concat].
  now rewrite app_nil_r, <- !app_assoc.
Qed.

(** The function returns; every iteration has run. *)
Lemma insertDataInBatches_ran coll data s :
  returns (insertDataInBatches coll data) s
    (fun _ s' =>
       ran coll data (zrange 0 BATCH_SIZE (trip_count 0 (Z.of_nat (length data)) BATCH_SIZE))
         s s').
Proof.
  unfold insertDataInBatches, foldM_lt.
  apply (returns_foldM (fun k (_ : unit) s' => ran coll data (zrange 0 BATCH_SIZE k) s s')).
  - exists []. cbn. now rewrite !app_nil_r.
  - intros k [] s1 _ Hran. eapply returns_weaken; [apply insert_batch_returns|].
    intros _ s2 (r & Hr & Hd & Hc). rewrite zrange_snoc. eapply ran_snoc; eassumption.
Qed.

(** What the iterations keep is a sublist of the slices they were given. *)
Lemma kept_sublist data range results :
  Forall2 (outcome_at data) range results ->
  sublist (concat (map fst results))
    (concat (map (fun i => slice data i (i + BATCH_SIZE)) range)).
Proof.
  induction 1 as [|i r range results Hr _ IH]; [constructor|].
  cbn [map concat]. apply sublist_app; [|exact IH].
  destruct Hr; cbn [fst]; [apply sublist_refl | apply sublist_firstn].
Qed.

(** Iterations that wrote no error line kept their slices whole. *)
Lemma kept_all data range results :
  Forall2 (outcome_at data) range results ->
  (forall n err, ~ In (ErrorInsertingBatch n err) (map snd results)) ->
  concat (map fst results) = concat (map (fun i => slice data i (i + BATCH_SIZE)) range).
Proof.
  induction 1 as [|i r range results Hr _ IH]; intros Hno; [reflexivity|].
  cbn [map concat]. f_equal.
  - destruct Hr; [reflexivity|]. exfalso. eapply Hno. now left.
  - apply IH. intros n err Hin. eapply Hno. right. exact Hin.
Qed.

End Laws.

(** The slices of the loop are the series, cut. *)
Lemma concat_batches {A} (data : list A) : concat (batches data) = data.
Proof.
  unfold batches. rewrite concat_slices by reflexivity. apply firstn_all2.
  unfold trip_count.
  pose proof (Z.mul_div_le (Z.of_nat (length data) - 0 + BATCH_SIZE - 1) BATCH_SIZE
                ltac:(reflexivity)) as Hle.
  pose proof (Z.mod_pos_bound (Z.of_nat (length data) - 0 + BATCH_SIZE - 1) BATCH_SIZE
                ltac:(reflexivity)) as Hm.
  rewrite Z.mod_eq in Hm by discriminate.
  change (Z.to_nat BATCH_SIZE) with (Z.to_nat 1000). unfold BATCH_SIZE in *. nia.
Qed.

(** Every slice of the loop holds a record, and at most [BATCH_SIZE]. *)
Lemma batch_size {A} (data : list A) i :
  In i (zrange 0 BATCH_SIZE (trip_count 0 (Z.of_nat (length data)) BATCH_SIZE)) ->
  (0 < length (slice data i (i + BATCH_SIZE)) <= Z.to_nat BATCH_SIZE)%nat.
Proof.
  intros (k & Hk & ->)%in_zrange. rewrite length_slice by (unfold BATCH_SIZE; lia).
  unfold trip_count in Hk.
  assert (Z.of_nat k < (Z.of_nat (length data) - 0 + BATCH_SIZE - 1) / BATCH_SIZE) as Hq
    by (apply Z2Nat.inj_lt; [lia | apply Z.div_pos; unfold BATCH_SIZE; lia | lia]).
  pose proof (Z.mul_div_le (Z.of_nat (length data) - 0 + BATCH_SIZE - 1) BATCH_SIZE
                ltac:(reflexivity)) as Hle.
  unfold BATCH_SIZE in *. lia.
Qed.

(** C27. The batches are the series, cut: put end to end they are the
    series, each holds at least one record and at most [BATCH_SIZE], and
    there are as many as the number of records over [BATCH_SIZE], rounded
    up. *)
Theorem batches_partition {A} (data : list A) :
  concat (batches data) = data /\
  Forall (fun b => (0 < length b <= Z.to_nat BATCH_SIZE)%nat) (batches data) /\
  Z.of_nat (length (batches data)) = (Z.of_nat (length data) + BATCH_SIZE - 1) / BATCH_SIZE.
Proof.
  split; [apply concat_batches|]. split; [|apply length_batches].
  unfold batches. apply Forall_map, Forall_forall. intros i Hi. now apply batch_size.
Qed.

(** What the loop has told the journal after [k] iterations. *)
Definition journalled {doc} (coll : Collection) (data : list doc) (s : journal doc)
    (k : nat) (_ : unit) (s' : journal doc) : Prop :=
  calls s' = calls s ++
    map (fun i => (coll, slice data i (i + BATCH_SIZE))) (zrange 0 BATCH_SIZE k) /\
  journal_console s' = journal_console s ++ map InsertedBatch (zrange 1 1 k).

Lemma insert_batch_journal {doc} coll (data : list doc) k (s : journal doc) :
  insert_batch coll data (0 + Z.of_nat k * BATCH_SIZE) s =
  (Normal tt,
   {| calls := calls s ++ [(coll, slice data (0 + Z.of_nat k * BATCH_SIZE)
                                    (0 + Z.of_nat k * BATCH_SIZE + BATCH_SIZE))];
      journal_console := journal_console s ++ [InsertedBatch (1 + Z.of_nat k * 1)] |}).
Proof.
  unfold insert_batch, try_catch, bind, console_log.
  cbn [insertMany write journal_Sink calls journal_console].
  rewrite Z.add_0_l, Z.div_mul by discriminate.
  now replace (1 + Z.of_nat k * 1) with (Z.of_nat k + 1) by lia.
Qed.

(** C10. Equivalence.  The batches that the loop hands to [insertMany],
    which it computes by index arithmetic on its counter, are the chunks
    of [BATCH_SIZE] records of the reference definition, in order and all
    to the collection of its argument, and batch [j] is announced by the
    line numbered [j], from 1. *)
Theorem insertDataInBatches_chunks {doc} coll (data : list doc) (s : journal doc) :
  exists s',
    insertDataInBatches coll data s = (Normal tt, s') /\
    calls s' = calls s ++ map (pair coll) (chunks (Z.to_nat BATCH_SIZE) data) /\
    journal_console s' = journal_console s ++
      map InsertedBatch (zrange 1 1 (length (chunks (Z.to_nat BATCH_SIZE) data))).
Proof.
  rewrite <- batches_chunks. unfold batches. rewrite map_map, length_map, length_zrange.
  assert (returns (insertDataInBatches coll data) s
            (journalled coll data s (trip_count 0 (Z.of_nat (length data)) BATCH_SIZE)))
    as ([] & s' & E & Hc & Hl); [|now exists s'].
  apply (returns_foldM (journalled coll data s)).
  - split; cbn; now rewrite app_nil_r.
  - intros k [] s1 _ [Hc Hl]. eexists tt, _. split; [apply insert_batch_journal|].
    split; cbn [calls journal_console]; rewrite zrange_snoc, map_app;
      [rewrite Hc | rewrite Hl]; now rewrite <- app_assoc.
Qed.

(** C40. The loop of [insertDataInBatches], which steps by [BATCH_SIZE],
    leaves through its guard [i < data.length] once the fuel reaches the
    number of batches, and then completes as the counted loop does. *)
Theorem insertDataInBatches_terminates {doc S} {K : Sink doc S} fuel coll
    (data : list doc) (s : S) :
  (length (batches data) <= fuel)%nat ->
  insertDataInBatches_guarded fuel coll data s =
  bind (insertDataInBatches coll data) (fun u => ret (Some u)) s.
Proof.
  intros Hf. unfold batches in Hf. rewrite length_map, length_zrange in Hf.
  now apply foldM_guarded_terminates.
Qed.

(** A line about a batch. *)
Definition batch_line (m : message) : Prop :=
  match m with
  | InsertedBatch _ | ErrorInsertingBatch _ _ => True
  | _ => False
  end.

Lemma sublist_Forall {A} (P : A -> Prop) (l l' : list A) :
  sublist l l' -> Forall P l' -> Forall P l.
Proof.
  induction 1 as [|x l l' _ IH|x l l' _ IH]; intros Hall; [constructor| |];
    inv Hall; [constructor|]; auto.
Qed.

Section Claims.
Context {doc S : Type} {K : Sink doc S} {L : SinkLaws doc S}.

Implicit Types (coll : Collection) (data : list doc) (s : S).

Lemma returns_console_log m s (Q : unit -> S -> Prop) :
  Q tt (write Stdout m s) -> returns (console_log m) s Q.
Proof. intros HQ. now exists tt, (write Stdout m s). Qed.

Lemma console_log_total m : total (console_log (S:=S) m).
Proof. intros s. now apply returns_console_log. Qed.

Lemma console_error_total m : total (console_error (S:=S) m).
Proof. intros s. now exists tt, (write Stderr m s). Qed.

Lemma lines_batch data range results :
  Forall2 (outcome_at data) range results -> Forall batch_line (map snd results).
Proof.
  induction 1 as [|i r range results Hr _ IH]; constructor; [|exact IH].
  destruct Hr; exact I.
Qed.

(** The contract of the function, for its callers: it returns; what it
    has added is the series with some records left out; it has written
    lines about batches only; without a line of error nothing was left
    out. *)
Lemma insertDataInBatches_spec coll data s :
  returns (insertDataInBatches coll data) s
    (fun _ s' => exists added lines,
       documents coll s' = documents coll s ++ added /\ console s' = console s ++ lines /\
       sublist added data /\ Forall batch_line lines /\
       ((forall n err, ~ In (ErrorInsertingBatch n err) lines) -> added = data)).
Proof.
  eapply returns_weaken; [apply insertDataInBatches_ran|].
  intros _ s' (results & Hall & Hd & Hc).
  exists (concat (map fst results)), (map snd results).
  split; [exact Hd|]. split; [exact Hc|]. split; [|split].
  - rewrite <- (concat_batches data) at 1. now apply kept_sublist.
  - exact (lines_batch Hall).
  - intros Hno. rewrite <- (concat_batches data) at 1. now apply kept_all.
Qed.

Lemma insertDataInBatches_total coll data : total (insertDataInBatches coll data).
Proof. intros s. eapply returns_weaken; [apply insertDataInBatches_ran | trivial]. Qed.

(** C28. [insertDataInBatches] never throws, whatever the collection does:
    it writes one line per batch, and what it has added to the collection
    is the series with some records left out, in order. *)
Theorem insertDataInBatches_returns coll data s :
  exists s' added lines,
    insertDataInBatches coll data s = (Normal tt, s') /\
    documents coll s' = documents coll s ++ added /\ sublist added data /\
    console s' = console s ++ lines /\ length lines = length (batches data).
Proof.
  destruct (insertDataInBatches_ran coll data s) as ([] & s' & E & results & Hall & Hd & Hc).
  exists s', (concat (map fst results)), (map snd results).
  split; [exact E|]. split; [exact Hd|]. split; [|split; [exact Hc|]].
  - rewrite <- (concat_batches data) at 1. now apply kept_sublist.
  - unfold batches. rewrite !length_map. symmetry. eapply Forall2_length, Hall.
Qed.

(** C29. When no line of error has been written, every record of the
    series has been added to the collection, in order. *)
Theorem insertDataInBatches_complete coll data s s' :
  insertDataInBatches coll data s = (Normal tt, s') ->
  (forall n err, ~ In (ErrorInsertingBatch n err) (console s')) ->
  documents coll s' = documents coll s ++ data.
Proof.
  intros E Hno.
  pose proof (returns_inv (insertDataInBatches_ran coll data s) E)
    as (results & Hall & Hd & Hc).
  rewrite Hd. f_equal. rewrite <- (concat_batches data) at 1.
  apply (kept_all Hall). intros n err Hin. apply (Hno n err).
  rewrite Hc. apply in_or_app. now right.
Qed.

End Claims.

(** ** The executable sink is a sink *)

Lemma select_app {doc} coll (l1 l2 : list (Collection * doc)) :
  select coll (l1 ++ l2) = select coll l1 ++ select coll l2.
Proof. unfold select. now rewrite filter_app, map_app. Qed.

Lemma select_same {doc} coll (batch : list doc) : select coll (map (pair coll) batch) = batch.
Proof.
  unfold select. induction batch as [|d batch IH]; [reflexivity|].
  cbn [map filter fst]. rewrite same_collection_refl. cbn [map snd]. now rewrite IH.
Qed.

Lemma select_other {doc} coll other (batch : list doc) :
  other <> coll -> select other (map (pair coll) batch) = [].
Proof.
  intros Hne. unfold select. induction batch as [|d batch IH]; [reflexivity|].
  cbn [map filter fst]. now rewrite same_collection_neq.
Qed.

#[export] Instance store_SinkLaws {doc} : SinkLaws doc (store doc).
Proof.
  split; cbn [insertMany write documents console store_Sink].
  - unfold store_insertMany. intros coll batch s s' E.
    destruct (outcomes s) as [|[k|] rest]; inv E; cbn [store_documents store_console];
      now rewrite select_app, select_same.
  - unfold store_insertMany. intros coll batch s err s' E.
    destruct (outcomes s) as [|[k|] rest]; inv E.
    split; [reflexivity|]. split; [reflexivity|]. cbn [store_documents].
    exists (Nat.min k (length batch)). split; [lia|].
    rewrite select_app, select_same. f_equal.
    destruct (Nat.le_ge_cases k (length batch)) as [Hk|Hk].
    + now rewrite Nat.min_l.
    + now rewrite Nat.min_r, !firstn_all2 by lia.
  - unfold store_insertMany. intros coll other batch s r s' E Hne.
    destruct (outcomes s) as [|[k|] rest]; inv E; cbn [store_documents];
      now rewrite select_app, select_other, app_nil_r.
  - reflexivity.
  - intros out m s. cbn [store_write store_console]. now rewrite map_app.
Qed.

(** ** What a scripted server keeps

    On the executable sink the loop is a function of the series and of the
    script of outcomes.  Batch [j] meets the [j]-th outcome of the script:
    a success stores the batch, a failure after [k] documents stores its
    first [k] and loses the rest, which are never offered again; either way
    the next batch meets the next outcome. *)

(** What is kept of a batch that meets the head of [script]. *)
Definition kept1 {doc} (script : list (option nat)) (batch : list doc) : list doc :=
  match script with
  | Some k :: _ => firstn k batch
  | _ => batch
  end.

(** The line written for batch [n] when it meets the head of [script],
    and its stream. *)
Definition line1 (n : Z) (script : list (option nat)) : stream * message :=
  match script with
  | Some _ :: _ => (Stderr, ErrorInsertingBatch n MongoError)
  | _ => (Stdout, InsertedBatch n)
  end.

Fixpoint kept {doc} (script : list (option nat)) (bs : list (list doc)) : list doc :=
  match bs with
  | [] => []
  | batch :: rest => kept1 script batch ++ kept (tl script) rest
  end.

Fixpoint lines_from (n : Z) (script : list (option nat)) (count : nat) :
    list (stream * message) :=
  match count with
  | O => []
  | S count' => line1 n script :: lines_from (n + 1) (tl script) count'
  end.

Lemma skipn_succ {A} (l : list A) k : skipn (S k) l = tl (skipn k l).
Proof.
  revert l. induction k as [|k IH]; intros [|x l]; try reflexivity. exact (IH l).
Qed.

Lemma skipn_tl {A} (l : list A) k : skipn k (tl l) = skipn (S k) l.
Proof. destruct l; [now destruct k | reflexivity]. Qed.

Lemma kept_snoc {doc} script (bs : list (list doc)) batch :
  kept script (bs ++ [batch]) = kept script bs ++ kept1 (skipn (length bs) script) batch.
Proof.
  revert script. induction bs as [|b bs IH]; intros script; cbn [app kept length].
  - now rewrite app_nil_r.
  - now rewrite IH, <- app_assoc, skipn_tl.
Qed.

Lemma lines_from_snoc n script count :
  lines_from n script (S count)
  = lines_from n script count ++ [line1 (n + Z.of_nat count) (skipn count script)].
Proof.
  revert n script. induction count as [|count IH]; intros n script.
  - cbn. now rewrite Z.add_0_r.
  - change (lines_from n script (S (S count)))
      with (line1 n script :: lines_from (n + 1) (tl script) (S count)).
    rewrite (IH (n + 1) (tl script)), skipn_tl. cbn [lines_from app].
    now replace (n + Z.of_nat (S count)) with (n + 1 + Z.of_nat count) by lia.
Qed.

(** One iteration on the executable sink. *)
Lemma insert_batch_store {doc} coll (data : list doc) i (s : store doc) :
  insert_batch coll data i s =
  (Normal tt,
   {| store_documents := store_documents s ++
        map (pair coll) (kept1 (outcomes s) (slice data i (i + BATCH_SIZE)));
      store_console := store_console s ++ [line1 (i / BATCH_SIZE + 1) (outcomes s)];
      outcomes := tl (outcomes s) |}).
Proof.
  unfold insert_batch, try_catch, bind, console_log, console_error.
  cbn [insertMany write store_Sink]. unfold store_insertMany, store_write.
  destruct (outcomes s) as [|[k|] rest]; reflexivity.
Qed.

(** The executable sink after [k] iterations. *)
Definition scripted {doc} (coll : Collection) (data : list doc) (s : store doc)
    (k : nat) : store doc :=
  {| store_documents := store_documents s ++
       map (pair coll)
         (kept (outcomes s)
            (map (fun i => slice data i (i + BATCH_SIZE)) (zrange 0 BATCH_SIZE k)));
     store_console := store_console s ++ lines_from 1 (outcomes s) k;
     outcomes := skipn k (outcomes s) |}.

Lemma scripted_step {doc} coll (data : list doc) (s : store doc) k :
  insert_batch coll data (0 + Z.of_nat k * BATCH_SIZE) (scripted coll data s k)
  = (Normal tt, scripted coll data s (S k)).
Proof.
  rewrite insert_batch_store. unfold scripted.
  cbn [store_documents store_console outcomes].
  rewrite zrange_snoc, map_app. cbn [map].
  rewrite kept_snoc, lines_from_snoc, skipn_succ, map_app.
  rewrite length_map, length_zrange, Z.add_0_l, Z.div_mul, <- !app_assoc by discriminate.
  now rewrite (Z.add_comm 1).
Qed.

(** C18. On the executable sink, for every series and every script of
    outcomes: the function returns; batch [j] meets outcome [j] of the
    script; what a failing [insertMany] has stored of its batch stays and
    the rest of the batch is lost, since the loop goes on to the next batch
    and never offers a batch again; the line of each batch says which of
    the two happened, on the stream of [console.log] or of
    [console.error]. *)
Theorem insertDataInBatches_script {doc} coll (data : list doc) (s : store doc) :
  insertDataInBatches coll data s =
  (Normal tt,
   {| store_documents := store_documents s ++
        map (pair coll) (kept (outcomes s) (chunks (Z.to_nat BATCH_SIZE) data));
      store_console := store_console s ++
        lines_from 1 (outcomes s) (length (chunks (Z.to_nat BATCH_SIZE) data));
      outcomes := skipn (length (chunks (Z.to_nat BATCH_SIZE) data)) (outcomes s) |}).
Proof.
  rewrite <- batches_chunks. unfold batches. rewrite !length_map, !length_zrange.
  assert (returns (insertDataInBatches coll data) s
            (fun _ s' => s' = scripted coll data s
                                (trip_count 0 (Z.of_nat (length data)) BATCH_SIZE)))
    as ([] & s' & E & ->); [|exact E].
  apply (returns_foldM (fun k (_ : unit) s' => s' = scripted coll data s k)).
  - destruct s. unfold scripted. cbn. now rewrite !app_nil_r.
  - intros k [] s1 _ ->. eexists tt, _. split; [apply scripted_step | reflexivity].
Qed.

(** A server that accepts every batch keeps the series. *)
Lemma kept_all_accepted {doc} (bs : list (list doc)) : kept [] bs = concat bs.
Proof. induction bs as [|b bs IH]; [reflexivity|]. cbn. now rewrite IH. Qed.

(** A batch that fails after [k] documents loses its other documents: what
    is kept is shorter than what was offered. *)
Lemma kept_loses {doc} k script (batch : list doc) (rest : list (list doc)) :
  (k < length batch)%nat ->
  (length (kept (Some k :: script) (batch :: rest)) < length (concat (batch :: rest)))%nat.
Proof.
  intros Hk. cbn [kept kept1 tl concat]. rewrite !length_app, length_firstn.
  assert (forall sc (bs : list (list doc)), (length (kept sc bs) <= length (concat bs))%nat)
    as Hle; [|specialize (Hle script rest); lia].
  intros sc bs. revert sc. induction bs as [|b bs IH]; intros sc; [reflexivity|].
  cbn [kept concat]. rewrite !length_app. specialize (IH (tl sc)).
  destruct sc as [|[j|] sc]; cbn [kept1]; rewrite ?length_firstn; lia.
Qed.

(** ** Runs *)

(** A collection for the runs of this file. *)
Definition sample_collection : Collection :=
  db_collection (client_db (new_MongoClient
    {| tlsAllowInvalidCertificates := false; tlsAllowInvalidHostnames := false;
       serverSelectionTimeoutMS := 30000 |}) "sample") "records".

Definition empty_store (failures : list (option nat)) : store Z :=
  {| store_documents := []; store_console := []; outcomes := failures |}.

(** The collection after 2500 records that it has accepted. *)
Definition clean_store : store Z :=
  {| store_documents := map (pair sample_collection) (zrange 0 1 2500);
     store_console := map (pair Stdout) [InsertedBatch 1; InsertedBatch 2; InsertedBatch 3];
     outcomes := [] |}.

(** 2500 records into a collection whose second [insertMany] fails after
    ten documents. *)
Definition failing_run : completion unit * store Z :=
  insertDataInBatches sample_collection (zrange 0 1 2500)
    (empty_store [None; Some 10%nat]).

Lemma clean_run_normal :
  insertDataInBatches sample_collection (zrange 0 1 2500) (empty_store [])
  = (Normal tt, clean_store).
Proof. vm_compute. reflexivity. Qed.

Lemma insertDataInBatches_terminates_witness :
  insertDataInBatches_guarded 3 sample_collection (zrange 0 1 2500) (empty_store []) =
  bind (insertDataInBatches sample_collection (zrange 0 1 2500))
    (fun u => ret (Some u)) (empty_store []).
Proof.
  apply insertDataInBatches_terminates. apply Nat2Z.inj_le.
  rewrite length_batches, length_zrange. discriminate.
Defined.

Lemma insertDataInBatches_returns_witness :
  exists s' added lines,
    insertDataInBatches sample_collection (zrange 0 1 2500)
      (empty_store [None; Some 10%nat])
    = (Normal tt, s') /\
    documents sample_collection s'
    = documents sample_collection (empty_store [None; Some 10%nat]) ++ added /\
    sublist added (zrange 0 1 2500) /\
    console s' = console (empty_store [None; Some 10%nat]) ++ lines /\
    length lines = length (batches (zrange 0 1 2500)).
Proof. apply insertDataInBatches_returns. Defined.

Lemma insertDataInBatches_complete_witness :
  documents sample_collection clean_store
  = documents sample_collection (empty_store []) ++ zrange 0 1 2500.
Proof.
  eapply insertDataInBatches_complete; [exact clean_run_normal|].
  intros n err [H|[H|[H|[]]]]; discriminate.
Defined.

(** A run in which records are lost: the second batch fails after ten
    documents; these stay, the other 990 are lost, the third batch is
    inserted, and the function returns. *)
Example failing_run_loses_records :
  fst failing_run = Normal tt /\
  console (snd failing_run)
    = [InsertedBatch 1; ErrorInsertingBatch 2 MongoError; InsertedBatch 3] /\
  documents sample_collection (snd failing_run) = zrange 0 1 1010 ++ zrange 2000 1 500.
Proof. vm_compute. repeat split. Qed.
