(* ===== verification/Main.v ===== *)
(** * Main: the run of the program

    Models dataGenerator.js lines 84-111 ([main] and its call) and
    mongoConnection.js lines 5-20 ([connectToMongoDB]).

    The state of the program is the product [World] of the states of its
    collaborators: the random source, the sink (the collections of the
    server and the console), the clock and the client.  A function of a
    collaborator runs on its part of the world ([on_entropy], [on_sink]).
    Whether the server can be reached, and whether the client can be
    closed, are fields of the world; the clock is a sequence of readings,
    one per [new Date()].  The program makes one client
    ([connectToMongoDB] returns it), so that the state of the connection
    in the world is the state of that client; [main] takes the handle of
    the collection [locations] of the database [trainData] from it and
    passes it to [insertDataInBatches].

    The theorems of section [Run] are proved against the interface
    [Generator]: what [main] needs of [generateLocationData].  The
    interface is implemented in exact arithmetic here ([exact_Generator])
    and in binary64 in [Scenarios].  They say what a run that connects
    does: the lines it writes, the records it stores, their identifiers
    and their time stamps ([timed]: one reading of the clock per train).
    The theorems of section [Robust] need no generator: they hold
    whatever the series do (the program ends; it writes to no collection
    but [locations]). *)

From Stdlib Require Import List ZArith Lia Bool.
From Stdlib Require String.
From S2P Require Import Prelude Mongo JSNumber Random JSDate Route Telemetry Batch.
Import ListNotations String.StringSyntax.

Local Open Scope js_scope.
Local Open Scope Z_scope.

(** ** The world *)

Inductive connection_state : Type :=
| NotConnected
| Connected
| Closed.

Record World (R S : Type) : Type := {
  (** the state of [faker] and [uuid] *)
  entropy : R;
  (** the collections of the server and the console *)
  sink : S;
  (** the readings of the clock, in milliseconds, and how many were taken *)
  readings : nat -> Z;
  reads : nat;
  (** the client *)
  connection : connection_state;
  (** whether [client.connect()] succeeds *)
  reachable : bool;
  (** whether [client.close()] succeeds *)
  closable : bool
}.

Arguments entropy {R S} _.
Arguments sink {R S} _.
Arguments readings {R S} _ _.
Arguments reads {R S} _.
Arguments connection {R S} _.
Arguments reachable {R S} _.
Arguments closable {R S} _.

Set Implicit Arguments.

(** The options of the client (mongoConnection.js lines 7-9): the
    certificate of the server and its host name are not verified, and the
    selection of a server gives up after five seconds. *)
Definition connection_options : ClientOptions :=
  {| tlsAllowInvalidCertificates := true;
     tlsAllowInvalidHostnames := true;
     serverSelectionTimeoutMS := 5000 |}.

Section Definitions.
Context {num : Type} {N : JSNum num} {R : Type} {E : Entropy num R}.
Context {S : Type} {K : Sink (Location num) S}.

(** The local time zone adjustment of the process, in milliseconds. *)
Variable tza : Z.

Definition set_entropy (r : R) (w : World R S) : World R S :=
  {| entropy := r; sink := sink w; readings := readings w; reads := reads w;
     connection := connection w; reachable := reachable w; closable := closable w |}.

Definition set_sink (s : S) (w : World R S) : World R S :=
  {| entropy := entropy w; sink := s; readings := readings w; reads := reads w;
     connection := connection w; reachable := reachable w; closable := closable w |}.

Definition set_connection (c : connection_state) (w : World R S) : World R S :=
  {| entropy := entropy w; sink := sink w; readings := readings w; reads := reads w;
     connection := c; reachable := reachable w; closable := closable w |}.

Definition on_entropy {A} (c : M R A) : M (World R S) A := zoom entropy set_entropy c.

Definition on_sink {A} (c : M S A) : M (World R S) A := zoom sink set_sink c.

(** [new Date()]: the next reading of the clock. *)
Definition now (w : World R S) : Date * World R S :=
  (newDate (Some (readings w (reads w))),
   {| entropy := entropy w; sink := sink w; readings := readings w;
      reads := Datatypes.S (reads w);
      connection := connection w; reachable := reachable w; closable := closable w |}).

(** [client.connect()] *)
Definition client_connect (client : MongoClient) : M (World R S) unit :=
  fun w =>
    if reachable w then (Normal tt, set_connection Connected w)
    else (Throw MongoError, w).

(** [client.close()] *)
Definition client_close (client : MongoClient) : M (World R S) unit :=
  fun w =>
    if closable w then (Normal tt, set_connection Closed w)
    else (Throw MongoError, w).

(** mongoConnection.js lines 5-20. *)
Definition connectToMongoDB : M (World R S) MongoClient :=
  let client := new_MongoClient connection_options in
  try_catch
    (_ <- client_connect client ;;
     _ <- on_sink (console_log ConnectedSuccessfully) ;;
     ret client)
    (fun error =>
       _ <- on_sink (console_error (ErrorConnecting error)) ;;
       throw (ProcessExit 1)).

(** [(NUM_DAYS * 24 * 60) / DATA_INTERVAL_MINUTES] (line 92).  The
    division of the source is the division of numbers; the interval
    divides the minutes of the period, so that the quotient is this
    integer. *)
Definition numEntries : Z := (NUM_DAYS * 24 * 60) / DATA_INTERVAL_MINUTES.

(** The bounds of [faker.number.int({ min: 5, max: 15 })] (line 95). *)
Definition minSegments : Z := 5.
Definition maxSegments : Z := 15.

(** The series of a train (lines 91-97): the part of an iteration of the
    loop of [main] that runs before its first [await]. *)
Definition train_data (trainId : Z) : M (World R S) (list (Location num)) :=
  startDate <- draw now ;;
  startCoords <- on_entropy getRandomSriLankanCoordinates ;;
  endCoords <- on_entropy getRandomSriLankanCoordinates ;;
  numSegments <- on_entropy (draw (faker_number_int minSegments maxSegments)) ;;
  let pathSegments := generatePathSegments startCoords endCoords numSegments in
  on_entropy (generateLocationData tza trainId startDate numEntries pathSegments).

(** One iteration of the loop of [main] (lines 90-101). *)
Definition train (collection : Collection) (trainId : Z) : M (World R S) unit :=
  locationData <- train_data trainId ;;
  _ <- on_sink (insertDataInBatches collection locationData) ;;
  on_sink (console_log (InsertedTrain trainId)).

(** The [try] block of [main] with its handler (lines 89-105).
    [trainId <= NUM_TRAINS] is [trainId < NUM_TRAINS + 1] on integers. *)
Definition generation (collection : Collection) : M (World R S) unit :=
  try_catch
    (foldM_lt 1 (NUM_TRAINS + 1) 1 (fun trainId _ => train collection trainId) tt)
    (fun err => on_sink (console_error (ErrorDuringGeneration err))).

(** The [finally] block of [main] (lines 105-108). *)
Definition finalization (client : MongoClient) : M (World R S) unit :=
  _ <- client_close client ;;
  on_sink (console_log Complete).

(** Lines 84-109. *)
Definition main : M (World R S) unit :=
  client <- connectToMongoDB ;;
  let db := client_db client "trainData" in
  let collection := db_collection db "locations" in
  try_finally (generation collection) (finalization client).

(** Line 111: [main().catch(console.error)]. *)
Definition program : M (World R S) unit :=
  try_catch main (fun err => on_sink (console_error (UncaughtError err))).

(** The world after a connection that succeeded, and after a close that
    succeeded. *)
Definition connected (w : World R S) : World R S :=
  set_sink (write Stdout ConnectedSuccessfully (sink w)) (set_connection Connected w).

Definition closed (w : World R S) : World R S :=
  set_sink (write Stdout Complete (sink (set_connection Closed w))) (set_connection Closed w).

End Definitions.

(** The client that [connectToMongoDB] makes, and the collection that
    [main] writes to (dataGenerator.js lines 86-87). *)
Definition the_client : MongoClient := new_MongoClient connection_options.

Definition locations : Collection :=
  db_collection (client_db the_client "trainData") "locations".

(** ** What [main] needs of the generator *)

(** A series of [main]'s size over a route of as many segments as [main]
    draws is returned whole, every record carrying the train's
    identifier. *)
Class Generator (num R : Type) {N : JSNum num} {E : Entropy num R} : Prop := {
  series_returns : forall tza id startDate (segments : list (Segment num)) (r : R),
    minSegments <= Z.of_nat (length segments) <= maxSegments ->
    returns (generateLocationData tza id startDate numEntries segments) r
      (fun data _ =>
         Z.of_nat (length data) = numEntries /\
         Forall (fun loc => train_id loc = id) data)
}.

Arguments Generator num R {N E}.

(** A line of an iteration of [main]: about a batch, or about a train. *)
Definition train_line (m : message) : Prop :=
  match m with
  | InsertedBatch _ | ErrorInsertingBatch _ _ | InsertedTrain _ => True
  | _ => False
  end.

Definition no_batch_error (lines : list message) : Prop :=
  forall n err, ~ In (ErrorInsertingBatch n err) lines.

(** ** Time stamps across series *)

(** A clock reading from which a series of [main]'s size stays within the
    representable time values. *)
Definition in_range (t : Z) : Prop :=
  - maxTime <= t /\ t + numEntries * interval_ms <= maxTime.

(** A record stamped at one of the [numEntries] instants, one interval
    apart, that start at [t]. *)
Definition stamped_from {num} (t : Z) (loc : Location num) : Prop :=
  exists j, 0 <= j < numEntries /\ timestamp loc = Some (t + j * interval_ms).

(** What one iteration of the loop of [main] does to the clock, and the
    stamps of its records: it takes one reading, from which its records
    are stamped. *)
Definition timed1 {R S num} (w w' : World R S) (data : list (Location num)) : Prop :=
  readings w' = readings w /\ reads w' = Datatypes.S (reads w) /\
  (in_range (readings w (reads w)) -> Forall (stamped_from (readings w (reads w))) data).

(** The same for the iterations of the trains 1 to [k]: the records of
    train [id] are stamped from the reading numbered [id - 1] from the
    start. *)
Definition timed {R S num} (w : World R S) (k : nat) (w' : World R S)
    (added : list (Location num)) : Prop :=
  readings w' = readings w /\ reads w' = (reads w + k)%nat /\
  ((forall i, (i < k)%nat -> in_range (readings w (reads w + i))) ->
   Forall (fun loc =>
             stamped_from (readings w (reads w + Z.to_nat (train_id loc - 1))) loc) added).

Lemma timed_start {R S num} (w : World R S) : timed (num:=num) w 0 w [].
Proof. split; [reflexivity|]. split; [lia | constructor]. Qed.

Lemma timed_step {R S num} (w w1 w2 : World R S) k (a1 a2 : list (Location num)) :
  timed w k w1 a1 -> timed1 w1 w2 a2 ->
  Forall (fun loc => train_id loc = Z.of_nat (Datatypes.S k)) a2 ->
  timed w (Datatypes.S k) w2 (a1 ++ a2).
Proof.
  intros (Hr1 & Hn1 & Hs1) (Hr2 & Hn2 & Hs2) Hid. rewrite Hr1, Hn1 in *.
  split; [congruence|]. split; [lia|]. intros Hclock. apply Forall_app. split.
  - apply Hs1. intros i Hi. apply Hclock. lia.
  - specialize (Hs2 (Hclock k ltac:(lia))). rewrite Forall_forall in *.
    intros loc Hin. rewrite (Hid loc Hin).
    replace (Z.to_nat (Z.of_nat (Datatypes.S k) - 1)) with k by lia. now apply Hs2.
Qed.

(** ** Identifiers across series *)

Section Fresh.
Context {num R : Type} {E : Entropy num R} {EL : EntropyLaws num R}.

(** Between the entropy states [r] and [r'] the records [added] were
    given identifiers: new to [r], issued in [r'], pairwise distinct;
    and what was issued in [r] stays issued. *)
Definition fresh_ids (r r' : R) (added : list (Location num)) : Prop :=
  (forall u, issued r u -> issued r' u) /\
  (forall loc, In loc added ->
     issued r' (location_id loc) /\ ~ issued r (location_id loc)) /\
  NoDup (map location_id added).

Lemma fresh_ids_nil (r r' : R) : (forall u, issued r u -> issued r' u) -> fresh_ids r r' [].
Proof. intros Hk. split; [exact Hk|]. split; [intros loc []|constructor]. Qed.

Lemma fresh_ids_app (r r1 r2 : R) a1 a2 :
  fresh_ids r r1 a1 -> fresh_ids r1 r2 a2 -> fresh_ids r r2 (a1 ++ a2).
Proof.
  intros (K1 & I1 & N1) (K2 & I2 & N2). split; [auto|]. split.
  - intros loc [Hin|Hin]%in_app_or; [destruct (I1 _ Hin) | destruct (I2 _ Hin)]; auto.
  - rewrite map_app. apply NoDup_app; [assumption..|].
    intros u (x & <- & Hx)%in_map_iff (y & Exy & Hy)%in_map_iff.
    destruct (I1 _ Hx) as [Hx1 _]. destruct (I2 _ Hy) as [_ Hy1]. congruence.
Qed.

Lemma fresh_ids_sublist (r r' : R) a a' :
  sublist a a' -> fresh_ids r r' a' -> fresh_ids r r' a.
Proof.
  intros Hs (K1 & I1 & N1). split; [exact K1|]. split.
  - intros loc Hin. eapply I1, sublist_In; eassumption.
  - eapply sublist_NoDup; [apply sublist_map, Hs | exact N1].
Qed.

Lemma typed_fresh_ids id (r r' : R) data : typed id r data r' -> fresh_ids r r' data.
Proof. intros (K1 & I1 & N1 & _). now split. Qed.

End Fresh.

(** What the iterations for the trains [1] to [k] have done to the world
    [w]: the client is as it was; documents and lines were added. *)
Definition trains_done {R S num} {E : Entropy num R} {EL : EntropyLaws num R}
    {K : Sink (Location num) S} (w : World R S) (k : nat) (w' : World R S) : Prop :=
  connection w' = connection w /\ closable w' = closable w /\
  exists added lines,
    documents locations (sink w') = documents locations (sink w) ++ added /\
    console (sink w') = console (sink w) ++ lines /\
    Forall train_line lines /\
    (forall id, 1 <= id <= Z.of_nat k -> In (InsertedTrain id) lines) /\
    Forall (fun loc => 1 <= train_id loc <= Z.of_nat k) added /\
    Z.of_nat (length added) <= Z.of_nat k * numEntries /\
    (no_batch_error lines -> Z.of_nat (length added) = Z.of_nat k * numEntries) /\
    timed w k w' added /\
    fresh_ids (entropy w) (entropy w') added.

(** ** Every series is labelled with its train *)

Section Series.
Context {num : Type} {N : JSNum num} {R : Type} {E : Entropy num R}.

(** In every number model: a series whose segment indices are indices of
    the route is returned whole, every record carrying the train's
    identifier. *)
Lemma series_defined tza id startDate n (segments : list (Segment num)) (r : R) :
  0 <= n ->
  (forall i, 0 <= i < n -> array_get segments (segmentIndex i n segments) <> None) ->
  returns (generateLocationData tza id startDate n segments) r
    (fun data _ =>
       Z.of_nat (length data) = n /\ Forall (fun loc => train_id loc = id) data).
Proof.
  intros Hn Hget.
  destruct (@generateLocationData_defined num N R E tza id startDate n segments r Hget)
    as (data & r' & Erun & Hlen).
  exists data, r'. split; [exact Erun|]. split; [lia|].
  apply generateLocationData_built in Erun as (_ & _ & Hrec).
  apply Forall_forall. intros loc (j & Hj)%In_nth_error. now destruct (Hrec j loc Hj).
Qed.

(** In every number model: the records of a series that starts at the
    clock reading [t] are stamped from [t], one interval apart, while the
    stamps stay representable. *)
Lemma series_stamped tza id t (segments : list (Segment num)) (r : R) data r' :
  generateLocationData tza id (newDate (Some t)) numEntries segments r = (Normal data, r') ->
  in_range t -> Forall (stamped_from t) data.
Proof.
  intros Erun [Hlo Hhi].
  assert (0 <= numEntries * interval_ms) as Hspan by (vm_compute; discriminate).
  rewrite newDate_valid in Erun by lia.
  apply Forall_forall. intros loc (j & Ej)%In_nth_error.
  edestruct generateLocationData_stamps as (Hj & _ & Hts);
    [exact Erun | exact Hlo | exact Hhi | exact Ej|].
  exists (Z.of_nat j). split; [lia | exact Hts].
Qed.

End Series.

(** ** The run *)

Section Run.
Context {num : Type} {N : JSNum num} {R : Type} {E : Entropy num R}.
Context {EL : EntropyLaws num R} {G : Generator num R}.
Context {S : Type} {K : Sink (Location num) S} {L : SinkLaws (Location num) S}.
Variable tza : Z.

Implicit Types (w : World R S).

(** What the synchronous part of the iteration for train [id] does: it
    reads the clock and draws from the random source only. *)
Definition data_done (id : Z) w (data : list (Location num)) (w' : World R S) : Prop :=
  sink w' = sink w /\ connection w' = connection w /\ closable w' = closable w /\
  Z.of_nat (length data) = numEntries /\
  Forall (fun loc => train_id loc = id) data /\
  timed1 w w' data /\
  fresh_ids (entropy w) (entropy w') data.

Lemma train_data_returns id w : returns (train_data tza id) w (data_done id w).
Proof.
  unfold train_data.
  apply returns_bind, returns_draw, returns_bind, returns_zoom.
  eapply returns_weaken; [apply getRandomSriLankanCoordinates_keeps|].
  intros startCoords r1 K1. apply returns_bind, returns_zoom.
  eapply returns_weaken; [apply getRandomSriLankanCoordinates_keeps|].
  intros endCoords r2 K2. apply returns_bind, returns_zoom, returns_draw. cbv zeta.
  match goal with |- context [faker_number_int ?lo ?hi ?r] =>
    pose proof (int_range lo hi r ltac:(unfold minSegments, maxSegments; lia)) as Hk;
    pose proof (fun u => int_keeps lo hi r u) as K3;
    destruct (faker_number_int lo hi r) as [numSegments r3]
  end.
  cbn [fst snd now entropy set_entropy] in *. apply returns_zoom.
  eapply returns_weaken.
  - apply returns_and;
      [apply series_returns; rewrite route_size; unfold minSegments in *; lia|].
    intros data r4 Erun.
    exact (conj (typed_fresh_ids (generateLocationData_typed _ _ _ _ _ _ Erun))
             (series_stamped _ _ _ _ Erun)).
  - intros data r4 [[Hlen Hids] [Hfresh Hst]]. repeat (split; [easy|]).
    apply (fresh_ids_app (a1:=[]) (r1:=r3)); [apply fresh_ids_nil; auto | exact Hfresh].
Qed.

(** What the iteration for train [id] does to the world. *)
Definition train_done (id : Z) w (w' : World R S) : Prop :=
  connection w' = connection w /\ closable w' = closable w /\
  exists added lines,
    documents locations (sink w') = documents locations (sink w) ++ added /\
    console (sink w') = console (sink w) ++ lines ++ [InsertedTrain id] /\
    Forall batch_line lines /\
    Forall (fun loc => train_id loc = id) added /\
    Z.of_nat (length added) <= numEntries /\
    (no_batch_error lines -> Z.of_nat (length added) = numEntries) /\
    timed1 w w' added /\
    fresh_ids (entropy w) (entropy w') added.

(** Records left out and lines written change nothing about the clock. *)
Lemma timed1_sublist w w1 w2 (a a' : list (Location num)) :
  sublist a a' -> timed1 w w1 a' ->
  readings w2 = readings w1 -> reads w2 = reads w1 -> timed1 w w2 a.
Proof.
  intros Hs (Hr & Hn & Hst) Hr2 Hn2. split; [congruence|]. split; [congruence|].
  intros Hclock. exact (sublist_Forall Hs (Hst Hclock)).
Qed.

Lemma train_returns id w :
  returns (train tza locations id) w (fun _ w' => train_done id w w').
Proof.
  unfold train. apply returns_bind.
  eapply returns_weaken; [apply train_data_returns|].
  intros data w1 (Hs & Hc & Hcl & Hlen & Hids & Ht & Hfresh).
  apply returns_bind, returns_zoom.
  eapply returns_weaken; [apply insertDataInBatches_spec|].
  intros [] s1 (added & lines & Hd & Hl & Hsub & Hlines & Hall).
  apply returns_zoom, returns_console_log. unfold train_done.
  cbn [sink set_sink connection closable entropy].
  split; [exact Hc|]. split; [exact Hcl|]. exists added, lines.
  rewrite write_documents, write_console, Hd, Hl, Hs, <- app_assoc.
  split; [reflexivity|]. split; [reflexivity|]. split; [assumption|].
  split; [now apply (sublist_Forall Hsub)|]. rewrite <- Hlen.
  split; [apply Nat2Z.inj_le, sublist_length, Hsub|].
  split; [intros Hno; now rewrite Hall|].
  split; [eapply timed1_sublist; [exact Hsub | exact Ht | reflexivity..]|].
  now apply (fresh_ids_sublist Hsub).
Qed.

Lemma batch_line_train_line m : batch_line m -> train_line m.
Proof. destruct m; simpl; auto. Qed.

Lemma trains_done_start w : trains_done w 0 w.
Proof.
  split; [reflexivity|]. split; [reflexivity|].
  exists [], []. rewrite !app_nil_r, Z.mul_0_l.
  split; [reflexivity|]. split; [reflexivity|]. split; [constructor|].
  split; [intros id Hid; simpl in Hid; lia|]. split; [constructor|].
  split; [reflexivity|]. split; [intros _; reflexivity|].
  split; [apply timed_start | now apply fresh_ids_nil].
Qed.

Lemma trains_done_step w k w1 w2 :
  trains_done w k w1 -> train_done (Z.of_nat (Datatypes.S k)) w1 w2 ->
  trains_done w (Datatypes.S k) w2.
Proof.
  intros (Hc & Hcl & added & lines & Hd & Hl & Hlines & Hids & Hadd & Hlen & Hall & Ht & Hf)
         (Hc2 & Hcl2 & added2 & lines2 & Hd2 & Hl2 & Hlines2 & Hadd2 & Hlen2 & Hall2
          & Ht2 & Hf2).
  split; [congruence|]. split; [congruence|].
  exists (added ++ added2), (lines ++ lines2 ++ [InsertedTrain (Z.of_nat (Datatypes.S k))]).
  split; [rewrite Hd2, Hd, app_assoc; reflexivity|].
  split; [rewrite Hl2, Hl, <- !app_assoc; reflexivity|].
  split; [|split; [|split; [|split; [|split; [|split; [exact (timed_step Ht Ht2 Hadd2)|]]]]]].
  - apply Forall_app. split; [assumption|]. apply Forall_app. split; [|now repeat constructor].
    eapply Forall_impl; [apply batch_line_train_line | exact Hlines2].
  - intros id Hid. apply in_or_app.
    destruct (Z.eq_dec id (Z.of_nat (Datatypes.S k))) as [->|Hne].
    + right. apply in_or_app. right. now left.
    + left. apply Hids. lia.
  - apply Forall_app. split.
    + eapply Forall_impl; [|exact Hadd]. intros loc Hloc. simpl in Hloc. lia.
    + eapply Forall_impl; [|exact Hadd2]. intros loc ->. lia.
  - rewrite length_app, Nat2Z.inj_add, Nat2Z.inj_succ, Z.mul_succ_l. lia.
  - intros Hno.
    rewrite length_app, Nat2Z.inj_add, Nat2Z.inj_succ, Z.mul_succ_l, Hall, Hall2;
      [reflexivity | |];
      intros n err Hin; apply (Hno n err), in_or_app;
      [right; apply in_or_app; now left | now left].
  - exact (fresh_ids_app Hf Hf2).
Qed.

(** The loop over the trains returns. *)
Lemma trains_return w :
  returns
    (foldM_lt 1 (NUM_TRAINS + 1) 1 (fun trainId _ => train tza locations trainId) tt) w
    (fun _ w' => trains_done w (Z.to_nat NUM_TRAINS) w').
Proof.
  unfold foldM_lt. rewrite trip_count_unit.
  apply (returns_foldM (fun k (_ : unit) w' => trains_done w k w')).
  - apply trains_done_start.
  - intros k [] w1 _ Hdone. eapply returns_weaken; [apply train_returns|].
    intros u w2 Htrain. apply (trains_done_step Hdone).
    now replace (Z.of_nat (Datatypes.S k)) with (1 + Z.of_nat k * 1) by lia.
Qed.

Lemma connectToMongoDB_reachable w :
  reachable w = true -> connectToMongoDB w = (Normal the_client, connected w).
Proof.
  intros Hr. unfold connectToMongoDB, try_catch, bind, client_connect. now rewrite Hr.
Qed.

Lemma connectToMongoDB_unreachable w :
  reachable w = false ->
  connectToMongoDB w
  = (Throw (ProcessExit 1), set_sink (write Stderr (ErrorConnecting MongoError) (sink w)) w).
Proof.
  intros Hr. unfold connectToMongoDB, try_catch, bind, client_connect. now rewrite Hr.
Qed.

(** After a connection that succeeded the [try] block returns, every
    train done, and [main] completes as the close of the client does. *)
Lemma main_generated w :
  reachable w = true ->
  exists w1,
    trains_done (connected w) (Z.to_nat NUM_TRAINS) w1 /\
    main tza w = if closable w then (Normal tt, closed w1) else (Throw MongoError, w1).
Proof.
  intros Hr.
  destruct (returns_try_body
              (fun err => on_sink (console_error (ErrorDuringGeneration err)))
              (trains_return (connected w))) as ([] & w1 & Eg & Hdone).
  exists w1. split; [exact Hdone|].
  destruct Hdone as (_ & Hcl & _). cbn [closable connected set_sink set_connection] in Hcl.
  unfold main. erewrite bind_normal by (now apply connectToMongoDB_reachable).
  fold locations. cbv zeta. unfold try_finally. fold (generation tza locations) in Eg.
  rewrite Eg. unfold finalization, bind, client_close. rewrite Hcl. now destruct (closable w).
Qed.

(** What a run of [main] that has connected and closed does to the
    world. *)
Definition main_done w (w' : World R S) : Prop :=
  connection w' = Closed /\
  exists added lines,
    documents locations (sink w') = documents locations (sink w) ++ added /\
    console (sink w') = console (sink w) ++ [ConnectedSuccessfully] ++ lines ++ [Complete] /\
    Forall train_line lines /\
    (forall id, 1 <= id <= NUM_TRAINS -> In (InsertedTrain id) lines) /\
    Forall (fun loc => 1 <= train_id loc <= NUM_TRAINS) added /\
    (Z.of_nat (length added) <= NUM_TRAINS * numEntries) /\
    (no_batch_error lines -> Z.of_nat (length added) = NUM_TRAINS * numEntries) /\
    timed w (Z.to_nat NUM_TRAINS) w' added /\
    fresh_ids (entropy w) (entropy w') added.

Lemma main_run w :
  reachable w = true -> closable w = true ->
  returns (main tza) w (fun _ w' => main_done w w').
Proof.
  intros Hr Hcl. destruct (main_generated w Hr) as (w1 & Hdone & Em). rewrite Hcl in Em.
  exists tt, (closed w1). split; [exact Em|].
  destruct Hdone
    as (_ & _ & added & lines & Hd & Hl & Hlines & Hids & Hadd & Hlen & Hall & Ht & Hf).
  split; [reflexivity|]. exists added, lines.
  cbn [sink entropy closed connected set_sink set_connection] in *.
  rewrite write_documents, write_console, Hd, Hl, write_documents, write_console.
  rewrite <- !app_assoc. change (Z.of_nat (Z.to_nat NUM_TRAINS)) with NUM_TRAINS in *.
  repeat (split; [assumption || reflexivity|]). exact Hf.
Qed.

(** C30. When the server cannot be reached the program writes the line of
    the error and ends the process with code 1: nothing is drawn, nothing
    is inserted, the clock is not read, and no handler of [main] or of
    its caller runs. *)
Theorem main_unreachable w :
  reachable w = false ->
  main tza w
  = (Throw (ProcessExit 1), set_sink (write Stderr (ErrorConnecting MongoError) (sink w)) w) /\
  program tza w = main tza w.
Proof.
  intros Hr.
  assert (main tza w = (Throw (ProcessExit 1),
                        set_sink (write Stderr (ErrorConnecting MongoError) (sink w)) w)) as Em
    by (apply bind_throw, connectToMongoDB_unreachable, Hr).
  split; [exact Em|]. unfold program, try_catch. now rewrite Em.
Qed.

(** C31. When the server can be reached and the client can be closed,
    [main] returns with the connection closed: no error reaches its
    handler.  Between the line of the connection and the line of
    completion it writes lines about batches and trains only, among them
    the line of success of every train from 1 to [NUM_TRAINS], also of
    trains whose batches failed. *)
Theorem main_closes w :
  reachable w = true -> closable w = true ->
  exists w' lines,
    main tza w = (Normal tt, w') /\ connection w' = Closed /\
    console (sink w') = console (sink w) ++ [ConnectedSuccessfully] ++ lines ++ [Complete] /\
    Forall train_line lines /\
    forall id, 1 <= id <= NUM_TRAINS -> In (InsertedTrain id) lines.
Proof.
  intros Hr Hcl.
  destruct (main_run w Hr Hcl)
    as ([] & w' & Em & Hc & added & lines & _ & Hl & Hlines & Hids & _).
  now exists w', lines.
Qed.

(** C32. When the server can be reached and the client can be closed,
    what [main] adds to the collection are records of the trains 1 to
    [NUM_TRAINS], at most [numEntries] for each; when no line of a batch
    error was written they are [NUM_TRAINS * numEntries], 51321600
    records. *)
Theorem main_stores w :
  reachable w = true -> closable w = true ->
  exists w' added,
    main tza w = (Normal tt, w') /\
    documents locations (sink w') = documents locations (sink w) ++ added /\
    Forall (fun loc => 1 <= train_id loc <= NUM_TRAINS) added /\
    Z.of_nat (length added) <= NUM_TRAINS * numEntries /\
    (no_batch_error (console (sink w')) -> Z.of_nat (length added) = 51321600).
Proof.
  intros Hr Hcl.
  destruct (main_run w Hr Hcl)
    as ([] & w' & Em & Hc & added & lines & Hd & Hl & _ & _ & Hadd & Hlen & Hall & _).
  exists w', added. split; [exact Em|]. split; [exact Hd|]. split; [exact Hadd|].
  split; [exact Hlen|]. intros Hno. rewrite Hall; [reflexivity|].
  intros n err Hin. apply (Hno n err). rewrite Hl, !in_app_iff. right. right. left. exact Hin.
Qed.

(** C11. The identifiers of all the records that a run of [main] adds to
    the collection, across all trains and batches, are pairwise distinct,
    and none of them had been issued before the run, whenever the source
    of identifiers never repeats one. *)
Theorem main_unique_ids w :
  reachable w = true -> closable w = true ->
  exists w' added,
    main tza w = (Normal tt, w') /\
    documents locations (sink w') = documents locations (sink w) ++ added /\
    NoDup (map location_id added) /\
    forall loc, In loc added -> ~ issued (entropy w) (location_id loc).
Proof.
  intros Hr Hcl.
  destruct (main_run w Hr Hcl)
    as ([] & w' & Em & Hc & added & lines & Hd & _ & _ & _ & _ & _ & _ & _ & _ & Hi & Hnd).
  exists w', added. split; [exact Em|]. split; [exact Hd|]. split; [exact Hnd|].
  intros loc Hin. now destruct (Hi _ Hin).
Qed.

(** C17. Every train has a start date of its own: [main] reads the clock
    at the head of each iteration.  When the server can be reached, the
    client can be closed and the readings leave room for a series within
    the representable time values, [main] has read the clock once per
    train, and every record it has added to the collection for train
    [id] is stamped a whole number of intervals, fewer than [numEntries],
    after reading number [id - 1] of the run. *)
Theorem main_timestamps w :
  reachable w = true -> closable w = true ->
  (forall i, (i < Z.to_nat NUM_TRAINS)%nat -> in_range (readings w (reads w + i))) ->
  exists w' added,
    main tza w = (Normal tt, w') /\
    documents locations (sink w') = documents locations (sink w) ++ added /\
    reads w' = (reads w + Z.to_nat NUM_TRAINS)%nat /\
    Forall (fun loc =>
              stamped_from (readings w (reads w + Z.to_nat (train_id loc - 1))) loc) added.
Proof.
  intros Hr Hcl Hclock.
  destruct (main_run w Hr Hcl)
    as ([] & w' & Em & Hc & added & lines & Hd & _ & _ & _ & _ & _ & _ & Ht & _).
  destruct Ht as (_ & Hn & Hst). exists w', added. auto.
Qed.

(** C16. When the client cannot be closed, the error of [client.close()]
    leaves [main] from its [finally] block, after every train was done:
    the line of completion is not written, the connection stays open, and
    the handler of line 111 writes the error, so that the program still
    ends normally. *)
Theorem program_close_fails w :
  reachable w = true -> closable w = false ->
  exists w1 lines,
    main tza w = (Throw MongoError, w1) /\
    program tza w
    = (Normal tt, set_sink (write Stderr (UncaughtError MongoError) (sink w1)) w1) /\
    connection w1 = Connected /\
    console (sink w1) = console (sink w) ++ [ConnectedSuccessfully] ++ lines /\
    Forall train_line lines /\
    forall id, 1 <= id <= NUM_TRAINS -> In (InsertedTrain id) lines.
Proof.
  intros Hr Hcl. destruct (main_generated w Hr) as (w1 & Hdone & Em). rewrite Hcl in Em.
  destruct Hdone as (Hc & _ & added & lines & _ & Hl & Hlines & Hids & _).
  exists w1, lines. split; [exact Em|].
  split; [unfold program, try_catch; now rewrite Em|]. split; [exact Hc|].
  cbn [sink connected set_sink set_connection] in Hl. rewrite write_console in Hl.
  rewrite Hl, <- app_assoc. now repeat split.
Qed.

End Run.

(** ** The program ends, whatever the series do *)

Section Robust.
Context {num : Type} {N : JSNum num} {R : Type} {E : Entropy num R}.
Context {S : Type} {K : Sink (Location num) S} {L : SinkLaws (Location num) S}.
Variable tza : Z.

Implicit Types (w : World R S).

Lemma total_on_sink_write (m : message) :
  total (on_sink (R:=R) (console_error (doc:=Location num) m)).
Proof. apply total_zoom, console_error_total. Qed.

(** What an iteration throws is an error of the series: the handler of
    line 103 catches it. *)
Lemma train_data_catchable id : catchable (train_data (S:=S) tza id).
Proof.
  unfold train_data. cbv zeta.
  repeat (apply catchable_bind; [|intros ?]);
    repeat apply catchable_zoom;
    auto using catchable_draw, generateLocationData_catchable, total_catchable,
               getRandomSriLankanCoordinates_total.
Qed.

Lemma train_catchable coll id : catchable (train (S:=S) tza coll id).
Proof.
  unfold train.
  apply catchable_bind; [apply train_data_catchable | intros data].
  apply catchable_bind; [|intros ?]; apply catchable_zoom, total_catchable;
    auto using insertDataInBatches_total, console_log_total.
Qed.

(** The series of a train leaves the client as it is. *)
Lemma train_data_client id : preserves connection (train_data (S:=S) tza id).
Proof.
  unfold train_data. cbv zeta.
  repeat (apply preserves_bind; [|intros ?]);
    (apply preserves_zoom || apply preserves_draw); reflexivity.
Qed.

(** The [try] block of [main] with its handler returns. *)
Lemma generation_total coll : total (generation (S:=S) tza coll).
Proof.
  apply total_try_catch; [|intros e; apply total_on_sink_write].
  apply catchable_foldM. intros id []. apply train_catchable.
Qed.

(** C14. The program ends by itself in every world: with the code 1 of
    [process.exit] when the server cannot be reached, and normally
    otherwise, whatever the random source, the series, the collection and
    the close of the client do; no error is left uncaught. *)
Theorem program_completes w :
  exists w',
    program tza w = (if reachable w then Normal tt else Throw (ProcessExit 1), w').
Proof.
  unfold program, try_catch, main. destruct (reachable w) eqn:Hr.
  - destruct (generation_total locations (connected w)) as ([] & w1 & Eg & _).
    erewrite bind_normal by (now apply connectToMongoDB_reachable).
    fold locations. cbv zeta. unfold try_finally. rewrite Eg.
    unfold finalization, bind, client_close.
    destruct (closable w1); eexists; reflexivity.
  - erewrite bind_throw by (now apply connectToMongoDB_unreachable).
    eexists; reflexivity.
Qed.

(** *** The program writes to one collection *)

Lemma on_sink_others {A} other (c : M S A) :
  preserves (documents other) c ->
  preserves (fun w => documents other (sink w)) (on_sink (R:=R) c).
Proof. now apply preserves_zoom_in. Qed.

Lemma train_data_others other id :
  preserves (fun w => documents other (sink w)) (train_data (S:=S) tza id).
Proof.
  unfold train_data. cbv zeta.
  repeat (apply preserves_bind; [|intros ?]);
    (apply preserves_zoom || apply preserves_draw); reflexivity.
Qed.

Lemma train_others coll other id :
  other <> coll -> preserves (fun w => documents other (sink w)) (train tza coll id).
Proof.
  intros Hne. unfold train.
  apply preserves_bind; [apply train_data_others | intros data].
  apply preserves_bind; [|intros ?]; apply on_sink_others;
    [now apply insertDataInBatches_others | apply preserves_write].
Qed.

Lemma generation_others coll other :
  other <> coll -> preserves (fun w => documents other (sink w)) (generation tza coll).
Proof.
  intros Hne. apply preserves_try_catch.
  - apply preserves_foldM. intros id []. now apply train_others.
  - intros e. apply on_sink_others, preserves_write.
Qed.

Lemma finalization_others other client :
  preserves (fun w => documents other (sink w)) (finalization (R:=R) (S:=S) client).
Proof.
  apply preserves_bind; [|intros ?; apply on_sink_others, preserves_write].
  intros w r w' Ec. unfold client_close in Ec. now destruct (closable w); inv Ec.
Qed.

Lemma connectToMongoDB_others other :
  preserves (fun w => documents other (sink w)) (connectToMongoDB (R:=R) (S:=S)).
Proof.
  unfold connectToMongoDB. cbv zeta. apply preserves_try_catch.
  - apply preserves_bind; [|intros ?].
    + intros w r w' Ec. unfold client_connect in Ec. now destruct (reachable w); inv Ec.
    + apply preserves_bind; [apply on_sink_others, preserves_write|].
      intros ?. apply preserves_ret.
  - intros e. apply preserves_bind; [apply on_sink_others, preserves_write|].
    intros ?. apply preserves_throw.
Qed.

(** The client that [main] gets is the client of mongoConnection.js. *)
Lemma connectToMongoDB_client w client w1 :
  connectToMongoDB w = (Normal client, w1) -> client = the_client.
Proof.
  unfold connectToMongoDB, try_catch, bind, client_connect.
  destruct (reachable w); cbn; intros Ec; now inv Ec.
Qed.

Lemma main_others other :
  other <> locations -> preserves (fun w => documents other (sink w)) (main (S:=S) tza).
Proof.
  intros Hne w r w' Erun. unfold main, bind in Erun.
  destruct (connectToMongoDB w) as [[client|e] w1] eqn:Ec.
  - pose proof (connectToMongoDB_client _ Ec) as ->.
    rewrite <- (connectToMongoDB_others other _ Ec).
    exact (preserves_try_finally (generation_others Hne)
             (finalization_others other the_client) _ Erun).
  - inv Erun. apply (connectToMongoDB_others other _ Ec).
Qed.

(** C19. Whatever happens in a run of the program, the one collection it
    writes to is [locations] of the database [trainData]: the documents of
    every other collection of the server are as they were before. *)
Theorem program_other_collections w r w' other :
  program tza w = (r, w') -> other <> locations ->
  documents other (sink w') = documents other (sink w).
Proof.
  intros Erun Hne. revert w r w' Erun.
  apply preserves_try_catch; [now apply main_others|].
  intros e. apply on_sink_others, preserves_write.
Qed.

End Robust.

(** ** The generator in exact arithmetic *)

#[export] Instance exact_Generator {num R} {N : JSNum num} {X : ExactNum num}
  {E : Entropy num R} : Generator num R.
Proof.
  split. intros tza id startDate segments r Hk. apply series_defined; [discriminate|].
  intros i Hi.
  destruct (@segment_lookup num N X i numEntries segments Hi) as (seg & Eget & _);
    [|congruence].
  unfold minSegments in Hk. destruct segments; [simpl in Hk; lia | discriminate].
Qed.

(** ** Runs *)

(** A world whose server can be reached and whose client can be closed,
    in the rationals, with the random source [lcg] and a collection that
    accepts everything. *)
Definition world_up : World lcg (store (Location QArith_base.Q)) :=
  {| entropy := seed;
     sink := {| store_documents := []; store_console := []; outcomes := [] |};
     readings := fun k => 1700000000000 + Z.of_nat k;
     reads := 0;
     connection := NotConnected;
     reachable := true;
     closable := true |}.

(** The same world with the server out of reach. *)
Definition world_down : World lcg (store (Location QArith_base.Q)) :=
  {| entropy := seed;
     sink := {| store_documents := []; store_console := []; outcomes := [] |};
     readings := fun k => 1700000000000 + Z.of_nat k;
     reads := 0;
     connection := NotConnected;
     reachable := false;
     closable := true |}.

(** The same world with a client that cannot be closed. *)
Definition world_stuck : World lcg (store (Location QArith_base.Q)) :=
  {| entropy := seed;
     sink := {| store_documents := []; store_console := []; outcomes := [] |};
     readings := fun k => 1700000000000 + Z.of_nat k;
     reads := 0;
     connection := NotConnected;
     reachable := true;
     closable := false |}.

Lemma main_unreachable_witness :
  main tza_colombo world_down
  = (Throw (ProcessExit 1),
     set_sink (write Stderr (ErrorConnecting MongoError) (sink world_down)) world_down) /\
  program tza_colombo world_down = main tza_colombo world_down.
Proof. apply main_unreachable. reflexivity. Defined.

Lemma main_closes_witness :
  exists w' lines,
    main tza_colombo world_up = (Normal tt, w') /\ connection w' = Closed /\
    console (sink w')
    = console (sink world_up) ++ [ConnectedSuccessfully] ++ lines ++ [Complete] /\
    Forall train_line lines /\
    forall id, 1 <= id <= NUM_TRAINS -> In (InsertedTrain id) lines.
Proof. apply main_closes; reflexivity. Defined.

Lemma main_stores_witness :
  exists w' added,
    main tza_colombo world_up = (Normal tt, w') /\
    documents locations (sink w') = documents locations (sink world_up) ++ added /\
    Forall (fun loc => 1 <= train_id loc <= NUM_TRAINS) added /\
    Z.of_nat (length added) <= NUM_TRAINS * numEntries /\
    (no_batch_error (console (sink w')) -> Z.of_nat (length added) = 51321600).
Proof. apply main_stores; reflexivity. Defined.

Lemma main_unique_ids_witness :
  exists w' added,
    main tza_colombo world_up = (Normal tt, w') /\
    documents locations (sink w') = documents locations (sink world_up) ++ added /\
    NoDup (map location_id added) /\
    forall loc, In loc added -> ~ issued (entropy world_up) (location_id loc).
Proof. apply main_unique_ids; reflexivity. Defined.

Lemma program_close_fails_witness :
  exists w1 lines,
    main tza_colombo world_stuck = (Throw MongoError, w1) /\
    program tza_colombo world_stuck
    = (Normal tt, set_sink (write Stderr (UncaughtError MongoError) (sink w1)) w1) /\
    connection w1 = Connected /\
    console (sink w1) = console (sink world_stuck) ++ [ConnectedSuccessfully] ++ lines /\
    Forall train_line lines /\
    forall id, 1 <= id <= NUM_TRAINS -> In (InsertedTrain id) lines.
Proof. apply program_close_fails; reflexivity. Defined.

Lemma program_completes_witness :
  exists w', program tza_colombo world_down = (Throw (ProcessExit 1), w').
Proof. exact (program_completes tza_colombo world_down). Defined.

(** Another collection of the database. *)
Definition trains : Collection :=
  db_collection (client_db the_client "trainData") "trains".

Lemma program_other_collections_witness :
  exists r w',
    program tza_colombo world_up = (r, w') /\
    documents trains (sink w') = documents trains (sink world_up).
Proof.
  destruct (program tza_colombo world_up) as [r w'] eqn:Erun. exists r, w'.
  split; [reflexivity|].
  eapply program_other_collections; [exact Erun | discriminate].
Defined.

Lemma main_timestamps_witness :
  exists w' added,
    main tza_colombo world_up = (Normal tt, w') /\
    documents locations (sink w') = documents locations (sink world_up) ++ added /\
    reads w' = (reads world_up + Z.to_nat NUM_TRAINS)%nat /\
    Forall (fun loc =>
              stamped_from
                (readings world_up (reads world_up + Z.to_nat (train_id loc - 1))) loc)
      added.
Proof.
  apply main_timestamps; [reflexivity | reflexivity|].
  intros i Hi. change (Z.to_nat NUM_TRAINS) with 396%nat in Hi.
  unfold in_range. change (numEntries * interval_ms) with 7776000000.
  cbn [readings reads world_up]. unfold maxTime. lia.
Defined.
