(* ===== verification/Machine.v ===== *)
(** * Machine: the run of the program, step by step

    Models the control of dataGenerator.js lines 72-111 as a state
    machine.  A configuration is a control point of the program together
    with the world; a step runs the program from one control point to the
    next: the connection, the guard and the head of the loop over the
    trains (lines 90-97), the guard and the body of the loop over the
    batches (lines 73-81), the [finally] block.  The blocks between
    control points are the functions of [Main] and [Batch].

    A control point carries the local variables that are live there: the
    client and the collection handle from the connection on, the train,
    its series and the counter in the loop over the batches.

    [step] is the transition relation, [next] the function that computes
    it; the relation is the graph of the function.  The theorems: the
    machine refines [program] (its run from [Connecting] ends in the
    completion that [program] computes, and in no other); every run from
    every configuration ends (liveness); and an invariant of the
    configurations that can be reached, by induction on the run. *)

From Stdlib Require Import List ZArith Lia Bool.
From Stdlib Require String.
From S2P Require Import Prelude Mongo JSNumber Random JSDate Route Telemetry Batch Main.
Import ListNotations String.StringSyntax.

Local Open Scope js_scope.
Local Open Scope Z_scope.

Set Implicit Arguments.

(** ** Runs of a transition relation *)

Section Sequences.
Variable state : Type.
Variable step : state -> state -> Prop.

(** Zero, one or several steps. *)
Inductive star : state -> state -> Prop :=
| star_refl a : star a a
| star_step a b c : step a b -> star b c -> star a c.

(** Every run from [a] reaches a state where [P] holds: [P] holds of [a],
    or [a] can step and every step leads to a state from where every run
    reaches [P]. *)
Inductive eventually (P : state -> Prop) : state -> Prop :=
| eventually_done a : P a -> eventually P a
| eventually_step a :
    (exists b, step a b) -> (forall b, step a b -> eventually P b) -> eventually P a.

Definition deterministic : Prop :=
  forall a b c, step a b -> step a c -> b = c.

Lemma star_one a b : step a b -> star a b.
Proof. intros Hs. eapply star_step; [exact Hs | apply star_refl]. Qed.

Lemma star_trans a b c : star a b -> star b c -> star a c.
Proof. induction 1; intros Hbc; [assumption|]. eapply star_step; eauto. Qed.

(** In a deterministic machine a run that reaches [P] is every run. *)
Lemma star_eventually (P : state -> Prop) a b :
  deterministic -> star a b -> P b -> eventually P a.
Proof.
  intros Hdet. induction 1 as [a|a b c Hab Hbc IH]; intros Hp.
  - now apply eventually_done.
  - apply eventually_step; [now exists b|].
    intros b' Hab'. rewrite (Hdet _ _ _ Hab' Hab). now apply IH.
Qed.

(** In a deterministic machine a run ends in one state only. *)
Lemma star_final_unique (final : state -> Prop) a b c :
  deterministic -> (forall x y, final x -> ~ step x y) ->
  star a b -> final b -> star a c -> final c -> b = c.
Proof.
  intros Hdet Hirred. induction 1 as [a|a b1 b Hab Hbc IH]; intros Hb Hac Hc.
  - inv Hac; [reflexivity|]. now destruct (Hirred _ _ Hb H).
  - inv Hac; [now destruct (Hirred _ _ Hc Hab)|].
    rewrite (Hdet _ _ _ H Hab) in H0. now apply IH.
Qed.

(** What holds at the start of a run and is kept by every step holds
    along the run. *)
Lemma star_invariant (Inv : state -> Prop) a b :
  (forall x y, Inv x -> step x y -> Inv y) -> star a b -> Inv a -> Inv b.
Proof. intros Hkeep. induction 1; eauto. Qed.

End Sequences.

(** ** The machine *)

Section Machine.
Context {num : Type} {N : JSNum num} {R : Type} {E : Entropy num R}.
Context {S : Type} {K : Sink (Location num) S}.

(** The local time zone adjustment of the process, in milliseconds. *)
Variable tza : Z.

(** The control points of the program, each with the local variables of
    [main] and of [insertDataInBatches] that are live there. *)
Inductive control : Type :=
| Connecting
    (** line 85: before [connectToMongoDB] *)
| TrainLoop (client : MongoClient) (collection : Collection) (trainId : Z)
    (** line 90: at the guard of the loop over the trains *)
| BatchLoop (client : MongoClient) (collection : Collection) (trainId : Z)
    (data : list (Location num)) (i : Z)
    (** line 73: at the guard of the loop over the batches *)
| Closing (client : MongoClient)
    (** line 105: before the [finally] block *)
| Finished
    (** after line 111: the promise of [main] is settled *)
| Exited (code : Z).
    (** the process was ended by [process.exit] *)

Definition config : Type := control * World R S.

Implicit Types (w : World R S) (c : config) (client : MongoClient) (coll : Collection).

(** An error thrown in the [try] block of [main]: the handler of line 103
    writes its line and the [finally] block follows; [process.exit] ends
    the process. *)
Definition caught client (e : js_error) (w : World R S) : config :=
  match e with
  | ProcessExit code => (Exited code, w)
  | _ => (Closing client, set_sink (write Stderr (ErrorDuringGeneration e) (sink w)) w)
  end.

(** An error thrown outside the [try] block: the handler of line 111
    writes it. *)
Definition uncaught (e : js_error) (w : World R S) : config :=
  match e with
  | ProcessExit code => (Exited code, w)
  | _ => (Finished, set_sink (write Stderr (UncaughtError e) (sink w)) w)
  end.

Inductive step : config -> config -> Prop :=
| step_connect w client w' :
    connectToMongoDB w = (Normal client, w') ->
    step (Connecting, w)
         (TrainLoop client (db_collection (client_db client "trainData") "locations") 1, w')
| step_connect_throws w e w' :
    connectToMongoDB w = (Throw e, w') ->
    step (Connecting, w) (uncaught e w')
| step_train client coll trainId w data w' :
    trainId <= NUM_TRAINS -> train_data tza trainId w = (Normal data, w') ->
    step (TrainLoop client coll trainId, w) (BatchLoop client coll trainId data 0, w')
| step_train_throws client coll trainId w e w' :
    trainId <= NUM_TRAINS -> train_data tza trainId w = (Throw e, w') ->
    step (TrainLoop client coll trainId, w) (caught client e w')
| step_trains_done client coll trainId w :
    NUM_TRAINS < trainId ->
    step (TrainLoop client coll trainId, w) (Closing client, w)
| step_batch client coll trainId data i w w' :
    i < Z.of_nat (length data) ->
    on_sink (insert_batch coll data i) w = (Normal tt, w') ->
    step (BatchLoop client coll trainId data i, w)
         (BatchLoop client coll trainId data (i + BATCH_SIZE), w')
| step_batch_throws client coll trainId data i w e w' :
    i < Z.of_nat (length data) ->
    on_sink (insert_batch coll data i) w = (Throw e, w') ->
    step (BatchLoop client coll trainId data i, w) (caught client e w')
| step_batches_done client coll trainId data i w :
    Z.of_nat (length data) <= i ->
    step (BatchLoop client coll trainId data i, w)
         (TrainLoop client coll (trainId + 1),
          set_sink (write Stdout (InsertedTrain trainId) (sink w)) w)
| step_close client w w' :
    finalization client w = (Normal tt, w') ->
    step (Closing client, w) (Finished, w')
| step_close_throws client w e w' :
    finalization client w = (Throw e, w') ->
    step (Closing client, w) (uncaught e w').

(** The step as a function: [None] where the program has ended. *)
Definition next (c : config) : option config :=
  let (pc, w) := c in
  match pc with
  | Connecting =>
      Some match connectToMongoDB w with
           | (Normal client, w') =>
               (TrainLoop client (db_collection (client_db client "trainData") "locations") 1,
                w')
           | (Throw e, w') => uncaught e w'
           end
  | TrainLoop client coll trainId =>
      Some (if trainId <=? NUM_TRAINS then
              match train_data tza trainId w with
              | (Normal data, w') => (BatchLoop client coll trainId data 0, w')
              | (Throw e, w') => caught client e w'
              end
            else (Closing client, w))
  | BatchLoop client coll trainId data i =>
      Some (if i <? Z.of_nat (length data) then
              match on_sink (insert_batch coll data i) w with
              | (Normal _, w') => (BatchLoop client coll trainId data (i + BATCH_SIZE), w')
              | (Throw e, w') => caught client e w'
              end
            else (TrainLoop client coll (trainId + 1),
                  set_sink (write Stdout (InsertedTrain trainId) (sink w)) w))
  | Closing client =>
      Some match finalization client w with
           | (Normal _, w') => (Finished, w')
           | (Throw e, w') => uncaught e w'
           end
  | Finished | Exited _ => None
  end.

(** The machine run for at most [fuel] steps. *)
Fixpoint run (fuel : nat) (c : config) : config :=
  match fuel with
  | O => c
  | Datatypes.S fuel' =>
      match next c with
      | Some c' => run fuel' c'
      | None => c
      end
  end.

(** The configurations where the program has ended. *)
Definition final (c : config) : Prop :=
  match fst c with
  | Finished | Exited _ => True
  | _ => False
  end.

(** The configuration in which a completion of [program] leaves the
    machine. *)
Definition outcome (r : completion unit * World R S) : config :=
  match r with
  | (Throw (ProcessExit code), w) => (Exited code, w)
  | (_, w) => (Finished, w)
  end.

(** ** The program from a control point

    What remains of the [try] block of [main] from the guard of the loop
    over the trains, and from the guard of the loop over the batches, as
    functions of [Main]. *)

Definition trains_from coll (trainId : Z) : M (World R S) unit :=
  foldM_lt trainId (NUM_TRAINS + 1) 1 (fun trainId _ => train tza coll trainId) tt.

Definition batches_from coll (trainId : Z) (data : list (Location num)) (i : Z) :
    M (World R S) unit :=
  _ <- on_sink (foldM_lt i (Z.of_nat (length data)) BATCH_SIZE
                  (fun i _ => insert_batch coll data i) tt) ;;
  _ <- on_sink (console_log (InsertedTrain trainId)) ;;
  trains_from coll (trainId + 1).

(** Where the [try] block lands on a completion. *)
Definition landing client (r : completion unit * World R S) : config :=
  match r with
  | (Normal _, w) => (Closing client, w)
  | (Throw e, w) => caught client e w
  end.

(** Where [main] lands on a completion. *)
Definition settled (r : completion unit * World R S) : config :=
  match r with
  | (Normal _, w) => (Finished, w)
  | (Throw e, w) => uncaught e w
  end.

(** ** The relation is the graph of the function *)

Lemma step_next_some c c' : step c c' -> next c = Some c'.
Proof.
  destruct 1; cbn [next];
    repeat match goal with
           | H : _ = (_, _) |- _ => rewrite H
           | |- context [?a <=? ?b] => destruct (Z.leb_spec a b); try lia
           | |- context [?a <? ?b] => destruct (Z.ltb_spec a b); try lia
           end; reflexivity.
Qed.

Lemma next_some_step c c' : next c = Some c' -> step c c'.
Proof.
  destruct c as [[| client coll trainId | client coll trainId data i | client | |code] w];
    cbn [next]; intros Ec; inv Ec.
  - destruct (connectToMongoDB w) as [[client|e] w'] eqn:Ew; now constructor.
  - destruct (Z.leb_spec trainId NUM_TRAINS); [|now constructor].
    destruct (train_data tza trainId w) as [[data|e] w'] eqn:Ew; now constructor.
  - destruct (Z.ltb_spec i (Z.of_nat (length data))); [|now constructor].
    destruct (on_sink (insert_batch coll data i) w) as [[[]|e] w'] eqn:Ew; now constructor.
  - destruct (finalization client w) as [[[]|e] w'] eqn:Ef; now constructor.
Qed.

Lemma step_deterministic : deterministic step.
Proof. intros a b c Hb%step_next_some Hc%step_next_some. congruence. Qed.

Lemma final_irreducible c c' : final c -> ~ step c c'.
Proof.
  intros Hf Hs%step_next_some. destruct c as [[] w]; cbn in Hf, Hs; try discriminate; easy.
Qed.

Lemma next_none_final c : next c = None -> final c.
Proof. destruct c as [[] w]; cbn; intros Ec; (discriminate || exact I). Qed.

Lemma run_star fuel c : star step c (run fuel c).
Proof.
  revert c. induction fuel as [|fuel IH]; intros c; cbn [run]; [apply star_refl|].
  destruct (next c) as [c'|] eqn:Ec; [|apply star_refl].
  eapply star_step; [apply next_some_step, Ec | apply IH].
Qed.

(** A run of the relation is a run of the function, under enough fuel. *)
Lemma star_run c c' : star step c c' -> exists fuel, run fuel c = c'.
Proof.
  induction 1 as [c|c c1 c' Hs _ [fuel IH]]; [now exists 0%nat|].
  exists (Datatypes.S fuel). cbn [run]. now rewrite (step_next_some Hs).
Qed.

(** ** The loops, unrolled at their guards *)

Lemma set_sink_sink (w : World R S) : set_sink (sink w) w = w.
Proof. now destruct w. Qed.

Lemma on_sink_bind {A B} (c : M S A) (k : A -> M S B) (w : World R S) :
  on_sink (bind c k) w = bind (on_sink c) (fun a => on_sink (k a)) w.
Proof. unfold on_sink, zoom, bind. destruct (c (sink w)) as [[a|e] s']; reflexivity. Qed.

Lemma trains_from_done coll trainId w :
  NUM_TRAINS < trainId -> trains_from coll trainId w = (Normal tt, w).
Proof. intros Hid. unfold trains_from. rewrite foldM_lt_done by lia. reflexivity. Qed.

Lemma trains_from_step coll trainId w :
  trainId <= NUM_TRAINS ->
  trains_from coll trainId w
  = bind (train_data tza trainId) (fun data => batches_from coll trainId data 0) w.
Proof.
  intros Hid. unfold trains_from. rewrite foldM_lt_step by lia.
  unfold train, batches_from, insertDataInBatches. rewrite bind_assoc.
  apply bind_ext. intros data w1. rewrite bind_assoc.
  apply bind_ext. intros [] w2. apply bind_ext. now intros [] w3.
Qed.

Lemma batches_from_done coll trainId data i w :
  Z.of_nat (length data) <= i ->
  batches_from coll trainId data i w
  = trains_from coll (trainId + 1) (set_sink (write Stdout (InsertedTrain trainId) (sink w)) w).
Proof.
  intros Hi. unfold batches_from. rewrite foldM_lt_done by (reflexivity || assumption).
  unfold bind, on_sink, zoom, ret, console_log. now rewrite set_sink_sink.
Qed.

Lemma batches_from_step coll trainId data i w :
  i < Z.of_nat (length data) ->
  batches_from coll trainId data i w
  = bind (on_sink (insert_batch coll data i))
      (fun _ => batches_from coll trainId data (i + BATCH_SIZE)) w.
Proof.
  intros Hi. unfold batches_from. rewrite foldM_lt_step by (reflexivity || assumption).
  erewrite bind_head by apply on_sink_bind. rewrite bind_assoc.
  apply bind_ext. now intros [] w1.
Qed.

(** ** The machine runs the functions of [Main] *)

(** From the guard of the loop over the batches the machine runs to
    where the rest of the [try] block lands, if it does so from the guard
    of the next train. *)
Lemma batches_run client coll trainId data :
  (forall w, star step (TrainLoop client coll (trainId + 1), w)
               (landing client (trains_from coll (trainId + 1) w))) ->
  forall n i w, trip_count i (Z.of_nat (length data)) BATCH_SIZE = n ->
  star step (BatchLoop client coll trainId data i, w)
    (landing client (batches_from coll trainId data i w)).
Proof.
  intros Hnext. induction n as [|n IH]; intros i w Hn;
    destruct (Z.lt_ge_cases i (Z.of_nat (length data))) as [Hlt|Hge];
    try (rewrite batches_from_done by assumption;
         eapply star_step; [now apply step_batches_done | apply Hnext]);
    rewrite trip_count_step in Hn by (reflexivity || assumption); [discriminate|].
  rewrite batches_from_step by assumption. unfold bind.
  destruct (on_sink (insert_batch coll data i) w) as [[[]|e] w'] eqn:Eb.
  - eapply star_step; [apply step_batch; eassumption|]. apply IH. congruence.
  - apply star_one. apply step_batch_throws; assumption.
Qed.

(** From the guard of the loop over the trains the machine runs to where
    the [try] block lands. *)
Lemma trains_run client coll m :
  forall trainId w, Z.to_nat (NUM_TRAINS + 1 - trainId) = m ->
  star step (TrainLoop client coll trainId, w) (landing client (trains_from coll trainId w)).
Proof.
  induction m as [|m IH]; intros trainId w Hm.
  - rewrite trains_from_done by lia. apply star_one, step_trains_done. lia.
  - rewrite trains_from_step by lia. unfold bind.
    destruct (train_data tza trainId w) as [[data|e] w'] eqn:Ed.
    + eapply star_step; [apply step_train; [lia | exact Ed]|].
      eapply batches_run; [intros w2; apply IH; lia | reflexivity].
    + apply star_one, step_train_throws; [lia | exact Ed].
Qed.

Lemma closing_run client w : star step (Closing client, w) (settled (finalization client w)).
Proof.
  apply star_one. destruct (finalization client w) as [[[]|e] w'] eqn:Ef; now constructor.
Qed.

(** From the guard of the first train to the end of [main]. *)
Lemma generation_run client coll w :
  star step (TrainLoop client coll 1, w)
    (settled (try_finally (generation tza coll) (finalization client) w)).
Proof.
  eapply star_trans; [eapply trains_run; reflexivity|].
  unfold try_finally, generation, try_catch. fold (trains_from coll 1).
  destruct (trains_from coll 1 w) as [[[]|[]] w1]; cbn [landing caught is_exit];
    try apply star_refl;
    (eapply star_trans; [apply closing_run|]);
    unfold on_sink, zoom, console_error; cbn [sink set_sink];
    match goal with
    | |- context [finalization client ?w] => destruct (finalization client w) as [[[]|e] w2]
    end;
    apply star_refl.
Qed.

Lemma outcome_program w : outcome (program tza w) = settled (main tza w).
Proof. unfold program, try_catch. destruct (main tza w) as [[[]|[]] w']; reflexivity. Qed.

(** The machine runs from [Connecting] to the outcome of [program]. *)
Lemma program_run w : star step (Connecting, w) (outcome (program tza w)).
Proof.
  rewrite outcome_program. unfold main, bind.
  destruct (connectToMongoDB w) as [[client|e] w0] eqn:Ec.
  - eapply star_step; [apply step_connect; eassumption | apply generation_run].
  - apply star_one. apply step_connect_throws; assumption.
Qed.

Lemma outcome_final r : final (outcome r).
Proof. destruct r as [[[]|[]] w]; exact I. Qed.

Lemma settled_final r : final (settled r).
Proof. destruct r as [[[]|[]] w]; exact I. Qed.

(** C7. Refinement.  The machine implements [program]: its run from
    [Connecting] ends, in the configuration that the completion and the
    final world of [program] give, and in no other. *)
Theorem machine_refines_program w c :
  star step (Connecting, w) c /\ final c <-> c = outcome (program tza w).
Proof.
  split.
  - intros [Hrun Hf].
    eapply star_final_unique with (final := final);
      eauto using step_deterministic, final_irreducible, program_run, outcome_final.
  - intros ->. split; [apply program_run | apply outcome_final].
Qed.

(** ** Every run ends *)

Lemma landing_ends client r : exists c, star step (landing client r) c /\ final c.
Proof.
  destruct r as [[[]|[]] w]; cbn [landing caught];
    try (eexists; split; [apply closing_run | apply settled_final]).
  eexists. split; [apply star_refl | exact I].
Qed.

(** From every configuration there is a run to the end of the program. *)
Lemma ends c : exists c', star step c c' /\ final c'.
Proof.
  destruct c as [[|client coll trainId|client coll trainId data i|client| |code] w];
    try (eexists; split; [apply star_refl | exact I]).
  - exists (outcome (program tza w)). split; [apply program_run | apply outcome_final].
  - destruct (landing_ends client (trains_from coll trainId w)) as (c & Hc & Hf).
    exists c. split; [|exact Hf].
    eapply star_trans; [eapply trains_run; reflexivity | exact Hc].
  - destruct (landing_ends client (batches_from coll trainId data i w)) as (c & Hc & Hf).
    exists c. split; [|exact Hf].
    eapply star_trans; [|exact Hc].
    eapply batches_run; [intros w2; eapply trains_run|]; reflexivity.
  - exists (settled (finalization client w)).
    split; [apply closing_run | apply settled_final].
Qed.

(** C8. Liveness.  From every configuration, every run of the machine
    reaches the end of the program: [Finished] or [Exited].  No loop of
    the program runs forever, whatever the random source, the
    collection and the client do; with enough fuel the function [run]
    computes the end of the run. *)
Theorem program_ends c :
  eventually step final c /\ exists fuel, final (run fuel c).
Proof.
  destruct (ends c) as (c' & Hrun & Hf). split.
  - eapply star_eventually; eauto using step_deterministic.
  - destruct (star_run Hrun) as [fuel <-]. now exists fuel.
Qed.

(** ** An invariant of the run *)

Context {L : SinkLaws (Location num) S}.

(** The local variables of [main] at a control point in which they are
    live: the client of mongoConnection.js and the collection [locations]
    of its database [trainData]. *)
Definition handles client coll : Prop := client = the_client /\ coll = locations.

(** What holds at the control points of a run that starts with a client
    that is not connected: the loops run with the client connected and
    write to [locations], the counters within their bounds, the counter of
    the batches a multiple of [BATCH_SIZE]; the process exits with code 1
    only, and before any connection; the program finishes with the client
    closed, unless the client cannot be closed. *)
Definition inv (c : config) : Prop :=
  let (pc, w) := c in
  match pc with
  | Connecting => connection w = NotConnected
  | TrainLoop client coll trainId =>
      handles client coll /\ connection w = Connected /\ 1 <= trainId <= NUM_TRAINS + 1
  | BatchLoop client coll trainId data i =>
      handles client coll /\ connection w = Connected /\ 1 <= trainId <= NUM_TRAINS /\
      0 <= i /\ i mod BATCH_SIZE = 0
  | Closing client => client = the_client /\ connection w = Connected
  | Finished => connection w = Closed \/ closable w = false
  | Exited code => code = 1 /\ connection w = NotConnected
  end.

Lemma connectToMongoDB_cases (w : World R S) :
  connectToMongoDB w = (Normal the_client, connected w) \/
  connectToMongoDB w
  = (Throw (ProcessExit 1), set_sink (write Stderr (ErrorConnecting MongoError) (sink w)) w).
Proof.
  destruct (reachable w) eqn:Hr;
    [left; now apply connectToMongoDB_reachable
    | right; now apply connectToMongoDB_unreachable].
Qed.

Lemma finalization_cases client (w : World R S) :
  finalization client w = (Normal tt, closed w) \/
  finalization client w = (Throw MongoError, w) /\ closable w = false.
Proof.
  unfold finalization, bind, client_close.
  destruct (closable w); [left | right; split]; reflexivity.
Qed.

Lemma train_data_connection trainId w r w' :
  train_data tza trainId w = (r, w') -> connection w' = connection w.
Proof. apply train_data_client. Qed.

Lemma insert_step_connection coll data i w r w' :
  on_sink (insert_batch coll data i) w = (r, w') -> connection w' = connection w.
Proof. now apply preserves_zoom. Qed.

Lemma insert_step_catchable coll data i :
  catchable (on_sink (R:=R) (insert_batch coll data i)).
Proof. apply catchable_zoom, total_catchable, insert_batch_total. Qed.

Lemma caught_inv client e w :
  is_exit e = false -> client = the_client -> connection w = Connected ->
  inv (caught client e w).
Proof. destruct e; [easy..|discriminate]. Qed.

(** Every step keeps the invariant. *)
Lemma step_inv c c' : inv c -> step c c' -> inv c'.
Proof.
  intros Hinv Hs.
  destruct Hs as [w cl w' Ec | w e w' Ec | cl coll id w data w' Hid Ed
                 | cl coll id w e w' Hid Ed | cl coll id w Hid
                 | cl coll id data i w w' Hi Eb | cl coll id data i w e w' Hi Eb
                 | cl coll id data i w Hi | cl w w' Ef | cl w e w' Ef]; cbn [inv] in *.
  - destruct (connectToMongoDB_cases w) as [Ec'|Ec']; rewrite Ec' in Ec; inv Ec.
    split; [now split|]. split; [reflexivity | unfold NUM_TRAINS; lia].
  - destruct (connectToMongoDB_cases w) as [Ec'|Ec']; rewrite Ec' in Ec; inv Ec.
    split; [reflexivity | exact Hinv].
  - destruct Hinv as (Hh & Hc & Hr). apply train_data_connection in Ed.
    repeat split; (apply Hh || congruence || lia || reflexivity).
  - destruct Hinv as ([Hcl _] & Hc & _).
    apply caught_inv; [eapply train_data_catchable; eassumption | exact Hcl|].
    apply train_data_connection in Ed. congruence.
  - destruct Hinv as ([Hcl _] & Hc & _). now split.
  - destruct Hinv as (Hh & Hc & Hr & Hi0 & Hm). apply insert_step_connection in Eb.
    unfold BATCH_SIZE in *. repeat split; try (apply Hh || congruence || lia).
    change (i + 1000) with (i + 1 * 1000). now rewrite Z_mod_plus_full.
  - destruct Hinv as ([Hcl _] & Hc & _).
    apply caught_inv; [eapply insert_step_catchable; eassumption | exact Hcl|].
    apply insert_step_connection in Eb. congruence.
  - destruct Hinv as (Hh & Hc & Hr & _). split; [exact Hh|]. split; [exact Hc | lia].
  - destruct (finalization_cases cl w) as [Ef'|[Ef' _]]; rewrite Ef' in Ef; inv Ef. now left.
  - destruct (finalization_cases cl w) as [Ef'|[Ef' Hcl]]; rewrite Ef' in Ef; inv Ef.
    right. exact Hcl.
Qed.

(** C15. Invariant.  Along every run of the program from a world whose
    client is not connected: [insertMany] and the random source are used
    only while the client is connected, and [insertMany] on the collection
    [locations] of the database [trainData] only; the client that is
    closed is the client that was connected; the train counter stays
    within 1 and [NUM_TRAINS + 1]; the batch counter is a non-negative
    multiple of [BATCH_SIZE], so that the batch number
    [i / BATCH_SIZE + 1] is an integer; the process exits only with code 1
    and before any connection; and the program finishes with the client
    closed, unless the client cannot be closed. *)
Theorem reachable_inv w c :
  connection w = NotConnected -> star step (Connecting, w) c -> inv c.
Proof.
  intros Hw Hrun. eapply star_invariant; [apply step_inv | exact Hrun | exact Hw].
Qed.

End Machine.

(** ** Runs *)

(** A record of the last train. *)
Definition sample : Location QArith_base.Q :=
  {| location_id := 0%N; train_id := 396; timestamp := Some 0;
     loc_latitude := QArith_base.inject_Z 6; loc_longitude := QArith_base.inject_Z 80;
     speed := 60; direction := 90 |}.

(** The machine at the guard of the loop over the batches of the last
    train, with a series of 1500 records. *)
Definition last_batches : config :=
  (BatchLoop the_client locations 396 (repeat sample 1500) 0, connected world_up).

(** From there the machine inserts two batches, writes the line of the
    train, leaves the loop over the trains, closes the client and
    finishes, in five steps. *)
Example last_batches_run :
  fst (run tza_colombo 5 last_batches) = Finished /\
  console (sink (snd (run tza_colombo 5 last_batches)))
  = [ConnectedSuccessfully; InsertedBatch 1; InsertedBatch 2; InsertedTrain 396; Complete] /\
  length (documents locations (sink (snd (run tza_colombo 5 last_batches)))) = 1500%nat /\
  connection (snd (run tza_colombo 5 last_batches)) = Closed.
Proof. vm_compute. repeat split. Qed.

Lemma reachable_inv_witness : inv (run tza_colombo 1 (Connecting, world_up)).
Proof.
  eapply reachable_inv with (w := world_up);
    [exact store_SinkLaws | reflexivity | apply run_star].
Defined.
