(* ===== verification/Scenarios.v ===== *)
(** * Scenarios: the program on the numbers of the machine

    The definitions of [Route] and [Telemetry] evaluated in binary64
    ([Float64]), the arithmetic Node.js runs them in.

    - With the parameters of [main] (129600 entries, 5 to 15 segments) the
      segment index computed in binary64 is the index computed in exact
      arithmetic, for every entry; hence no run of [generateLocationData]
      started by [main] throws.  The 11 * 129600 indices are compared by
      evaluation, on machine integers ([agree_from]); [uint63_bucket] and
      [agree_from_spec] connect the evaluation to the definitions on [Z].
    - Hence binary64 implements the interface [Generator] of [Main] with
      every random source, and the theorems of [main] hold of the program
      as Node.js runs it ([main_binary64]).
    - A route starts at its start point bit for bit
      ([route_start_binary64]), and the first record of a series of
      [main]'s size lies at the start of the first segment bit for bit
      ([first_record_binary64]): both by the specification of the
      operations of IEEE 754 ([FloatAxioms]), not by evaluation.  The end
      of a route is the start plus the rounded increments, which need not
      be the end point.
    - Runs on fixed inputs, as examples: the two scenarios of the
      specification, bit for bit; the bucket policy of line 51 where the
      number of entries is not a multiple of the number of segments; a
      route whose last segment ends one unit in the last place away from
      the end point. *)

From Stdlib Require Import List ZArith Bool Lia.
From Stdlib Require Import PrimFloat FloatAxioms SpecFloat Uint63.
From S2P Require Import Prelude Mongo JSNumber Float64 Random JSDate Route Telemetry.
From S2P Require Import Batch Main.
Import ListNotations.

(** ** Definitions *)

Definition point (lat lng : float) : GeoPoint float :=
  {| latitude := lat; longitude := lng |}.

(** The index of line 51 on machine integers and floats: does
    [Math.floor(i / d)] equal [i * k / n], the quotient of integers? *)
Definition index_agrees (d : float) (n k i : int) : bool :=
  PrimFloat.eqb (f64_floor (PrimFloat.div (of_uint63 i) d))
    (of_uint63 (Uint63.div (Uint63.mul i k) n)).

(** [index_agrees] for the [fuel] entries from [i] on. *)
Fixpoint agree_from (d : float) (n k : int) (fuel : nat) (i : int) : bool :=
  match fuel with
  | O => true
  | S fuel' => index_agrees d n k i && agree_from d n k fuel' (Uint63.add i 1)
  end.

(** [index_agrees] for every entry of a series of [n] entries over [k]
    segments. *)
Definition indices_agree (n k : Z) : bool :=
  agree_from (PrimFloat.div (f64_of_int n) (f64_of_int k))
    (Uint63.of_Z n) (Uint63.of_Z k) (Z.to_nat n) (Uint63.of_Z 0).

(** A route of the least number of segments [main] draws. *)
Definition production_route : list (Segment float) :=
  generatePathSegments (point (f64_of_int 6) (f64_of_int 80))
    (point (f64_of_int 7) (f64_of_int 81)) minSegments.

(** A route as [main] builds it: of 5 to 15 segments. *)
Definition production_sized (segments : list (Segment float)) : Prop :=
  (minSegments <= Z.of_nat (length segments) <= maxSegments)%Z.

(** A point whose coordinates are finite and not zero, as those of every
    point of the bounding box are. *)
Definition proper_point (p : GeoPoint float) : Prop :=
  f64_nonzero (latitude p) = true /\ f64_nonzero (longitude p) = true.

(** A point of the bounding box, by the comparisons of binary64. *)
Definition in_box (p : GeoPoint float) : bool :=
  PrimFloat.leb (minLat SRI_LANKA_BOUNDS) (latitude p) &&
  PrimFloat.leb (latitude p) (maxLat SRI_LANKA_BOUNDS) &&
  PrimFloat.leb (minLng SRI_LANKA_BOUNDS) (longitude p) &&
  PrimFloat.leb (longitude p) (maxLng SRI_LANKA_BOUNDS).

(** The extent from [p] to [q], divided by [d], is finite in latitude and
    in longitude. *)
Definition finite_extent (p q : GeoPoint float) (d : float) : Prop :=
  f64_finite (PrimFloat.div (PrimFloat.sub (latitude q) (latitude p)) d) = true /\
  f64_finite (PrimFloat.div (PrimFloat.sub (longitude q) (longitude p)) d) = true.

(** The records of a run of [main] that loses none: 51321600. *)
Definition total_records : Z := (NUM_TRAINS * numEntries)%Z.

(** What the specification's scenario records: time stamp and position. *)
Definition track {num} (data : list (Location num)) : list (Date * num * num) :=
  map (fun loc => (timestamp loc, loc_latitude loc, loc_longitude loc)) data.

Definition normal_data {A} (run : completion (list A) * lcg) : list A :=
  match fst run with
  | Normal data => data
  | Throw _ => []
  end.

(** ** The scenarios of the specification *)

Local Open Scope float_scope.

Lemma numEntries_exact :
  (numEntries * DATA_INTERVAL_MINUTES = NUM_DAYS * 24 * 60)%Z /\ numEntries = 129600%Z.
Proof. split; reflexivity. Qed.

(** [buildRoute((6, 80), (7, 81), 2)] in binary64: the two segments of
    the specification, exactly. *)
Example route_scenario_binary64 :
  generatePathSegments (point 6 80) (point 7 81) 2 =
  [ {| start := point 6 80; end_ := point 6.5 80.5 |};
    {| start := point 6.5 80.5; end_ := point 7 81 |} ].
Proof. vm_compute. reflexivity. Qed.

(** [synthesize(1, T0, 4, route)] in binary64: four records one minute
    apart, at progress 0 and 0.5 of the first segment, then 0 and 0.5 of
    the second. *)
Example synthesize_scenario_binary64 :
  track (normal_data (generateLocationData tza_colombo 1 (Some 0%Z) 4
                        (generatePathSegments (point 6 80) (point 7 81) 2) seed))
  = [ (Some 0%Z, 6, 80); (Some 60000%Z, 6.25, 80.25);
      (Some 120000%Z, 6.5, 80.5); (Some 180000%Z, 6.75, 80.75) ].
Proof. vm_compute. reflexivity. Qed.

(** Four entries over three segments: line 51 divides by 4 / 3, not by
    its integer part.  The entries fall on segments 0, 0, 1, 2: the first
    bucket takes the remainder.  Dividing by the truncated quotient would
    send entry 3 to index 3, outside the route. *)
Example bucket_policy_binary64 :
  let route := generatePathSegments (point 6 80) (point 7 81) 3 in
  map (fun i => to_index (segmentIndex i 4 route)) [0; 1; 2; 3]%Z
    = [Some 0; Some 0; Some 1; Some 2]%nat /\
  map (fun i => bucket i 4 3) [0; 1; 2; 3]%Z = [0; 0; 1; 2]%Z /\
  map (fun i => to_index (f64_floor (f64_of_int i / f64_floor (f64_of_int 4 / f64_of_int 3))))
    [0; 1; 2; 3]%Z = [Some 0; Some 1; Some 2; Some 3]%nat.
Proof. vm_compute. repeat split. Qed.

(** In binary64 the last segment need not end at the end point: from
    latitude 8.782 to latitude 5.986 in 11 segments it ends 2^-50 degrees
    short of it. *)
Example route_end_binary64 :
  let startCoords := point (decimal 8782 3) (decimal 80000 3) in
  let endCoords := point (decimal 5986 3) (decimal 81000 3) in
  option_map (fun seg => (PrimFloat.eqb (latitude (end_ seg)) (latitude endCoords),
                          latitude endCoords - latitude (end_ seg)))
    (nth_error (generatePathSegments startCoords endCoords 11) 10)
  = Some (false, 0x1p-50).
Proof. vm_compute. reflexivity. Qed.

(** ** The segment index on the parameters of [main] *)

Local Close Scope float_scope.
Local Open Scope Z_scope.

Lemma of_Z_succ z : Uint63.add (Uint63.of_Z z) 1 = Uint63.of_Z (z + 1).
Proof.
  apply Uint63.to_Z_inj. rewrite Uint63.add_spec, !Uint63.of_Z_spec.
  change (Uint63.to_Z 1) with 1. apply Zplus_mod_idemp_l.
Qed.

(** The quotient of machine integers is [bucket], below 2^31. *)
Lemma uint63_bucket i n k :
  0 <= i < 2 ^ 31 -> 0 <= k < 2 ^ 31 -> 0 < n < 2 ^ 31 ->
  Uint63.div (Uint63.mul (Uint63.of_Z i) (Uint63.of_Z k)) (Uint63.of_Z n)
  = Uint63.of_Z (bucket i n k).
Proof.
  intros Hi Hk Hn. unfold bucket.
  assert (0 <= i * k < 2 ^ 62) as Hik by nia.
  assert (0 <= i * k / n <= i * k) as Hq
    by (split; [apply Z.div_pos; lia | apply Z.div_le_upper_bound; nia]).
  apply Uint63.to_Z_inj.
  rewrite Uint63.div_spec, Uint63.mul_spec, !Uint63.of_Z_spec.
  change wB with (2 ^ 63).
  rewrite (Z.mod_small i), (Z.mod_small k), (Z.mod_small n), (Z.mod_small (i * k)),
    (Z.mod_small (i * k / n)) by lia.
  reflexivity.
Qed.

(** Every entry the evaluation has passed agrees. *)
Lemma agree_from_spec d n k fuel z m :
  agree_from d n k fuel (Uint63.of_Z z) = true -> (m < fuel)%nat ->
  index_agrees d n k (Uint63.of_Z (z + Z.of_nat m)) = true.
Proof.
  revert z m. induction fuel as [|fuel IH]; intros z m Hall Hm; [lia|].
  cbn [agree_from] in Hall. apply andb_true_iff in Hall as [Hz Hrest].
  destruct m as [|m]; [now rewrite Z.add_0_r|].
  rewrite of_Z_succ in Hrest.
  replace (z + Z.of_nat (S m)) with (z + 1 + Z.of_nat m) by lia.
  apply IH; [assumption | lia].
Qed.

Lemma production_indices_agree :
  forallb (indices_agree numEntries)
    (zrange minSegments 1 (Z.to_nat (maxSegments - minSegments + 1))) = true.
Proof. vm_compute. reflexivity. Qed.

(** The index of line 51 in binary64, on the parameters of [main]. *)
Lemma production_index (segments : list (Segment float)) (i : Z) :
  minSegments <= Z.of_nat (length segments) <= maxSegments ->
  0 <= i < numEntries ->
  to_index (segmentIndex i numEntries segments) =
  Some (Z.to_nat (bucket i numEntries (Z.of_nat (length segments)))).
Proof.
  unfold minSegments, maxSegments. intros Hk Hi.
  assert (numEntries = 129600) as Hn by reflexivity.
  pose proof (bucket_range (n:=numEntries) (k:=Z.of_nat (length segments)) Hi
                ltac:(lia)) as Hb.
  pose proof production_indices_agree as Hall. rewrite forallb_forall in Hall.
  specialize (Hall (Z.of_nat (length segments))). unfold indices_agree in Hall.
  pose proof (fun H => agree_from_spec _ _ _ _ 0 (Z.to_nat i) (Hall H) ltac:(lia))
    as Hagree.
  unfold index_agrees in Hagree.
  rewrite Z.add_0_l, Z2Nat.id, uint63_bucket in Hagree by lia.
  unfold segmentIndex, array_length. cbn [to_index nfloor ndiv of_int f64_JSNum].
  rewrite <- f64_to_index_small by lia. apply f64_eqb_to_index.
  rewrite (f64_of_int_nonneg i), (f64_of_int_nonneg (bucket _ _ _)) by lia.
  apply Hagree, in_zrange. exists (Z.to_nat (Z.of_nat (length segments) - 5)).
  unfold minSegments, maxSegments. lia.
Qed.

(** C2. With the parameters of [main], in binary64: for every route of 5
    to 15 segments and every entry [i] of the 129600, the segment read by
    line 52 is segment [bucket i n k] of the route, the one read in exact
    arithmetic, and it exists. *)
Theorem segmentIndex_binary64 (segments : list (Segment float)) (i : Z) :
  production_sized segments ->
  0 <= i < numEntries ->
  exists seg,
    array_get segments (segmentIndex i numEntries segments) = Some seg /\
    nth_error segments (Z.to_nat (bucket i numEntries (Z.of_nat (length segments))))
    = Some seg.
Proof.
  unfold production_sized. intros Hk Hi.
  unfold array_get. rewrite production_index by assumption.
  pose proof (bucket_range (n:=numEntries) (k:=Z.of_nat (length segments)) Hi) as Hb.
  destruct (nth_error segments _) as [seg|] eqn:Eseg; [now exists seg|].
  apply nth_error_None in Eseg. unfold minSegments in Hk. lia.
Qed.

(** The points of the bounding box are proper. *)
Lemma in_box_proper p : in_box p = true -> proper_point p.
Proof.
  unfold in_box. rewrite !andb_true_iff. intros [[[H1 H2] H3] H4].
  split; eapply f64_between_nonzero; try eassumption; reflexivity.
Qed.

Section Production.
Context {R : Type} {E : Entropy float R}.

(** Every segment that a series of [main]'s size reads exists. *)
Lemma production_segments (segments : list (Segment float)) i :
  production_sized segments -> 0 <= i < numEntries ->
  array_get segments (segmentIndex i numEntries segments) <> None.
Proof.
  unfold production_sized. intros Hk Hi.
  unfold array_get. rewrite production_index by assumption.
  apply nth_error_Some.
  pose proof (bucket_range (n:=numEntries) (k:=Z.of_nat (length segments)) Hi) as Hb.
  unfold minSegments in Hk. lia.
Qed.

(** C3. With the parameters of [main], in binary64: for every route of 5
    to 15 segments, every train, start date, random source and state of
    it, [generateLocationData] returns the 129600 records; no segment
    index is out of range. *)
Theorem generateLocationData_binary64 tza id startDate (segments : list (Segment float))
    (r : R) :
  production_sized segments ->
  exists data r',
    generateLocationData tza id startDate numEntries segments r = (Normal data, r') /\
    length data = Z.to_nat numEntries.
Proof.
  intros Hk. apply generateLocationData_defined. intros i Hi.
  now apply production_segments.
Qed.

(** The quotient [numEntries / segments.length] of lines 51 and 53, for
    the routes of [main]: finite and not zero. *)
Lemma production_divisor (segments : list (Segment float)) :
  production_sized segments ->
  f64_nonzero (PrimFloat.div (f64_of_int numEntries) (array_length segments)) = true.
Proof.
  unfold production_sized, minSegments, maxSegments, array_length. intros Hk.
  assert (forallb (fun k => f64_nonzero (PrimFloat.div (f64_of_int numEntries) (f64_of_int k)))
            (zrange 5 1 11) = true) as Hall by (vm_compute; reflexivity).
  rewrite forallb_forall in Hall. apply Hall, in_zrange.
  exists (Z.to_nat (Z.of_nat (length segments) - 5)). lia.
Qed.

(** C34. With the parameters of [main], in binary64: the first record of
    a series lies at the start of the first segment of its route, bit for
    bit, whenever the coordinates of that point are finite and not zero
    (as those of every point of the bounding box are: [in_box_proper]) and
    the extent of the segment is finite.  The progress of entry 0 is a zero, its product with the
    extent of the segment is a zero, and the sum absorbs it. *)
Theorem first_record_binary64 tza id startDate (segments : list (Segment float)) seg
    (r : R) :
  production_sized segments -> nth_error segments 0 = Some seg ->
  proper_point (start seg) ->
  f64_finite (PrimFloat.sub (latitude (end_ seg)) (latitude (start seg))) = true ->
  f64_finite (PrimFloat.sub (longitude (end_ seg)) (longitude (start seg))) = true ->
  exists data r' loc,
    generateLocationData tza id startDate numEntries segments r = (Normal data, r') /\
    nth_error data 0 = Some loc /\
    loc_latitude loc = latitude (start seg) /\ loc_longitude loc = longitude (start seg).
Proof.
  intros Hk Eseg [Hlat Hlng] Hdlat Hdlng.
  destruct (@generateLocationData_defined _ _ _ _ tza id startDate numEntries segments r
              (fun i Hi => production_segments segments i Hk Hi))
    as (data & r' & Erun & Hlen).
  destruct data as [|loc data].
  { apply (f_equal Z.of_nat) in Hlen. rewrite Z2Nat.id in Hlen by (vm_compute; discriminate).
    vm_compute in Hlen. discriminate. }
  exists (loc :: data), r', loc. split; [exact Erun|]. split; [reflexivity|].
  destruct (generateLocationData_positioned _ _ _ _ _ _ 0 Erun eq_refl)
    as (seg' & Eget & Elat & Elng).
  unfold array_get in Eget. change (Z.of_nat 0) with 0 in Eget.
  rewrite (production_index segments 0 Hk) in Eget by (vm_compute; split; congruence).
  unfold bucket in Eget. rewrite Z.mul_0_l, Z.div_0_l in Eget by (vm_compute; discriminate).
  change (Z.to_nat 0) with 0%nat in Eget. rewrite Eseg in Eget. inv Eget.
  pose proof (production_divisor segments Hk) as Hd.
  destruct (f64_zero_div _ Hd) as [s Ep].
  unfold interpolate, segmentProgress in Elat, Elng.
  cbn [of_int nrem ndiv nadd nsub nmul f64_JSNum Z.of_nat f64_of_int] in Elat, Elng.
  rewrite (f64_zero_rem _ Hd) in Elat, Elng.
  destruct (f64_mul_zero _ _ _ Hdlat Ep) as [s1 E1], (f64_mul_zero _ _ _ Hdlng Ep) as [s2 E2].
  rewrite Elat, Elng. split; eapply f64_add_zero; eassumption.
Qed.

(** ** [main] in binary64 *)

#[export] Instance binary64_Generator : Generator float R.
Proof.
  split. intros tza id startDate segments r Hk. apply series_defined; [discriminate|].
  intros i Hi. now apply production_segments.
Qed.

(** C33. In binary64, with any lawful random source and any lawful sink:
    when the server can be reached and the client can be closed, [main]
    returns with the connection closed, having written the line of
    success of every train and no line of an error of generation; it has
    added at most [total_records] records, 51321600, to the collection
    [locations], and exactly as many when no line of a batch error was
    written. *)
Theorem main_binary64 {EL : EntropyLaws float R} {St} {K : Sink (Location float) St}
    {L : SinkLaws (Location float) St} tza (w : World R St) :
  reachable w = true -> closable w = true ->
  exists w' added lines,
    main tza w = (Normal tt, w') /\ connection w' = Closed /\
    documents locations (sink w') = documents locations (sink w) ++ added /\
    console (sink w') = console (sink w) ++ [ConnectedSuccessfully] ++ lines ++ [Complete] /\
    Forall train_line lines /\
    (forall id, 1 <= id <= NUM_TRAINS -> In (InsertedTrain id) lines) /\
    Z.of_nat (length added) <= total_records /\
    (no_batch_error lines -> Z.of_nat (length added) = total_records).
Proof.
  intros Hr Hcl.
  destruct (main_run tza w Hr Hcl)
    as ([] & w' & Em & Hc & added & lines & Hd & Hl & Hlines & Hids & _ & Hlen & Hall & _).
  now exists w', added, lines.
Qed.

End Production.

(** A world whose server can be reached, in binary64. *)
Definition world_binary64 : World lcg (store (Location float)) :=
  {| entropy := seed;
     sink := {| store_documents := []; store_console := []; outcomes := [Some 10%nat] |};
     readings := fun k => 1700000000000 + Z.of_nat k;
     reads := 0;
     connection := NotConnected;
     reachable := true;
     closable := true |}.

Lemma main_binary64_witness :
  exists w' added lines,
    main tza_colombo world_binary64 = (Normal tt, w') /\ connection w' = Closed /\
    documents locations (sink w') = documents locations (sink world_binary64) ++ added /\
    console (sink w')
    = console (sink world_binary64) ++ [ConnectedSuccessfully] ++ lines ++ [Complete] /\
    Forall train_line lines /\
    (forall id, 1 <= id <= NUM_TRAINS -> In (InsertedTrain id) lines) /\
    Z.of_nat (length added) <= total_records /\
    (no_batch_error lines -> Z.of_nat (length added) = total_records).
Proof. apply main_binary64; reflexivity. Defined.

(** ** Where a route starts *)

(** C35. In binary64 a route with at least one segment starts at its
    start point, bit for bit, whenever the coordinates of the start point
    are finite and not zero (as those of every point of the bounding box
    are: [in_box_proper]) and the increments are finite: the start of
    segment 0 is the start point plus the increment times 0, a zero, which
    the sum absorbs.  Nothing like it holds of the end of the route,
    which is the start plus the rounded increment times the number of
    segments ([route_end_binary64]). *)
Theorem route_start_binary64 (startCoords endCoords : GeoPoint float) numSegments :
  0 < numSegments ->
  proper_point startCoords ->
  finite_extent startCoords endCoords (f64_of_int numSegments) ->
  option_map start (nth_error (generatePathSegments startCoords endCoords numSegments) 0)
  = Some startCoords.
Proof.
  intros Hn [Hlat Hlng] [Hdlat Hdlng]. rewrite generatePathSegments_map.
  destruct (Z.to_nat numSegments) as [|m] eqn:Em; [lia|].
  cbn [zrange map nth_error option_map segment_at start].
  destruct (f64_mul_zero _ zero _ Hdlat eq_refl) as [s1 E1],
    (f64_mul_zero _ zero _ Hdlng eq_refl) as [s2 E2].
  destruct startCoords as [lat lng]. cbn [latitude longitude] in *.
  do 2 f_equal; eapply f64_add_zero; eassumption.
Qed.

(** ** A run of [main]'s size: five segments, the last entry *)

Lemma production_route_size : production_sized production_route.
Proof. vm_compute. split; discriminate. Qed.

Lemma segmentIndex_binary64_witness :
  exists seg,
    array_get production_route (segmentIndex 129599 numEntries production_route)
    = Some seg /\
    nth_error production_route
      (Z.to_nat (bucket 129599 numEntries (Z.of_nat (length production_route))))
    = Some seg.
Proof.
  apply segmentIndex_binary64; [exact production_route_size | vm_compute; now split].
Defined.

Lemma generateLocationData_binary64_witness :
  exists data r',
    generateLocationData tza_colombo 1 (Some 0) numEntries production_route seed
    = (Normal data, r') /\
    length data = Z.to_nat numEntries.
Proof. apply generateLocationData_binary64. exact production_route_size. Defined.

Lemma route_start_binary64_witness :
  option_map start
    (nth_error (generatePathSegments (point (decimal 8782 3) (decimal 80000 3))
                  (point (decimal 5986 3) (decimal 81000 3)) 11) 0)
  = Some (point (decimal 8782 3) (decimal 80000 3)).
Proof. apply route_start_binary64; [lia | split; reflexivity..]. Defined.

Lemma first_record_binary64_witness :
  exists seg,
    nth_error production_route 0 = Some seg /\
    exists data r' loc,
      generateLocationData tza_colombo 1 (Some 0) numEntries production_route seed
      = (Normal data, r') /\
      nth_error data 0 = Some loc /\
      loc_latitude loc = latitude (start seg) /\ loc_longitude loc = longitude (start seg).
Proof.
  eexists. split; [vm_compute; reflexivity|].
  apply first_record_binary64;
    [exact production_route_size | vm_compute; reflexivity | split; reflexivity
    | reflexivity..].
Defined.
